(** * A stable-fluids solver with temperature, obstacle, external force and
      Smagorinsky turbulence: shallow embedding and verification

    The program is a single Python script built on numpy and scipy.  Its
    [main] function closes over a handful of module constants and defines the
    discrete differential operators, the turbulence closure, the
    semi-Lagrangian advector and the operator-splitting time loop.

    Modelling choices.
    - A numpy array of shape [(n, m)] is a list of [n] rows of length [m];
      axis 0 is the [x] index ("ij" meshgrid indexing).  An array of shape
      [(n, m, 2)] is a list of rows of pairs.
    - The entries are float64 in the program.  They are modelled as real
      numbers: rounding, overflow and NaN are outside this model, and every
      statement below is a statement about the exact-arithmetic reading of
      the code.
    - Slices [a[s:-e]] and slice assignment are modelled on lists, so the
      index form of each stencil is a theorem and not a definition.
    - Entry-wise operations combine arrays of one shape.  Where numpy would
      refuse two shapes the list model truncates to the common part; every
      statement below is about arrays of one shape.
    - [scipy.sparse.linalg.cg] is a parameter of the time loop: a function
      returning the pair (iterate, status) that scipy documents.
    - [scipy.interpolate.interpn] (linear method, [bounds_error=True]) is
      modelled as a function into [option]; [None] is the [ValueError] it
      raises. *)

From Stdlib Require Import Reals Lra Lia List Bool ZArith PeanoNat.
Import ListNotations.

Open Scope R_scope.

(** ** Array entries

    The operators are written once in numpy and work on scalar arrays and on
    arrays with a trailing component axis alike.  [Elem] is that interface:
    the entry-wise arithmetic numpy broadcasts over the trailing axis. *)

Class Elem (E : Type) : Type := {
  ezero : E;
  eadd : E -> E -> E;
  esub : E -> E -> E;
  escale : R -> E -> E;
  ediv : E -> R -> E;
  eadd_0_l : forall v, eadd ezero v = v;
  eadd_0_r : forall v, eadd v ezero = v;
  esub_diag : forall v, esub v v = ezero;
  escale_0_l : forall v, escale 0 v = ezero;
  escale_1_l : forall v, escale 1 v = v;
  escale_0_r : forall k, escale k ezero = ezero;
  ediv_0_l : forall k, k <> 0 -> ediv ezero k = ezero
}.

Declare Scope elem_scope.
Delimit Scope elem_scope with E.
Infix "+" := eadd : elem_scope.
Infix "-" := esub : elem_scope.

#[export, refine] Instance Elem_R : Elem R := {
  ezero := 0;
  eadd := Rplus;
  esub := Rminus;
  escale := Rmult;
  ediv := Rdiv
}.
Proof.
  all: intros; unfold Rdiv; lra.
Defined.

#[export, refine] Instance Elem_pair (E : Type) `{Elem E} : Elem (E * E) := {
  ezero := (ezero, ezero);
  eadd := fun a b => (eadd (fst a) (fst b), eadd (snd a) (snd b));
  esub := fun a b => (esub (fst a) (fst b), esub (snd a) (snd b));
  escale := fun k a => (escale k (fst a), escale k (snd a));
  ediv := fun a k => (ediv (fst a) k, ediv (snd a) k)
}.
Proof.
  - intros [a b]; simpl; now rewrite !eadd_0_l.
  - intros [a b]; simpl; now rewrite !eadd_0_r.
  - intros [a b]; simpl; now rewrite !esub_diag.
  - intros [a b]; simpl; now rewrite !escale_0_l.
  - intros [a b]; simpl; now rewrite !escale_1_l.
  - intros k; simpl; now rewrite !escale_0_r.
  - intros k Hk; simpl; now rewrite !ediv_0_l.
Defined.

(** ** Lists as numpy arrays *)

(** [a[s:-e]] for [e > 0], and [a[s:]] for [e = 0]: Python clamps an empty
    range to the empty list, as the truncated subtraction does. *)
Definition slice {A : Type} (s e : nat) (l : list A) : list A :=
  firstn (length l - e - s) (skipn s l).

(** [a[s:-e] = rhs], for [rhs] of the length of the slice. *)
Definition set_slice {A : Type} (s e : nat) (l rhs : list A) : list A :=
  firstn s l ++ rhs ++ skipn (Nat.max s (length l - e)) l.

Definition has_shape {A : Type} (n m : nat) (a : list (list A)) : bool :=
  (length a =? n)%nat && forallb (fun row => (length row =? m)%nat) a.

Definition get2 {A : Type} (d : A) (a : list (list A)) (i j : nat) : A :=
  nth j (nth i a []) d.

(** [a[s1:-e1, s2:-e2]] *)
Definition slice2 {A : Type} (s1 e1 s2 e2 : nat) (a : list (list A))
  : list (list A) :=
  map (slice s2 e2) (slice s1 e1 a).

(** The array of shape [(n, m)] with entry [f i j] at [(i, j)]. *)
Definition tabulate2 {A : Type} (n m : nat) (f : nat -> nat -> A)
  : list (list A) :=
  map (fun i => map (fun j => f i j) (seq 0 m)) (seq 0 n).

Fixpoint map2 {A B C : Type} (f : A -> B -> C) (l : list A) (l' : list B) : list C :=
  match l, l' with
  | a :: t, b :: t' => f a b :: map2 f t t'
  | _, _ => []
  end.

(** [a[s1:-e1, s2:-e2] = rhs] *)
Definition set_slice2 {A : Type} (s1 e1 s2 e2 : nat) (a rhs : list (list A))
  : list (list A) :=
  set_slice s1 e1 a (map2 (set_slice s2 e2) (slice s1 e1 a) rhs).

Definition map2d {A B : Type} (f : A -> B) (a : list (list A)) : list (list B) :=
  map (map f) a.

Definition zip2d {A B C : Type} (f : A -> B -> C)
  (a : list (list A)) (b : list (list B)) : list (list C) :=
  map2 (map2 f) a b.

Definition shaped {A : Type} (n m : nat) (a : list (list A)) : Prop :=
  has_shape n m a = true.

(** [np.zeros_like] *)
Definition zeros_like {E : Type} `{Elem E} (a : list (list E)) : list (list E) :=
  map2d (fun _ => ezero) a.

(** [np.zeros(shape)] *)
Definition zeros {E : Type} `{Elem E} (n m : nat) : list (list E) :=
  repeat (repeat ezero m) n.

(** Comparisons of numpy, as booleans. *)
Definition Rltb (a b : R) : bool := if Rlt_dec a b then true else false.
Definition Rgtb (a b : R) : bool := if Rgt_dec a b then true else false.
Definition Rleb (a b : R) : bool := if Rle_dec a b then true else false.

(** [a[mask] = v] and [a[mask, :] = v]: the entries selected by a boolean
    mask of the array's shape are overwritten. *)
Definition mask_assign {A : Type} (mask : list (list bool)) (a : list (list A))
  (v : A) : list (list A) :=
  zip2d (fun (b : bool) old => if b then v else old) mask a.

(** ** Module constants *)

Definition DOMAIN_SIZE : R := 1.0.
Definition N_POINTS : nat := 41.
Definition N_TIME_STEPS : nat := 100.
Definition TIME_STEP_LENGTH : R := 0.1.

Definition KINEMATIC_VISCOSITY : R := 0.0001.
Definition TEMPERATURE_DIFFUSIVITY : R := 0.0001.
Definition SMAGORINSKY_CONSTANT : R := 0.1.
Definition element_length : R := DOMAIN_SIZE / (INR N_POINTS - 1).

Definition MAX_ITER_CG : option nat := None.

(** ** Force generators *)

Definition forcing_function (time : R) (point : R * R) : R * R :=
  let time_decay := Rmax (2.0 - 0.5 * time) 0.0 in
  escale time_decay
    (if Rgtb (fst point) 0.4 && Rltb (fst point) 0.6
        && Rgtb (snd point) 0.1 && Rltb (snd point) 0.3
     then (0.0, 1.0)
     else (0.0, 0.0)).

Definition external_force (time : R) (coordinates : list (list (R * R)))
  : list (list (R * R)) :=
  let force_y := -0.1 * sin (2 * PI * time / 10) in
  let force_x := map2d (fun c => 0.1 * sin (2 * PI * snd c)) coordinates in
  let force_field : list (list (R * R)) := zeros_like coordinates in
  let force_field := zip2d (fun ff fx => (fx, snd ff)) force_field force_x in
  let force_field := map2d (fun ff => (fst ff, force_y)) force_field in
  force_field.

(** ** The grid of [main] *)

Definition scalar_dof : nat := N_POINTS ^ 2.
Definition vector_dof : nat := N_POINTS ^ 2 * 2.

(** [np.linspace(start, stop, num)]: [start + i * step] with
    [step = (stop - start) / (num - 1)]. *)
Definition linspace (start stop : R) (num : nat) : list R :=
  map (fun i => start + INR i * ((stop - start) / (INR num - 1))) (seq 0 num).

Definition x : list R := linspace 0.0 DOMAIN_SIZE N_POINTS.
Definition y : list R := linspace 0.0 DOMAIN_SIZE N_POINTS.

(** [X, Y = np.meshgrid(x, y, indexing="ij")] *)
Definition X : list (list R) := map (fun xi => map (fun _ => xi) y) x.
Definition Y : list (list R) := map (fun _ => y) x.

Definition obstacle_center : R * R := (0.5, 0.5).
Definition obstacle_radius : R := 0.1.
Definition obstacle_mask : list (list bool) :=
  zip2d (fun Xv Yv =>
           Rltb ((Xv - fst obstacle_center) ^ 2 + (Yv - snd obstacle_center) ^ 2)
                (obstacle_radius ^ 2))
        X Y.

Definition coordinates : list (list (R * R)) := zip2d pair X Y.

Definition forcing_function_vectorized (time : R)
  (coords : list (list (R * R))) : list (list (R * R)) :=
  map2d (forcing_function time) coords.

(** ** Differential operators *)

Definition partial_derivative_x {E : Type} `{Elem E} (field : list (list E))
  : list (list E) :=
  let diff := zeros_like field in
  set_slice2 1 1 1 1 diff
    (map2d (fun d => ediv d (2 * element_length))
       (zip2d esub (slice2 2 0 1 1 field) (slice2 0 2 1 1 field))).

Definition partial_derivative_y {E : Type} `{Elem E} (field : list (list E))
  : list (list E) :=
  let diff := zeros_like field in
  set_slice2 1 1 1 1 diff
    (map2d (fun d => ediv d (2 * element_length))
       (zip2d esub (slice2 1 1 2 0 field) (slice2 1 1 0 2 field))).

Definition laplace {E : Type} `{Elem E} (field : list (list E))
  : list (list E) :=
  let diff := zeros_like field in
  set_slice2 1 1 1 1 diff
    (map2d (fun d => ediv d (element_length ^ 2))
       (zip2d eadd
          (zip2d eadd
             (zip2d esub
                (zip2d eadd (slice2 0 2 1 1 field) (slice2 1 1 0 2 field))
                (map2d (escale 4) (slice2 1 1 1 1 field)))
             (slice2 2 0 1 1 field))
          (slice2 1 1 2 0 field))).

Definition divergence {E : Type} `{Elem E} (vector_field : list (list (E * E)))
  : list (list E) :=
  zip2d eadd
    (partial_derivative_x (map2d fst vector_field))
    (partial_derivative_y (map2d snd vector_field)).

(** The two partials are joined along a new trailing axis. *)
Definition gradient {E : Type} `{Elem E} (field : list (list E))
  : list (list (E * E)) :=
  zip2d pair (partial_derivative_x field) (partial_derivative_y field).

Definition curl_2d {E : Type} `{Elem E} (vector_field : list (list (E * E)))
  : list (list E) :=
  zip2d esub
    (partial_derivative_x (map2d snd vector_field))
    (partial_derivative_y (map2d fst vector_field)).

(** ** Turbulence model *)

Definition compute_strain_rate (velocity_field : list (list (R * R)))
  : list (list R) :=
  let du_dx := partial_derivative_x (map2d fst velocity_field) in
  let dv_dy := partial_derivative_y (map2d snd velocity_field) in
  let du_dy := partial_derivative_y (map2d fst velocity_field) in
  let dv_dx := partial_derivative_x (map2d snd velocity_field) in
  let S11 := du_dx in
  let S22 := dv_dy in
  let S12 := map2d (Rmult 0.5) (zip2d Rplus du_dy dv_dx) in
  let strain_rate_magnitude :=
    map2d sqrt
      (map2d (Rmult 2)
         (zip2d Rplus
            (zip2d Rplus (map2d (fun s => s ^ 2) S11) (map2d (fun s => s ^ 2) S22))
            (map2d (Rmult 2) (map2d (fun s => s ^ 2) S12)))) in
  strain_rate_magnitude.

Definition compute_turbulent_viscosity (velocity_field : list (list (R * R)))
  : list (list R) :=
  let strain_rate_magnitude := compute_strain_rate velocity_field in
  let turbulent_viscosity :=
    map2d (Rmult ((SMAGORINSKY_CONSTANT * element_length) ^ 2))
      strain_rate_magnitude in
  turbulent_viscosity.

(** ** Flattening and reshaping *)

(** A small error monad: [None] is a Python exception. *)
Definition bind {A B : Type} (c : option A) (k : A -> option B) : option B :=
  match c with
  | Some a => k a
  | None => None
  end.

Notation "v <- c ;; k" := (bind c (fun v => k))
  (at level 61, c at next level, right associativity).

(** [a.flatten()] in C order. *)
Definition flatten_scalar (a : list (list R)) : list R := concat a.

Definition flatten_vector (a : list (list (R * R))) : list R :=
  concat (map (fun row => concat (map (fun p => [fst p; snd p]) row)) a).

(** [a.reshape(scalar_shape)]: a [ValueError] when the size is not
    [N_POINTS * N_POINTS]. *)
Definition reshape_scalar (l : list R) : option (list (list R)) :=
  if (length l =? N_POINTS * N_POINTS)%nat
  then Some (tabulate2 N_POINTS N_POINTS
               (fun i j => nth (i * N_POINTS + j) l 0))
  else None.

(** [a.reshape(vector_shape)] *)
Definition reshape_vector (l : list R) : option (list (list (R * R))) :=
  if (length l =? N_POINTS * N_POINTS * 2)%nat
  then Some (tabulate2 N_POINTS N_POINTS
               (fun i j => (nth ((i * N_POINTS + j) * 2) l 0,
                            nth ((i * N_POINTS + j) * 2 + 1) l 0)))
  else None.

(** ** Turbulent diffusion operator *)

(** [effective_viscosity] of [diffusion_operator_turbulent]. *)
Definition effective_viscosity (vector_field : list (list (R * R)))
  : list (list R) :=
  let turbulent_viscosity := compute_turbulent_viscosity vector_field in
  map2d (Rplus KINEMATIC_VISCOSITY) turbulent_viscosity.

(** The right-hand side of the assignment to [diffused[..., i]], for the
    component [vector_field[..., i]]. *)
Definition diffused_component (effective : list (list R))
  (component : list (list R)) : list (list R) :=
  zip2d Rminus component
    (map2d (Rmult TIME_STEP_LENGTH)
       (divergence
          (zip2d (fun nu g => escale nu g) effective (gradient component)))).

Definition diffusion_operator_turbulent (vector_field_flattened : list R)
  : option (list R) :=
  vector_field <- reshape_vector vector_field_flattened ;;
  let effective := effective_viscosity vector_field in
  let diffused : list (list (R * R)) := zeros_like vector_field in
  let diffused :=
    zip2d (fun d c => (c, snd d)) diffused
      (diffused_component effective (map2d fst vector_field)) in
  let diffused :=
    zip2d (fun d c => (fst d, c)) diffused
      (diffused_component effective (map2d snd vector_field)) in
  Some (flatten_vector diffused).

(** ** Semi-Lagrangian advection *)

(** [np.clip(a, lo, hi)] is [np.minimum(hi, np.maximum(a, lo))]. *)
Definition clip (lo hi : R) (a : R) : R := Rmin hi (Rmax a lo).

Definition backtraced_positions (vector_field : list (list (R * R)))
  : list (list (R * R)) :=
  map2d (fun p => (clip 0.0 DOMAIN_SIZE (fst p), clip 0.0 DOMAIN_SIZE (snd p)))
    (zip2d esub coordinates (map2d (escale TIME_STEP_LENGTH) vector_field)).

(** [np.searchsorted(grid, v)], left side, on an ascending [grid]: the number
    of leading entries below [v]. *)
Fixpoint searchsorted (grid : list R) (v : R) : nat :=
  match grid with
  | [] => 0
  | g :: rest => if Rlt_dec g v then S (searchsorted rest v) else 0
  end.

(** The cell index of scipy's [_find_indices]: [searchsorted - 1], raised to
    [0] and lowered to [size - 2]. *)
Definition find_index (grid : list R) (v : R) : nat :=
  Nat.min (searchsorted grid v - 1) (length grid - 2).

Definition norm_distance (grid : list R) (v : R) : R :=
  let i := find_index grid v in
  (v - nth i grid 0) / (nth (S i) grid 0 - nth i grid 0).

(** scipy's [_evaluate_linear] at one query point: the four corners of the
    cell, each weighted by the product over the axes of [1 - yi] at the lower
    index and [yi] at the upper one, summed from [0.]. *)
Definition evaluate_linear {E : Type} `{Elem E} (points : list R * list R)
  (values : list (list E)) (xi : R * R) : E :=
  let i := find_index (fst points) (fst xi) in
  let j := find_index (snd points) (snd xi) in
  let yx := norm_distance (fst points) (fst xi) in
  let yy := norm_distance (snd points) (snd xi) in
  let v a b := get2 ezero values a b in
  eadd (eadd (eadd (eadd ezero
    (escale (1 * (1 - yx) * (1 - yy)) (v i j)))
    (escale (1 * (1 - yx) * yy) (v i (S j))))
    (escale (1 * yx * (1 - yy)) (v (S i) j)))
    (escale (1 * yx * yy) (v (S i) (S j))).

(** The bounds test of [interpn]: [grid[0] <= p <= grid[-1]]. *)
Definition in_bounds (grid : list R) (p : R) : bool :=
  Rleb (nth 0 grid 0) p && Rleb p (last grid 0).

(** The grid test of [interpn]: [np.all(np.diff(p) > 0.)]. *)
Fixpoint strictly_ascending (grid : list R) : bool :=
  match grid with
  | a :: (b :: _) as rest => Rltb a b && strictly_ascending rest
  | _ => true
  end.

(** [interpolate.interpn(points, values, xi)] with the default linear method
    and [bounds_error=True].  [None] is the [ValueError] raised when a grid
    axis is not strictly ascending, when the values do not have the shape of
    the grid, or when a query point lies outside the grid. *)
Definition interpn {E : Type} `{Elem E} (points : list R * list R)
  (values : list (list E)) (xi : list (list (R * R)))
  : option (list (list E)) :=
  if strictly_ascending (fst points) && strictly_ascending (snd points)
     && has_shape (length (fst points)) (length (snd points)) values
     && forallb (forallb (fun p => in_bounds (fst points) (fst p)
                                   && in_bounds (snd points) (snd p))) xi
  then Some (map2d (evaluate_linear points values) xi)
  else None.

Definition advect {E : Type} `{Elem E} (field : list (list E))
  (vector_field : list (list (R * R))) : option (list (list E)) :=
  let positions := backtraced_positions vector_field in
  let advected_field := interpn (x, y) field positions in
  advected_field.

(** ** Linear operators handed to the solver *)

Definition temperature_diffusion_operator (temp_flattened : list R)
  : option (list R) :=
  temp <- reshape_scalar temp_flattened ;;
  Some (flatten_scalar
          (zip2d Rminus temp
             (map2d (Rmult (TEMPERATURE_DIFFUSIVITY * TIME_STEP_LENGTH))
                (laplace temp)))).

Definition diffusion_operator (vector_field_flattened : list R)
  : option (list R) :=
  vector_field <- reshape_vector vector_field_flattened ;;
  let diffusion_applied :=
    zip2d esub vector_field
      (map2d (escale (KINEMATIC_VISCOSITY * TIME_STEP_LENGTH))
         (laplace vector_field)) in
  Some (flatten_vector diffusion_applied).

Definition poisson_operator (field_flattened : list R) : option (list R) :=
  field <- reshape_scalar field_flattened ;;
  let poisson_applied := laplace field in
  Some (flatten_scalar poisson_applied).

(** ** The time loop *)

(** The result of [splinalg.cg]: the iterate and the status ([0] on
    convergence, positive when the iteration cap was reached without it,
    negative on illegal input). *)
Definition cg_result : Type := (list R * Z)%type.

(** The solver: the operator's [matvec], the right-hand side [b] and
    [maxiter]. *)
Definition solver : Type :=
  (list R -> option (list R)) -> list R -> option nat -> cg_result.

Record State : Type := mkState {
  velocities_prev : list (list (R * R));
  temperature_prev : list (list R);
  time_current : R
}.

Definition temperature_source : list (list R) :=
  zip2d (fun Xv Yv => exp (- ((Xv - 0.5) ^ 2 + (Yv - 0.5) ^ 2) / 0.01)) X Y.

(** (1) Apply forces: the expression bound to [velocities_forces_applied]. *)
Definition velocities_forces_applied (velocities : list (list (R * R)))
  (forces external_forces : list (list (R * R))) : list (list (R * R)) :=
  zip2d eadd velocities
    (map2d (escale TIME_STEP_LENGTH) (zip2d eadd forces external_forces)).

Section TimeLoop.
Variable cg : solver.

Definition temperature_step (temperature : list (list R))
  (velocity_field : list (list (R * R))) (source : list (list R))
  : option (list (list R)) :=
  temperature_advected <- advect temperature velocity_field ;;
  temperature_diffused <-
    reshape_scalar
      (fst (cg temperature_diffusion_operator
               (flatten_scalar temperature_advected) None)) ;;
  let temperature_next :=
    zip2d Rplus temperature_diffused
      (map2d (Rmult TIME_STEP_LENGTH) source) in
  Some temperature_next.

(** One iteration of the loop of [main]. *)
Definition step (s : State) : option State :=
  let time_current := time_current s + TIME_STEP_LENGTH in
  let forces := forcing_function_vectorized time_current coordinates in
  let external_forces := external_force time_current coordinates in
  let forced :=
    velocities_forces_applied (velocities_prev s) forces external_forces in
  velocities_advected <- advect forced forced ;;
  velocities_diffused <-
    reshape_vector
      (fst (cg diffusion_operator_turbulent
               (flatten_vector velocities_advected) MAX_ITER_CG)) ;;
  pressure <-
    reshape_scalar
      (fst (cg poisson_operator
               (flatten_scalar (divergence velocities_diffused))
               MAX_ITER_CG)) ;;
  let velocities_projected :=
    zip2d esub velocities_diffused (gradient pressure) in
  let velocities_projected :=
    mask_assign obstacle_mask velocities_projected (0, 0) in
  temperature <-
    temperature_step (temperature_prev s) velocities_projected
      temperature_source ;;
  let temperature := mask_assign obstacle_mask temperature 0.5 in
  Some (mkState velocities_projected temperature time_current).

Definition initial_state : State :=
  mkState (zeros N_POINTS N_POINTS) (zeros N_POINTS N_POINTS) 0.0.

(** The state after [n] iterations of the loop. *)
Fixpoint run (n : nat) : option State :=
  match n with
  | O => Some initial_state
  | S k => s <- run k ;; step s
  end.

Definition main : option State := run N_TIME_STEPS.
End TimeLoop.

(** ** Vocabulary of the statements *)

(** The interior [[1, n-2] x [1, m-2]] of an array of shape [(n, m)]. *)
Definition interior (n m i j : nat) : bool :=
  (1 <=? i)%nat && (i <? n - 1)%nat && ((1 <=? j)%nat && (j <? m - 1)%nat).

(** The boundary rows and columns: index [0] or [n-1] along either axis. *)
Definition on_boundary (n m i j : nat) : Prop :=
  i = 0%nat \/ i = (n - 1)%nat \/ j = 0%nat \/ j = (m - 1)%nat.

(** A uniformly constant array. *)
Definition constant_field {E : Type} (n m : nat) (c : E) : list (list E) :=
  repeat (repeat c m) n.

(** The linear combination [a * f + b * g] of two arrays. *)
Definition lincomb {E : Type} `{Elem E} (a : R) (f : list (list E))
  (b : R) (g : list (list E)) : list (list E) :=
  zip2d eadd (map2d (escale a) f) (map2d (escale b) g).

(** The open rectangle in which [forcing_function] acts. *)
Definition in_forcing_region (point : R * R) : Prop :=
  (0.4 < fst point < 0.6) /\ (0.1 < snd point < 0.3).

(** The obstacle conditions on a state of the loop: at every grid point
    of the mask the velocity is [(0, 0)] and the temperature is [0.5]. *)
Definition obstacle_invariant (s : State) : Prop :=
  forall i j, (i < N_POINTS)%nat -> (j < N_POINTS)%nat ->
    get2 false obstacle_mask i j = true ->
    get2 (0, 0) (velocities_prev s) i j = (0, 0)
    /\ get2 0 (temperature_prev s) i j = 0.5.

Definition well_shaped (s : State) : Prop :=
  shaped N_POINTS N_POINTS (velocities_prev s)
  /\ shaped N_POINTS N_POINTS (temperature_prev s).

(** What scipy documents of [cg]: the iterate has the shape of [b]. *)
Definition keeps_length (cg : solver) : Prop :=
  forall A b maxiter, length (fst (cg A b maxiter)) = length b.

(** Two solvers that return the same iterates, whatever their statuses. *)
Definition agree_on_iterates (cg1 cg2 : solver) : Prop :=
  forall A b maxiter, fst (cg1 A b maxiter) = fst (cg2 A b maxiter).

(** A solver that makes no progress: it returns the initial guess [x0 = 0]
    and the positive status of an exhausted iteration cap. *)
Definition cg_stalled : solver :=
  fun _ b _ => (repeat 0 (length b), 1%Z).

(** A solver returning the same iterate with the status of convergence. *)
Definition cg_converged : solver :=
  fun _ b _ => (repeat 0 (length b), 0%Z).

(** Non-convergence is surfaced by a step when the outcome of the step tells
    a solver whose solves all exhaust the cap from one whose solves all
    converge to the same iterates. *)
Definition surfaces_nonconvergence : Prop :=
  forall (cg_ok cg_bad : solver) (s : State),
    agree_on_iterates cg_ok cg_bad ->
    (forall A b maxiter, snd (cg_ok A b maxiter) = 0%Z) ->
    (forall A b maxiter, (0 < snd (cg_bad A b maxiter))%Z) ->
    step cg_bad s <> step cg_ok s.

(** The samples on an [n x m] grid of spacing [element_length] of the
    affine function [a * x + b * y + c]. *)
Definition affine_field (n m : nat) (a b c : R) : list (list R) :=
  tabulate2 n m
    (fun i j => a * (INR i * element_length) + b * (INR j * element_length) + c).

(** The linear combination [a * l1 + b * l2] of two flattened fields. *)
Definition lincomb_flat (a : R) (l1 : list R) (b : R) (l2 : list R) : list R :=
  map2 (fun u v => a * u + b * v) l1 l2.

(** * Verification *)

(** ** Lists and arrays *)

Lemma shaped_length {A : Type} {n m : nat} {a : list (list A)} :
  shaped n m a -> length a = n.
Proof.
  unfold shaped, has_shape. intros H.
  apply andb_prop in H. destruct H as [H _]. now apply Nat.eqb_eq.
Qed.

Lemma shaped_row {A : Type} {n m : nat} {a : list (list A)} {i : nat} :
  shaped n m a -> (i < n)%nat -> length (nth i a []) = m.
Proof.
  unfold shaped, has_shape. intros H Hi.
  apply andb_prop in H. destruct H as [Hn Hrows].
  apply Nat.eqb_eq in Hn. rewrite forallb_forall in Hrows.
  apply Nat.eqb_eq, Hrows, nth_In. lia.
Qed.

Lemma shaped_intro {A : Type} (n m : nat) (a : list (list A)) :
  length a = n ->
  (forall i, (i < n)%nat -> length (nth i a []) = m) ->
  shaped n m a.
Proof.
  intros Hn Hrows. unfold shaped, has_shape.
  apply andb_true_intro. split.
  - now apply Nat.eqb_eq.
  - apply forallb_forall. intros row Hin.
    destruct (In_nth _ _ [] Hin) as [i [Hi <-]].
    apply Nat.eqb_eq, Hrows. lia.
Qed.

(** Two arrays of one shape with the same entries are the same array. *)
Lemma array_ext {A : Type} (d : A) {n m : nat} {a b : list (list A)} :
  shaped n m a -> shaped n m b ->
  (forall i j, (i < n)%nat -> (j < m)%nat -> get2 d a i j = get2 d b i j) ->
  a = b.
Proof.
  intros Ha Hb Hget.
  apply (nth_ext a b [] []).
  - now rewrite (shaped_length Ha), (shaped_length Hb).
  - intros i Hi. rewrite (shaped_length Ha) in Hi.
    apply (nth_ext _ _ d d).
    + now rewrite (shaped_row Ha Hi), (shaped_row Hb Hi).
    + intros j Hj. rewrite (shaped_row Ha Hi) in Hj. now apply Hget.
Qed.

Lemma length_map2 {A B C : Type} (f : A -> B -> C) (l : list A) (l' : list B) :
  length (map2 f l l') = Nat.min (length l) (length l').
Proof.
  revert l'. induction l as [|a t IH]; intros [|b t']; simpl; auto.
Qed.

Lemma nth_map2 {A B C : Type} (f : A -> B -> C) (l : list A) (l' : list B)
  (i : nat) (da : A) (db : B) (dc : C) :
  (i < length l)%nat -> (i < length l')%nat ->
  nth i (map2 f l l') dc = f (nth i l da) (nth i l' db).
Proof.
  revert l' i. induction l as [|a t IH]; intros [|b t'] [|i]; simpl;
    intros H1 H2; try lia; auto.
  apply IH; lia.
Qed.

Lemma shaped_zip2d {A B C : Type} (f : A -> B -> C) (n m : nat)
  (a : list (list A)) (b : list (list B)) :
  shaped n m a -> shaped n m b -> shaped n m (zip2d f a b).
Proof.
  intros Ha Hb. unfold zip2d. apply shaped_intro.
  - rewrite length_map2, (shaped_length Ha), (shaped_length Hb). lia.
  - intros i Hi.
    rewrite (nth_map2 _ _ _ _ [] [] []), length_map2,
      (shaped_row Ha Hi), (shaped_row Hb Hi);
      rewrite ?(shaped_length Ha), ?(shaped_length Hb); lia.
Qed.

Lemma get2_zip2d {A B C : Type} (f : A -> B -> C) {n m : nat}
  {a : list (list A)} {b : list (list B)} {i j : nat} (da : A) (db : B) (dc : C) :
  shaped n m a -> shaped n m b -> (i < n)%nat -> (j < m)%nat ->
  get2 dc (zip2d f a b) i j = f (get2 da a i j) (get2 db b i j).
Proof.
  intros Ha Hb Hi Hj. unfold get2, zip2d.
  rewrite (nth_map2 _ _ _ _ [] [] []);
    rewrite ?(shaped_length Ha), ?(shaped_length Hb); try lia.
  apply nth_map2; rewrite ?(shaped_row Ha Hi), ?(shaped_row Hb Hi); lia.
Qed.

Lemma nth_map_in {A B : Type} (f : A -> B) (l : list A) (i : nat)
  (da : A) (db : B) :
  (i < length l)%nat -> nth i (map f l) db = f (nth i l da).
Proof.
  intros Hi. rewrite (nth_indep _ db (f da)).
  - apply map_nth.
  - now rewrite length_map.
Qed.

Lemma shaped_map2d {A B : Type} (f : A -> B) (n m : nat) (a : list (list A)) :
  shaped n m a -> shaped n m (map2d f a).
Proof.
  intros Ha. unfold map2d. apply shaped_intro.
  - now rewrite length_map, (shaped_length Ha).
  - intros i Hi.
    rewrite (nth_map_in _ _ _ []), length_map.
    + now apply (shaped_row Ha).
    + rewrite (shaped_length Ha). lia.
Qed.

Lemma get2_map2d {A B : Type} (f : A -> B) {n m : nat} {a : list (list A)}
  {i j : nat} (da : A) (db : B) :
  shaped n m a -> (i < n)%nat -> (j < m)%nat ->
  get2 db (map2d f a) i j = f (get2 da a i j).
Proof.
  intros Ha Hi Hj. unfold get2, map2d.
  rewrite (nth_map_in _ _ _ []).
  - apply nth_map_in. rewrite (shaped_row Ha Hi). lia.
  - rewrite (shaped_length Ha). lia.
Qed.

Lemma shaped_tabulate2 {A : Type} (n m : nat) (f : nat -> nat -> A) :
  shaped n m (tabulate2 n m f).
Proof.
  unfold tabulate2. apply shaped_intro.
  - now rewrite length_map, length_seq.
  - intros i Hi.
    rewrite (nth_map_in _ _ _ 0%nat), length_map, length_seq; auto.
    rewrite length_seq. lia.
Qed.

Lemma get2_tabulate2 {A : Type} (n m : nat) (f : nat -> nat -> A)
  (i j : nat) (d : A) :
  (i < n)%nat -> (j < m)%nat -> get2 d (tabulate2 n m f) i j = f i j.
Proof.
  intros Hi Hj. unfold get2, tabulate2.
  rewrite (nth_map_in _ _ _ 0%nat), seq_nth by (rewrite ?length_seq; lia).
  rewrite (nth_map_in _ _ _ 0%nat), seq_nth by (rewrite ?length_seq; lia).
  reflexivity.
Qed.

(** *** Slices *)

Lemma length_slice {A : Type} (s e : nat) (l : list A) :
  length (slice s e l) = (length l - e - s)%nat.
Proof.
  unfold slice. rewrite length_firstn, length_skipn. lia.
Qed.

Lemma nth_slice {A : Type} (s e : nat) (l : list A) (i : nat) (d : A) :
  (i < length l - e - s)%nat -> nth i (slice s e l) d = nth (s + i) l d.
Proof.
  intros Hi. unfold slice. rewrite nth_firstn, nth_skipn.
  destruct (Nat.ltb_spec i (length l - e - s)); auto. lia.
Qed.

Lemma length_set_slice {A : Type} (s e : nat) (l rhs : list A) :
  length rhs = (length l - e - s)%nat ->
  length (set_slice s e l rhs) = length l.
Proof.
  intros Hr. unfold set_slice.
  rewrite !length_app, length_firstn, length_skipn, Hr. lia.
Qed.

Lemma nth_set_slice {A : Type} (s e : nat) (l rhs : list A) (i : nat) (d : A) :
  length rhs = (length l - e - s)%nat ->
  nth i (set_slice s e l rhs) d =
  if ((s <=? i)%nat && (i <? length l - e)%nat)%bool
  then nth (i - s) rhs d else nth i l d.
Proof.
  intros Hr. unfold set_slice.
  destruct (Nat.leb_spec s i) as [Hsi|Hsi]; simpl.
  - destruct (Nat.ltb_spec i (length l - e)) as [Hie|Hie].
    + rewrite app_nth2; rewrite length_firstn; try lia.
      rewrite app_nth1; try lia. f_equal. lia.
    + destruct (Nat.le_gt_cases (length l) i) as [Hover|Hin].
      * rewrite !nth_overflow; auto.
        rewrite !length_app, length_firstn, length_skipn, Hr. lia.
      * rewrite app_nth2; rewrite length_firstn; try lia.
        rewrite app_nth2; try lia.
        rewrite nth_skipn. f_equal. lia.
  - destruct (Nat.le_gt_cases (length l) i) as [Hover|Hin].
    + rewrite !nth_overflow; auto.
      rewrite !length_app, length_firstn, length_skipn, Hr. lia.
    + rewrite app_nth1; rewrite ?length_firstn; try lia.
      rewrite nth_firstn.
      destruct (Nat.ltb_spec i s); auto. lia.
Qed.

Lemma shaped_slice2 {A : Type} (s1 e1 s2 e2 n m : nat) (a : list (list A)) :
  shaped n m a ->
  shaped (n - e1 - s1) (m - e2 - s2) (slice2 s1 e1 s2 e2 a).
Proof.
  intros Ha. unfold slice2. apply shaped_intro.
  - now rewrite length_map, length_slice, (shaped_length Ha).
  - intros i Hi.
    rewrite (nth_map_in _ _ _ []) by (rewrite length_slice, (shaped_length Ha); lia).
    rewrite length_slice, nth_slice by (rewrite (shaped_length Ha); lia).
    rewrite (shaped_row (i := (s1 + i)%nat) Ha); lia.
Qed.

Lemma get2_slice2 {A : Type} (s1 e1 s2 e2 : nat) {n m : nat}
  {a : list (list A)} {i j : nat} (d : A) :
  shaped n m a -> (i < n - e1 - s1)%nat -> (j < m - e2 - s2)%nat ->
  get2 d (slice2 s1 e1 s2 e2 a) i j = get2 d a (s1 + i) (s2 + j).
Proof.
  intros Ha Hi Hj. unfold get2, slice2.
  rewrite (nth_map_in _ _ _ []) by (rewrite length_slice, (shaped_length Ha); lia).
  rewrite (nth_slice _ _ a) by (rewrite (shaped_length Ha); lia).
  apply nth_slice.
  rewrite (shaped_row (i := (s1 + i)%nat) Ha); lia.
Qed.

Lemma shaped_set_slice2 {A : Type} (s1 e1 s2 e2 n m : nat)
  (a rhs : list (list A)) :
  shaped n m a -> shaped (n - e1 - s1) (m - e2 - s2) rhs ->
  shaped n m (set_slice2 s1 e1 s2 e2 a rhs).
Proof.
  intros Ha Hr. unfold set_slice2.
  assert (Hlen : length (map2 (set_slice s2 e2) (slice s1 e1 a) rhs)
                 = (length a - e1 - s1)%nat).
  { rewrite length_map2, length_slice, (shaped_length Hr), (shaped_length Ha). lia. }
  apply shaped_intro.
  - rewrite length_set_slice; auto. now apply (shaped_length Ha).
  - intros i Hi. rewrite nth_set_slice; auto.
    rewrite (shaped_length Ha).
    destruct (Nat.leb_spec s1 i) as [H1|H1]; simpl;
      [destruct (Nat.ltb_spec i (n - e1)) as [H2|H2]|];
      try (now apply (shaped_row Ha)).
    rewrite (nth_map2 _ _ _ _ [] [] [])
      by (rewrite ?length_slice, ?(shaped_length Hr), ?(shaped_length Ha); lia).
    rewrite length_set_slice.
    + rewrite nth_slice by (rewrite (shaped_length Ha); lia).
      apply (shaped_row Ha). lia.
    + rewrite nth_slice by (rewrite (shaped_length Ha); lia).
      rewrite (shaped_row (i := (i - s1)%nat) Hr) by lia.
      rewrite (shaped_row (i := (s1 + (i - s1))%nat) Ha); lia.
Qed.

Lemma get2_set_slice2 {A : Type} (s1 e1 s2 e2 : nat) {n m : nat}
  {a rhs : list (list A)} {i j : nat} (d : A) :
  shaped n m a -> shaped (n - e1 - s1) (m - e2 - s2) rhs ->
  (i < n)%nat -> (j < m)%nat ->
  get2 d (set_slice2 s1 e1 s2 e2 a rhs) i j =
  if ((s1 <=? i)%nat && (i <? n - e1)%nat
      && ((s2 <=? j)%nat && (j <? m - e2)%nat))%bool
  then get2 d rhs (i - s1) (j - s2) else get2 d a i j.
Proof.
  intros Ha Hr Hi Hj. unfold get2, set_slice2.
  rewrite nth_set_slice
    by (rewrite length_map2, length_slice, (shaped_length Hr), (shaped_length Ha);
        lia).
  rewrite (shaped_length Ha).
  destruct (Nat.leb_spec s1 i) as [H1|H1]; simpl; auto.
  destruct (Nat.ltb_spec i (n - e1)) as [H2|H2]; simpl; auto.
  rewrite (nth_map2 _ _ _ _ [] [] [])
    by (rewrite ?length_slice, ?(shaped_length Hr), ?(shaped_length Ha); lia).
  rewrite nth_slice by (rewrite (shaped_length Ha); lia).
  replace (s1 + (i - s1))%nat with i by lia.
  rewrite nth_set_slice
    by (rewrite (shaped_row (i := (i - s1)%nat) Hr), (shaped_row Ha Hi); lia).
  now rewrite (shaped_row Ha Hi).
Qed.

Lemma shaped_cast {A : Type} {n m n' m' : nat} {a : list (list A)} :
  shaped n m a -> n = n' -> m = m' -> shaped n' m' a.
Proof. now intros H <- <-. Qed.

Lemma shaped_zeros_like {E : Type} `{Elem E} (n m : nat) (a : list (list E)) :
  shaped n m a -> shaped n m (zeros_like a).
Proof. apply shaped_map2d. Qed.

Lemma get2_zeros_like {E : Type} `{Elem E} {n m : nat} {a : list (list E)}
  {i j : nat} :
  shaped n m a -> (i < n)%nat -> (j < m)%nat ->
  get2 ezero (zeros_like a) i j = ezero.
Proof.
  intros Ha Hi Hj. unfold zeros_like.
  now rewrite (get2_map2d _ ezero ezero Ha Hi Hj).
Qed.

Lemma shaped_repeat {A : Type} (n m : nat) (c : A) :
  shaped n m (repeat (repeat c m) n).
Proof.
  apply shaped_intro.
  - apply repeat_length.
  - intros i Hi.
    rewrite (nth_indep _ [] (repeat c m)) by (rewrite repeat_length; lia).
    rewrite nth_repeat. apply repeat_length.
Qed.

Lemma get2_repeat {A : Type} (n m : nat) (c d : A) (i j : nat) :
  (i < n)%nat -> (j < m)%nat -> get2 d (repeat (repeat c m) n) i j = c.
Proof.
  intros Hi Hj. unfold get2.
  rewrite (nth_indep _ [] (repeat c m)) by (rewrite repeat_length; lia).
  rewrite nth_repeat.
  rewrite (nth_indep _ d c) by (rewrite repeat_length; lia).
  apply nth_repeat.
Qed.

(** *** The interior assignment [diff[1:-1, 1:-1] = rhs] onto zeros *)

Section InteriorAssignment.
Context {E : Type} `{Elem E}.
Variables (n m : nat) (field : list (list E)).
Hypothesis Hfield : shaped n m field.

Lemma shaped_interior_slices (s1 e1 s2 e2 : nat) :
  (s1 + e1 = 2)%nat -> (s2 + e2 = 2)%nat ->
  shaped (n - 2) (m - 2) (slice2 s1 e1 s2 e2 field).
Proof.
  intros H1 H2.
  apply (shaped_cast (shaped_slice2 s1 e1 s2 e2 _ _ _ Hfield)); lia.
Qed.

Lemma get2_interior_slices (s1 e1 s2 e2 i j : nat) :
  (s1 + e1 = 2)%nat -> (s2 + e2 = 2)%nat ->
  (i < n - 2)%nat -> (j < m - 2)%nat ->
  get2 ezero (slice2 s1 e1 s2 e2 field) i j
  = get2 ezero field (s1 + i) (s2 + j).
Proof.
  intros H1 H2 Hi Hj. apply (get2_slice2 _ _ _ _ _ Hfield); lia.
Qed.

Lemma shaped_interior_assign (rhs : list (list E)) :
  shaped (n - 2) (m - 2) rhs ->
  shaped n m (set_slice2 1 1 1 1 (zeros_like field) rhs).
Proof.
  intros Hr. apply shaped_set_slice2.
  - now apply shaped_zeros_like.
  - apply (shaped_cast Hr); lia.
Qed.

Lemma get2_interior_assign (rhs : list (list E)) (i j : nat) :
  shaped (n - 2) (m - 2) rhs -> (i < n)%nat -> (j < m)%nat ->
  get2 ezero (set_slice2 1 1 1 1 (zeros_like field) rhs) i j
  = if interior n m i j then get2 ezero rhs (i - 1) (j - 1) else ezero.
Proof.
  intros Hr Hi Hj.
  assert (Hr' : shaped (n - 1 - 1) (m - 1 - 1) rhs)
    by (apply (shaped_cast Hr); lia).
  rewrite (get2_set_slice2 1 1 1 1 _ (shaped_zeros_like _ _ _ Hfield) Hr' Hi Hj).
  unfold interior.
  destruct (_ && _)%bool; auto.
  now apply (get2_zeros_like Hfield).
Qed.
End InteriorAssignment.

Arguments shaped_interior_slices {E n m field} Hfield s1 e1 s2 e2.
Arguments get2_interior_slices {E _ n m field} Hfield s1 e1 s2 e2 {i j}.
Arguments shaped_interior_assign {E _ n m field} Hfield {rhs}.
Arguments get2_interior_assign {E _ n m field} Hfield {rhs i j}.

Ltac shape_tac :=
  repeat first
    [ assumption
    | apply shaped_zip2d
    | apply shaped_map2d
    | apply shaped_zeros_like
    | apply shaped_tabulate2
    | apply shaped_repeat
    | apply shaped_interior_slices; [assumption | lia | lia]
    | apply shaped_interior_assign; [assumption | ] ].

Lemma get2_index_eq {A : Type} (d : A) (a : list (list A)) (i j i' j' : nat) :
  i = i' -> j = j' -> get2 d a i j = get2 d a i' j'.
Proof. now intros <- <-. Qed.

Ltac stencil_eq :=
  repeat first
    [ reflexivity | apply get2_index_eq; lia | progress f_equal ].

Lemma interior_true (n m i j : nat) :
  interior n m i j = true <->
  (1 <= i /\ i + 1 < n /\ 1 <= j /\ j + 1 < m)%nat.
Proof.
  unfold interior.
  rewrite !andb_true_iff, !Nat.leb_le, !Nat.ltb_lt. lia.
Qed.

Lemma interior_false {n m i j : nat} :
  (i < n)%nat -> (j < m)%nat ->
  interior n m i j = false <-> on_boundary n m i j.
Proof.
  intros Hi Hj. unfold on_boundary.
  rewrite <- not_true_iff_false, interior_true. lia.
Qed.

(** ** The stencils in index form *)

Section Stencils.
Context {E : Type} `{Elem E}.
Variables (n m : nat) (field : list (list E)).
Hypothesis Hfield : shaped n m field.

Notation "f [[ i , j ]]" := (get2 ezero f i j) (at level 1, i at level 99).

Lemma shaped_partial_derivative_x : shaped n m (partial_derivative_x field).
Proof. unfold partial_derivative_x. shape_tac. Qed.

Lemma shaped_partial_derivative_y : shaped n m (partial_derivative_y field).
Proof. unfold partial_derivative_y. shape_tac. Qed.

Lemma shaped_laplace : shaped n m (laplace field).
Proof. unfold laplace. shape_tac. Qed.

Lemma get2_partial_derivative_x (i j : nat) :
  (i < n)%nat -> (j < m)%nat ->
  (partial_derivative_x field)[[i, j]] =
  if interior n m i j
  then ediv (esub field[[i + 1, j]] field[[i - 1, j]]) (2 * element_length)
  else ezero.
Proof.
  intros Hi Hj. unfold partial_derivative_x.
  rewrite (get2_interior_assign Hfield) by (auto; shape_tac).
  destruct (interior n m i j) eqn:Hint; auto.
  apply interior_true in Hint.
  rewrite (get2_map2d _ ezero ezero (n := (n - 2)%nat) (m := (m - 2)%nat))
    by (try lia; shape_tac).
  rewrite (get2_zip2d _ ezero ezero ezero (n := (n - 2)%nat) (m := (m - 2)%nat))
    by (try lia; shape_tac).
  rewrite !(get2_interior_slices Hfield) by lia.
  stencil_eq.
Qed.

Lemma get2_partial_derivative_y (i j : nat) :
  (i < n)%nat -> (j < m)%nat ->
  (partial_derivative_y field)[[i, j]] =
  if interior n m i j
  then ediv (esub field[[i, j + 1]] field[[i, j - 1]]) (2 * element_length)
  else ezero.
Proof.
  intros Hi Hj. unfold partial_derivative_y.
  rewrite (get2_interior_assign Hfield) by (auto; shape_tac).
  destruct (interior n m i j) eqn:Hint; auto.
  apply interior_true in Hint.
  rewrite (get2_map2d _ ezero ezero (n := (n - 2)%nat) (m := (m - 2)%nat))
    by (try lia; shape_tac).
  rewrite (get2_zip2d _ ezero ezero ezero (n := (n - 2)%nat) (m := (m - 2)%nat))
    by (try lia; shape_tac).
  rewrite !(get2_interior_slices Hfield) by lia.
  stencil_eq.
Qed.

Lemma get2_laplace (i j : nat) :
  (i < n)%nat -> (j < m)%nat ->
  (laplace field)[[i, j]] =
  if interior n m i j
  then ediv
         (eadd (eadd (esub (eadd field[[i - 1, j]] field[[i, j - 1]])
                           (escale 4 field[[i, j]]))
                     field[[i + 1, j]])
               field[[i, j + 1]])
         (element_length ^ 2)
  else ezero.
Proof.
  intros Hi Hj. unfold laplace.
  rewrite (get2_interior_assign Hfield) by (auto; shape_tac).
  destruct (interior n m i j) eqn:Hint; auto.
  apply interior_true in Hint.
  rewrite (get2_map2d _ ezero ezero (n := (n - 2)%nat) (m := (m - 2)%nat))
    by (try lia; shape_tac).
  rewrite !(get2_zip2d _ ezero ezero ezero (n := (n - 2)%nat) (m := (m - 2)%nat))
    by (try lia; shape_tac).
  rewrite (get2_map2d _ ezero ezero (n := (n - 2)%nat) (m := (m - 2)%nat))
    by (try lia; shape_tac).
  rewrite !(get2_interior_slices Hfield) by lia.
  stencil_eq.
Qed.
End Stencils.

Arguments shaped_partial_derivative_x {E _ n m field} Hfield.
Arguments shaped_partial_derivative_y {E _ n m field} Hfield.
Arguments shaped_laplace {E _ n m field} Hfield.
Arguments get2_partial_derivative_x {E _ n m field} Hfield {i j}.
Arguments get2_partial_derivative_y {E _ n m field} Hfield {i j}.
Arguments get2_laplace {E _ n m field} Hfield {i j}.

Lemma element_length_value : element_length = 0.025.
Proof.
  unfold element_length, DOMAIN_SIZE, N_POINTS.
  replace (INR 41) with 41 by (simpl; lra). lra.
Qed.

(** C3.  At every interior point of a scalar field the three operators are
    the central-difference and five-point stencils over the uniform spacing
    [h = element_length = DOMAIN_SIZE / (N_POINTS - 1)]:
    [partial_x(f)[i,j] = (f[i+1,j] - f[i-1,j]) / (2h)],
    [partial_y(f)[i,j] = (f[i,j+1] - f[i,j-1]) / (2h)] and
    [laplacian(f)[i,j] = (f[i-1,j] + f[i,j-1] - 4 f[i,j] + f[i+1,j] + f[i,j+1]) / h^2]. *)
Theorem stencils_at_interior_points
  (n m : nat) (f : list (list R)) (i j : nat) :
  shaped n m f ->
  (1 <= i <= n - 2)%nat -> (1 <= j <= m - 2)%nat ->
  let h := DOMAIN_SIZE / (INR N_POINTS - 1) in
  get2 0 (partial_derivative_x f) i j
    = (get2 0 f (i + 1) j - get2 0 f (i - 1) j) / (2 * h)
  /\ get2 0 (partial_derivative_y f) i j
    = (get2 0 f i (j + 1) - get2 0 f i (j - 1)) / (2 * h)
  /\ get2 0 (laplace f) i j
    = (get2 0 f (i - 1) j + get2 0 f i (j - 1) - 4 * get2 0 f i j
       + get2 0 f (i + 1) j + get2 0 f i (j + 1)) / h ^ 2.
Proof.
  intros Hf Hi Hj h.
  assert (Hint : interior n m i j = true) by (apply interior_true; lia).
  pose proof (get2_partial_derivative_x Hf (i := i) (j := j)) as Hx.
  pose proof (get2_partial_derivative_y Hf (i := i) (j := j)) as Hy.
  pose proof (get2_laplace Hf (i := i) (j := j)) as Hl.
  rewrite Hint in Hx, Hy, Hl.
  repeat split; [apply Hx | apply Hy | apply Hl]; lia.
Qed.

Lemma stencils_at_interior_points_witness :
  let f := [[1; 2; 3]; [4; 5; 6]; [7; 8; 10]] in
  let h := DOMAIN_SIZE / (INR N_POINTS - 1) in
  get2 0 (partial_derivative_x f) 1 1 = (get2 0 f 2 1 - get2 0 f 0 1) / (2 * h)
  /\ get2 0 (partial_derivative_y f) 1 1
     = (get2 0 f 1 2 - get2 0 f 1 0) / (2 * h)
  /\ get2 0 (laplace f) 1 1
     = (get2 0 f 0 1 + get2 0 f 1 0 - 4 * get2 0 f 1 1
        + get2 0 f 2 1 + get2 0 f 1 2) / h ^ 2.
Proof.
  apply (stencils_at_interior_points 3 3
           [[1; 2; 3]; [4; 5; 6]; [7; 8; 10]] 1 1).
  - reflexivity.
  - simpl; lia.
  - simpl; lia.
Defined.

Section BoundaryZero.
Context {E : Type} `{Elem E}.
Variables (n m : nat) (i j : nat).
Hypotheses (Hi : (i < n)%nat) (Hj : (j < m)%nat).
Hypothesis Hb : on_boundary n m i j.

Lemma partial_derivative_x_boundary (f : list (list E)) :
  shaped n m f -> get2 ezero (partial_derivative_x f) i j = ezero.
Proof.
  intros Hf. rewrite (get2_partial_derivative_x Hf Hi Hj).
  now rewrite (proj2 (interior_false Hi Hj) Hb).
Qed.

Lemma partial_derivative_y_boundary (f : list (list E)) :
  shaped n m f -> get2 ezero (partial_derivative_y f) i j = ezero.
Proof.
  intros Hf. rewrite (get2_partial_derivative_y Hf Hi Hj).
  now rewrite (proj2 (interior_false Hi Hj) Hb).
Qed.

Lemma laplace_boundary (f : list (list E)) :
  shaped n m f -> get2 ezero (laplace f) i j = ezero.
Proof.
  intros Hf. rewrite (get2_laplace Hf Hi Hj).
  now rewrite (proj2 (interior_false Hi Hj) Hb).
Qed.
End BoundaryZero.

Arguments partial_derivative_x_boundary {E _ n m i j} Hi Hj Hb {f} _.
Arguments partial_derivative_y_boundary {E _ n m i j} Hi Hj Hb {f} _.
Arguments laplace_boundary {E _ n m i j} Hi Hj Hb {f} _.

(** *** Composite operators, entry by entry *)

Section Composite.
Context {E : Type} `{Elem E}.
Variables (n m : nat).

Lemma shaped_gradient (f : list (list E)) :
  shaped n m f -> shaped n m (gradient f).
Proof.
  intros Hf. unfold gradient.
  apply shaped_zip2d;
    [apply (shaped_partial_derivative_x Hf)
    |apply (shaped_partial_derivative_y Hf)].
Qed.

Lemma get2_gradient (f : list (list E)) (i j : nat) :
  shaped n m f -> (i < n)%nat -> (j < m)%nat ->
  get2 ezero (gradient f) i j
  = (get2 ezero (partial_derivative_x f) i j,
     get2 ezero (partial_derivative_y f) i j).
Proof.
  intros Hf Hi Hj. unfold gradient.
  apply (get2_zip2d pair ezero ezero ezero
           (shaped_partial_derivative_x Hf) (shaped_partial_derivative_y Hf)
           Hi Hj).
Qed.

Lemma shaped_divergence (v : list (list (E * E))) :
  shaped n m v -> shaped n m (divergence v).
Proof.
  intros Hv. unfold divergence.
  apply shaped_zip2d;
    [apply shaped_partial_derivative_x|apply shaped_partial_derivative_y];
    now apply shaped_map2d.
Qed.

Lemma get2_divergence (v : list (list (E * E))) (i j : nat) :
  shaped n m v -> (i < n)%nat -> (j < m)%nat ->
  get2 ezero (divergence v) i j
  = eadd (get2 ezero (partial_derivative_x (map2d fst v)) i j)
         (get2 ezero (partial_derivative_y (map2d snd v)) i j).
Proof.
  intros Hv Hi Hj. unfold divergence.
  apply get2_zip2d with (n := n) (m := m); auto;
    [apply shaped_partial_derivative_x|apply shaped_partial_derivative_y];
    now apply shaped_map2d.
Qed.

Lemma shaped_curl_2d (v : list (list (E * E))) :
  shaped n m v -> shaped n m (curl_2d v).
Proof.
  intros Hv. unfold curl_2d.
  apply shaped_zip2d;
    [apply shaped_partial_derivative_x|apply shaped_partial_derivative_y];
    now apply shaped_map2d.
Qed.

Lemma get2_curl_2d (v : list (list (E * E))) (i j : nat) :
  shaped n m v -> (i < n)%nat -> (j < m)%nat ->
  get2 ezero (curl_2d v) i j
  = esub (get2 ezero (partial_derivative_x (map2d snd v)) i j)
         (get2 ezero (partial_derivative_y (map2d fst v)) i j).
Proof.
  intros Hv Hi Hj. unfold curl_2d.
  apply get2_zip2d with (n := n) (m := m); auto;
    [apply shaped_partial_derivative_x|apply shaped_partial_derivative_y];
    now apply shaped_map2d.
Qed.
End Composite.

Arguments shaped_gradient {E _ n m f} _.
Arguments get2_gradient {E _ n m f i j} _ _ _.
Arguments shaped_divergence {E _ n m v} _.
Arguments get2_divergence {E _ n m v i j} _ _ _.
Arguments shaped_curl_2d {E _ n m v} _.
Arguments get2_curl_2d {E _ n m v i j} _ _ _.

(** C4.  Whatever the entries of the input are (scalars, or vectors along a
    trailing axis), each of the six differential operators returns exactly
    zero at every entry of the first and last row and column; only the
    interior [[1, n-2] x [1, m-2]] is computed. *)
Theorem operators_zero_on_boundary
  (E : Type) (EE : Elem E) (n m : nat)
  (f : list (list E)) (v : list (list (E * E))) (i j : nat) :
  shaped n m f -> shaped n m v ->
  (i < n)%nat -> (j < m)%nat -> on_boundary n m i j ->
  get2 ezero (partial_derivative_x f) i j = ezero
  /\ get2 ezero (partial_derivative_y f) i j = ezero
  /\ get2 ezero (laplace f) i j = ezero
  /\ get2 ezero (gradient f) i j = (ezero, ezero)
  /\ get2 ezero (divergence v) i j = ezero
  /\ get2 ezero (curl_2d v) i j = ezero.
Proof.
  intros Hf Hv Hi Hj Hb.
  pose proof (shaped_map2d fst _ _ _ Hv) as Hv0.
  pose proof (shaped_map2d snd _ _ _ Hv) as Hv1.
  repeat split.
  - apply (partial_derivative_x_boundary Hi Hj Hb Hf).
  - apply (partial_derivative_y_boundary Hi Hj Hb Hf).
  - apply (laplace_boundary Hi Hj Hb Hf).
  - rewrite (get2_gradient Hf Hi Hj).
    now rewrite (partial_derivative_x_boundary Hi Hj Hb Hf),
      (partial_derivative_y_boundary Hi Hj Hb Hf).
  - rewrite (get2_divergence Hv Hi Hj).
    rewrite (partial_derivative_x_boundary Hi Hj Hb Hv0),
      (partial_derivative_y_boundary Hi Hj Hb Hv1).
    apply eadd_0_l.
  - rewrite (get2_curl_2d Hv Hi Hj).
    rewrite (partial_derivative_x_boundary Hi Hj Hb Hv1),
      (partial_derivative_y_boundary Hi Hj Hb Hv0).
    apply esub_diag.
Qed.

Lemma operators_zero_on_boundary_witness :
  let f := [[1; 2; 3]; [4; 5; 6]; [7; 8; 10]] in
  let v := [[(1, 2); (3, 4); (5, 6)];
            [(7, 8); (9, 1); (2, 3)];
            [(4, 5); (6, 7); (8, 9)]] in
  get2 0 (partial_derivative_x f) 2 1 = 0
  /\ get2 0 (partial_derivative_y f) 2 1 = 0
  /\ get2 0 (laplace f) 2 1 = 0
  /\ get2 (0, 0) (gradient f) 2 1 = (0, 0)
  /\ get2 0 (divergence v) 2 1 = 0
  /\ get2 0 (curl_2d v) 2 1 = 0.
Proof.
  apply (operators_zero_on_boundary R Elem_R 3 3
           [[1; 2; 3]; [4; 5; 6]; [7; 8; 10]]
           [[(1, 2); (3, 4); (5, 6)];
            [(7, 8); (9, 1); (2, 3)];
            [(4, 5); (6, 7); (8, 9)]] 2 1).
  - reflexivity.
  - reflexivity.
  - lia.
  - lia.
  - unfold on_boundary. simpl. lia.
Defined.

(** ** Constant fields and linearity *)

Lemma shaped_lincomb {E : Type} `{Elem E} (n m : nat) (a b : R)
  (f g : list (list E)) :
  shaped n m f -> shaped n m g -> shaped n m (lincomb a f b g).
Proof. intros Hf Hg. unfold lincomb. shape_tac. Qed.

Lemma get2_lincomb {E : Type} `{Elem E} {n m : nat} (a b : R)
  {f g : list (list E)} {i j : nat} :
  shaped n m f -> shaped n m g -> (i < n)%nat -> (j < m)%nat ->
  get2 ezero (lincomb a f b g) i j
  = eadd (escale a (get2 ezero f i j)) (escale b (get2 ezero g i j)).
Proof.
  intros Hf Hg Hi Hj. unfold lincomb.
  rewrite (get2_zip2d eadd ezero ezero ezero
             (shaped_map2d _ _ _ _ Hf) (shaped_map2d _ _ _ _ Hg) Hi Hj).
  now rewrite !(get2_map2d _ ezero ezero (n := n) (m := m)).
Qed.

Lemma map2d_fst_lincomb {E : Type} `{Elem E} (n m : nat) (a b : R)
  (v w : list (list (E * E))) :
  shaped n m v -> shaped n m w ->
  map2d fst (lincomb a v b w) = lincomb a (map2d fst v) b (map2d fst w).
Proof.
  intros Hv Hw.
  apply (array_ext ezero (n := n) (m := m)).
  - apply shaped_map2d. now apply shaped_lincomb.
  - apply shaped_lincomb; now apply shaped_map2d.
  - intros i j Hi Hj.
    rewrite (get2_map2d fst ezero ezero (shaped_lincomb _ _ a b _ _ Hv Hw) Hi Hj).
    rewrite (get2_lincomb a b Hv Hw Hi Hj).
    rewrite (get2_lincomb a b (shaped_map2d fst _ _ _ Hv)
               (shaped_map2d fst _ _ _ Hw) Hi Hj).
    now rewrite !(get2_map2d fst ezero ezero (n := n) (m := m)).
Qed.

Lemma map2d_snd_lincomb {E : Type} `{Elem E} (n m : nat) (a b : R)
  (v w : list (list (E * E))) :
  shaped n m v -> shaped n m w ->
  map2d snd (lincomb a v b w) = lincomb a (map2d snd v) b (map2d snd w).
Proof.
  intros Hv Hw.
  apply (array_ext ezero (n := n) (m := m)).
  - apply shaped_map2d. now apply shaped_lincomb.
  - apply shaped_lincomb; now apply shaped_map2d.
  - intros i j Hi Hj.
    rewrite (get2_map2d snd ezero ezero (shaped_lincomb _ _ a b _ _ Hv Hw) Hi Hj).
    rewrite (get2_lincomb a b Hv Hw Hi Hj).
    rewrite (get2_lincomb a b (shaped_map2d snd _ _ _ Hv)
               (shaped_map2d snd _ _ _ Hw) Hi Hj).
    now rewrite !(get2_map2d snd ezero ezero (n := n) (m := m)).
Qed.

Section Linearity.
Variables (n m : nat) (a b : R) (f g : list (list R)).
Hypotheses (Hf : shaped n m f) (Hg : shaped n m g).

Let Hfg : shaped n m (lincomb a f b g) := shaped_lincomb n m a b f g Hf Hg.

Ltac linear_stencil op getter :=
  apply (array_ext (@ezero R _) (n := n) (m := m));
  [ shape_tac
  | apply shaped_lincomb; shape_tac
  | intros i j Hi Hj;
    rewrite (getter _ _ _ _ _ Hfg _ _ Hi Hj);
    rewrite (get2_lincomb a b (n := n) (m := m) (f := op f) (g := op g)
               (i := i) (j := j))
      by (auto; shape_tac);
    rewrite (getter _ _ _ _ _ Hf _ _ Hi Hj), (getter _ _ _ _ _ Hg _ _ Hi Hj);
    destruct (interior n m i j) eqn:Hint;
    [ apply interior_true in Hint;
      rewrite !(get2_lincomb a b Hf Hg) by lia;
      simpl; unfold Rdiv; ring
    | simpl; ring ] ].

Lemma partial_derivative_x_linear :
  partial_derivative_x (lincomb a f b g)
  = lincomb a (partial_derivative_x f) b (partial_derivative_x g).
Proof.
  linear_stencil (@partial_derivative_x R _) (@get2_partial_derivative_x).
Qed.

Lemma partial_derivative_y_linear :
  partial_derivative_y (lincomb a f b g)
  = lincomb a (partial_derivative_y f) b (partial_derivative_y g).
Proof.
  linear_stencil (@partial_derivative_y R _) (@get2_partial_derivative_y).
Qed.

Lemma laplace_linear :
  laplace (lincomb a f b g) = lincomb a (laplace f) b (laplace g).
Proof.
  linear_stencil (@laplace R _) (@get2_laplace).
Qed.

Lemma gradient_linear :
  gradient (lincomb a f b g) = lincomb a (gradient f) b (gradient g).
Proof.
  unfold gradient.
  rewrite partial_derivative_x_linear, partial_derivative_y_linear.
  pose proof (shaped_partial_derivative_x Hf) as Hxf.
  pose proof (shaped_partial_derivative_x Hg) as Hxg.
  pose proof (shaped_partial_derivative_y Hf) as Hyf.
  pose proof (shaped_partial_derivative_y Hg) as Hyg.
  apply (array_ext (@ezero (R * R) _) (n := n) (m := m)).
  - apply shaped_zip2d; now apply shaped_lincomb.
  - apply shaped_lincomb; now apply shaped_zip2d.
  - intros i j Hi Hj.
    rewrite (get2_zip2d pair ezero ezero ezero
               (shaped_lincomb _ _ a b _ _ Hxf Hxg)
               (shaped_lincomb _ _ a b _ _ Hyf Hyg) Hi Hj).
    rewrite (get2_lincomb a b (shaped_zip2d pair _ _ _ _ Hxf Hyf)
               (shaped_zip2d pair _ _ _ _ Hxg Hyg) Hi Hj).
    rewrite !(get2_zip2d pair ezero ezero ezero (n := n) (m := m)) by auto.
    now rewrite (get2_lincomb a b Hxf Hxg Hi Hj),
      (get2_lincomb a b Hyf Hyg Hi Hj).
Qed.
End Linearity.

Section VectorLinearity.
Variables (n m : nat) (a b : R) (v w : list (list (R * R))).
Hypotheses (Hv : shaped n m v) (Hw : shaped n m w).

Let Hv0 := shaped_map2d fst n m v Hv.
Let Hv1 := shaped_map2d snd n m v Hv.
Let Hw0 := shaped_map2d fst n m w Hw.
Let Hw1 := shaped_map2d snd n m w Hw.

Lemma divergence_linear :
  divergence (lincomb a v b w)
  = lincomb a (divergence v) b (divergence w).
Proof.
  unfold divergence.
  rewrite (map2d_fst_lincomb n m a b v w Hv Hw),
    (map2d_snd_lincomb n m a b v w Hv Hw).
  rewrite (partial_derivative_x_linear n m a b _ _ Hv0 Hw0),
    (partial_derivative_y_linear n m a b _ _ Hv1 Hw1).
  pose proof (shaped_partial_derivative_x Hv0) as Hxv.
  pose proof (shaped_partial_derivative_x Hw0) as Hxw.
  pose proof (shaped_partial_derivative_y Hv1) as Hyv.
  pose proof (shaped_partial_derivative_y Hw1) as Hyw.
  apply (array_ext (@ezero R _) (n := n) (m := m)).
  - apply shaped_zip2d; now apply shaped_lincomb.
  - apply shaped_lincomb; now apply shaped_zip2d.
  - intros i j Hi Hj.
    rewrite (get2_zip2d eadd ezero ezero ezero
               (shaped_lincomb _ _ a b _ _ Hxv Hxw)
               (shaped_lincomb _ _ a b _ _ Hyv Hyw) Hi Hj).
    rewrite (get2_lincomb a b (shaped_zip2d eadd _ _ _ _ Hxv Hyv)
               (shaped_zip2d eadd _ _ _ _ Hxw Hyw) Hi Hj).
    rewrite !(get2_zip2d eadd ezero ezero ezero (n := n) (m := m)) by auto.
    rewrite (get2_lincomb a b Hxv Hxw Hi Hj), (get2_lincomb a b Hyv Hyw Hi Hj).
    simpl. ring.
Qed.

Lemma curl_2d_linear :
  curl_2d (lincomb a v b w) = lincomb a (curl_2d v) b (curl_2d w).
Proof.
  unfold curl_2d.
  rewrite (map2d_fst_lincomb n m a b v w Hv Hw),
    (map2d_snd_lincomb n m a b v w Hv Hw).
  rewrite (partial_derivative_x_linear n m a b _ _ Hv1 Hw1),
    (partial_derivative_y_linear n m a b _ _ Hv0 Hw0).
  pose proof (shaped_partial_derivative_x Hv1) as Hxv.
  pose proof (shaped_partial_derivative_x Hw1) as Hxw.
  pose proof (shaped_partial_derivative_y Hv0) as Hyv.
  pose proof (shaped_partial_derivative_y Hw0) as Hyw.
  apply (array_ext (@ezero R _) (n := n) (m := m)).
  - apply shaped_zip2d; now apply shaped_lincomb.
  - apply shaped_lincomb; now apply shaped_zip2d.
  - intros i j Hi Hj.
    rewrite (get2_zip2d esub ezero ezero ezero
               (shaped_lincomb _ _ a b _ _ Hxv Hxw)
               (shaped_lincomb _ _ a b _ _ Hyv Hyw) Hi Hj).
    rewrite (get2_lincomb a b (shaped_zip2d esub _ _ _ _ Hxv Hyv)
               (shaped_zip2d esub _ _ _ _ Hxw Hyw) Hi Hj).
    rewrite !(get2_zip2d esub ezero ezero ezero (n := n) (m := m)) by auto.
    rewrite (get2_lincomb a b Hxv Hxw Hi Hj), (get2_lincomb a b Hyv Hyw Hi Hj).
    simpl. ring.
Qed.
End VectorLinearity.

Section ConstantFields.
Variables (n m : nat).

Lemma map2d_constant_field {A B : Type} (h : A -> B) (c : A) :
  map2d h (constant_field n m c) = constant_field n m (h c).
Proof.
  unfold map2d, constant_field. now rewrite !map_repeat.
Qed.

Lemma partial_derivative_x_constant (c : R) (i j : nat) :
  (i < n)%nat -> (j < m)%nat ->
  get2 0 (partial_derivative_x (constant_field n m c)) i j = 0.
Proof.
  intros Hi Hj.
  pose proof (get2_partial_derivative_x (shaped_repeat n m c) Hi Hj) as Hx.
  unfold constant_field. simpl in Hx. rewrite Hx.
  destruct (interior n m i j) eqn:Hint; auto.
  apply interior_true in Hint.
  rewrite !get2_repeat by lia. unfold Rdiv. ring.
Qed.

Lemma partial_derivative_y_constant (c : R) (i j : nat) :
  (i < n)%nat -> (j < m)%nat ->
  get2 0 (partial_derivative_y (constant_field n m c)) i j = 0.
Proof.
  intros Hi Hj.
  pose proof (get2_partial_derivative_y (shaped_repeat n m c) Hi Hj) as Hy.
  unfold constant_field. simpl in Hy. rewrite Hy.
  destruct (interior n m i j) eqn:Hint; auto.
  apply interior_true in Hint.
  rewrite !get2_repeat by lia. unfold Rdiv. ring.
Qed.

Lemma laplace_constant (c : R) (i j : nat) :
  (i < n)%nat -> (j < m)%nat ->
  get2 0 (laplace (constant_field n m c)) i j = 0.
Proof.
  intros Hi Hj.
  pose proof (get2_laplace (shaped_repeat n m c) Hi Hj) as Hl.
  unfold constant_field. simpl in Hl. rewrite Hl.
  destruct (interior n m i j) eqn:Hint; auto.
  apply interior_true in Hint.
  rewrite !get2_repeat by lia. unfold Rdiv. ring.
Qed.

Lemma gradient_constant (c : R) (i j : nat) :
  (i < n)%nat -> (j < m)%nat ->
  get2 (0, 0) (gradient (constant_field n m c)) i j = (0, 0).
Proof.
  intros Hi Hj.
  pose proof (get2_gradient (shaped_repeat n m c) Hi Hj) as Hgr.
  simpl in Hgr. unfold constant_field at 1. rewrite Hgr.
  fold (constant_field n m c).
  now rewrite partial_derivative_x_constant, partial_derivative_y_constant.
Qed.

Lemma divergence_constant (c : R * R) (i j : nat) :
  (i < n)%nat -> (j < m)%nat ->
  get2 0 (divergence (constant_field n m c)) i j = 0.
Proof.
  intros Hi Hj.
  pose proof (get2_divergence (shaped_repeat n m c) Hi Hj) as Hd.
  simpl in Hd. unfold constant_field at 1. rewrite Hd.
  fold (constant_field n m c). rewrite !map2d_constant_field.
  rewrite partial_derivative_x_constant, partial_derivative_y_constant; auto.
  ring.
Qed.

Lemma curl_2d_constant (c : R * R) (i j : nat) :
  (i < n)%nat -> (j < m)%nat ->
  get2 0 (curl_2d (constant_field n m c)) i j = 0.
Proof.
  intros Hi Hj.
  pose proof (get2_curl_2d (shaped_repeat n m c) Hi Hj) as Hd.
  simpl in Hd. unfold constant_field at 1. rewrite Hd.
  fold (constant_field n m c). rewrite !map2d_constant_field.
  rewrite partial_derivative_x_constant, partial_derivative_y_constant; auto.
  ring.
Qed.

(** An operator that vanishes entry by entry on the zero field returns the
    zero field. *)
Lemma zero_field_image {E : Type} `{Elem E} (a : list (list E)) :
  shaped n m a ->
  (forall i j, (i < n)%nat -> (j < m)%nat -> get2 ezero a i j = ezero) ->
  a = zeros n m.
Proof.
  intros Ha Hz. apply (array_ext ezero Ha (shaped_repeat n m ezero)).
  intros i j Hi Hj. unfold zeros. rewrite get2_repeat; auto.
Qed.
End ConstantFields.

(** C5.  On a uniformly constant field (zero included) the gradient, the
    divergence (of a uniformly constant vector field) and the Laplacian are
    exactly zero at every interior point; every operator is linear, and maps
    the uniformly zero field to the uniformly zero field. *)
Theorem constant_fields_vanish_and_operators_are_linear
  (n m : nat) (c : R) (cv : R * R) (a b : R)
  (f g : list (list R)) (v w : list (list (R * R))) (i j : nat) :
  shaped n m f -> shaped n m g -> shaped n m v -> shaped n m w ->
  (1 <= i <= n - 2)%nat -> (1 <= j <= m - 2)%nat ->
  (get2 (0, 0) (gradient (constant_field n m c)) i j = (0, 0)
   /\ get2 0 (divergence (constant_field n m cv)) i j = 0
   /\ get2 0 (laplace (constant_field n m c)) i j = 0)
  /\ (partial_derivative_x (lincomb a f b g)
        = lincomb a (partial_derivative_x f) b (partial_derivative_x g)
      /\ partial_derivative_y (lincomb a f b g)
        = lincomb a (partial_derivative_y f) b (partial_derivative_y g)
      /\ laplace (lincomb a f b g) = lincomb a (laplace f) b (laplace g)
      /\ gradient (lincomb a f b g) = lincomb a (gradient f) b (gradient g)
      /\ divergence (lincomb a v b w)
        = lincomb a (divergence v) b (divergence w)
      /\ curl_2d (lincomb a v b w) = lincomb a (curl_2d v) b (curl_2d w))
  /\ (partial_derivative_x (zeros n m) = zeros (E := R) n m
      /\ partial_derivative_y (zeros n m) = zeros (E := R) n m
      /\ laplace (zeros n m) = zeros (E := R) n m
      /\ gradient (zeros (E := R) n m) = zeros n m
      /\ divergence (zeros n m) = zeros (E := R) n m
      /\ curl_2d (zeros n m) = zeros (E := R) n m).
Proof.
  intros Hf Hg Hv Hw Hi Hj.
  assert (Hin : (i < n)%nat) by lia.
  assert (Hjm : (j < m)%nat) by lia.
  split; [|split].
  - repeat split.
    + now apply gradient_constant.
    + now apply divergence_constant.
    + now apply laplace_constant.
  - repeat split.
    + now apply partial_derivative_x_linear with (n := n) (m := m).
    + now apply partial_derivative_y_linear with (n := n) (m := m).
    + now apply laplace_linear with (n := n) (m := m).
    + now apply gradient_linear with (n := n) (m := m).
    + now apply divergence_linear with (n := n) (m := m).
    + now apply curl_2d_linear with (n := n) (m := m).
  - pose proof (shaped_repeat n m (@ezero R _)) as Hz.
    pose proof (shaped_repeat n m (@ezero (R * R) _)) as Hzv.
    repeat split; apply zero_field_image.
    + apply (shaped_partial_derivative_x Hz).
    + intros. now apply (partial_derivative_x_constant n m 0).
    + apply (shaped_partial_derivative_y Hz).
    + intros. now apply (partial_derivative_y_constant n m 0).
    + apply (shaped_laplace Hz).
    + intros. now apply (laplace_constant n m 0).
    + apply (shaped_gradient Hz).
    + intros. now apply (gradient_constant n m 0).
    + apply (shaped_divergence Hzv).
    + intros. now apply (divergence_constant n m (0, 0)).
    + apply (shaped_curl_2d Hzv).
    + intros. now apply (curl_2d_constant n m (0, 0)).
Qed.

Lemma constant_fields_vanish_and_operators_are_linear_witness :
  let f := [[1; 2; 3]; [4; 5; 6]; [7; 8; 10]] in
  let g := [[0; 1; 0]; [2; 0; 2]; [0; 3; 0]] in
  let v := [[(1, 2); (3, 4); (5, 6)];
            [(7, 8); (9, 1); (2, 3)];
            [(4, 5); (6, 7); (8, 9)]] in
  (get2 (0, 0) (gradient (constant_field 3 3 7)) 1 1 = (0, 0)
   /\ get2 0 (divergence (constant_field 3 3 (7, 5))) 1 1 = 0
   /\ get2 0 (laplace (constant_field 3 3 7)) 1 1 = 0)
  /\ (partial_derivative_x (lincomb 2 f 3 g)
        = lincomb 2 (partial_derivative_x f) 3 (partial_derivative_x g)
      /\ partial_derivative_y (lincomb 2 f 3 g)
        = lincomb 2 (partial_derivative_y f) 3 (partial_derivative_y g)
      /\ laplace (lincomb 2 f 3 g) = lincomb 2 (laplace f) 3 (laplace g)
      /\ gradient (lincomb 2 f 3 g) = lincomb 2 (gradient f) 3 (gradient g)
      /\ divergence (lincomb 2 v 3 v)
        = lincomb 2 (divergence v) 3 (divergence v)
      /\ curl_2d (lincomb 2 v 3 v) = lincomb 2 (curl_2d v) 3 (curl_2d v))
  /\ (partial_derivative_x (zeros 3 3) = zeros (E := R) 3 3
      /\ partial_derivative_y (zeros 3 3) = zeros (E := R) 3 3
      /\ laplace (zeros 3 3) = zeros (E := R) 3 3
      /\ gradient (zeros (E := R) 3 3) = zeros 3 3
      /\ divergence (zeros 3 3) = zeros (E := R) 3 3
      /\ curl_2d (zeros 3 3) = zeros (E := R) 3 3).
Proof.
  apply (constant_fields_vanish_and_operators_are_linear 3 3 7 (7, 5) 2 3
           [[1; 2; 3]; [4; 5; 6]; [7; 8; 10]]
           [[0; 1; 0]; [2; 0; 2]; [0; 3; 0]]
           [[(1, 2); (3, 4); (5, 6)];
            [(7, 8); (9, 1); (2, 3)];
            [(4, 5); (6, 7); (8, 9)]]
           [[(1, 2); (3, 4); (5, 6)];
            [(7, 8); (9, 1); (2, 3)];
            [(4, 5); (6, 7); (8, 9)]] 1 1).
  - reflexivity.
  - reflexivity.
  - reflexivity.
  - reflexivity.
  - simpl; lia.
  - simpl; lia.
Defined.

(** ** Turbulence model *)

Section Turbulence.
Variables (n m : nat) (velocity_field : list (list (R * R))).
Hypothesis Hv : shaped n m velocity_field.
Variables (i j : nat).
Hypotheses (Hi : (i < n)%nat) (Hj : (j < m)%nat).

Let u := map2d fst velocity_field.
Let v := map2d snd velocity_field.
Let Hu : shaped n m u := shaped_map2d fst n m velocity_field Hv.
Let Hw : shaped n m v := shaped_map2d snd n m velocity_field Hv.

Lemma shaped_compute_strain_rate :
  shaped n m (compute_strain_rate velocity_field).
Proof.
  unfold compute_strain_rate. fold u v.
  pose proof (shaped_partial_derivative_x Hu).
  pose proof (shaped_partial_derivative_y Hu).
  pose proof (shaped_partial_derivative_x Hw).
  pose proof (shaped_partial_derivative_y Hw).
  shape_tac.
Qed.

Lemma get2_compute_strain_rate :
  get2 0 (compute_strain_rate velocity_field) i j =
  let S11 := get2 0 (partial_derivative_x u) i j in
  let S22 := get2 0 (partial_derivative_y v) i j in
  let S12 := 0.5 * (get2 0 (partial_derivative_y u) i j
                    + get2 0 (partial_derivative_x v) i j) in
  sqrt (2 * (S11 ^ 2 + S22 ^ 2 + 2 * S12 ^ 2)).
Proof.
  unfold compute_strain_rate. fold u v.
  pose proof (shaped_partial_derivative_x Hu) as Hxu.
  pose proof (shaped_partial_derivative_y Hu) as Hyu.
  pose proof (shaped_partial_derivative_x Hw) as Hxv.
  pose proof (shaped_partial_derivative_y Hw) as Hyv.
  repeat first
    [ rewrite (get2_map2d _ 0 0 (n := n) (m := m)) by (auto; shape_tac)
    | rewrite (get2_zip2d _ 0 0 0 (n := n) (m := m)) by (auto; shape_tac) ].
  reflexivity.
Qed.

Lemma shaped_compute_turbulent_viscosity :
  shaped n m (compute_turbulent_viscosity velocity_field).
Proof.
  unfold compute_turbulent_viscosity.
  apply shaped_map2d, shaped_compute_strain_rate.
Qed.

Lemma get2_compute_turbulent_viscosity :
  get2 0 (compute_turbulent_viscosity velocity_field) i j =
  (SMAGORINSKY_CONSTANT * element_length) ^ 2
  * get2 0 (compute_strain_rate velocity_field) i j.
Proof.
  unfold compute_turbulent_viscosity.
  now rewrite (get2_map2d _ 0 0 shaped_compute_strain_rate Hi Hj).
Qed.

Lemma shaped_effective_viscosity :
  shaped n m (effective_viscosity velocity_field).
Proof.
  unfold effective_viscosity.
  apply shaped_map2d, shaped_compute_turbulent_viscosity.
Qed.

Lemma get2_effective_viscosity :
  get2 0 (effective_viscosity velocity_field) i j =
  KINEMATIC_VISCOSITY + get2 0 (compute_turbulent_viscosity velocity_field) i j.
Proof.
  unfold effective_viscosity.
  now rewrite (get2_map2d _ 0 0 shaped_compute_turbulent_viscosity Hi Hj).
Qed.
End Turbulence.

Arguments shaped_compute_strain_rate {n m velocity_field} Hv.
Arguments get2_compute_strain_rate {n m velocity_field} Hv {i j} Hi Hj.
Arguments shaped_compute_turbulent_viscosity {n m velocity_field} Hv.
Arguments get2_compute_turbulent_viscosity {n m velocity_field} Hv {i j} Hi Hj.
Arguments shaped_effective_viscosity {n m velocity_field} Hv.
Arguments get2_effective_viscosity {n m velocity_field} Hv {i j} Hi Hj.

Lemma reshape_vector_Some (l : list R) (a : list (list (R * R))) :
  reshape_vector l = Some a ->
  length l = (N_POINTS * N_POINTS * 2)%nat
  /\ shaped N_POINTS N_POINTS a
  /\ forall i j, (i < N_POINTS)%nat -> (j < N_POINTS)%nat ->
       get2 (0, 0) a i j = (nth ((i * N_POINTS + j) * 2) l 0,
                            nth ((i * N_POINTS + j) * 2 + 1) l 0).
Proof.
  unfold reshape_vector.
  destruct (Nat.eqb_spec (length l) (N_POINTS * N_POINTS * 2)) as [Hl|Hl];
    [|discriminate].
  intros [= <-]. split; [exact Hl|split].
  - apply shaped_tabulate2.
  - intros i j Hi Hj. now rewrite get2_tabulate2.
Qed.

Lemma reshape_scalar_Some (l : list R) (a : list (list R)) :
  reshape_scalar l = Some a ->
  length l = (N_POINTS * N_POINTS)%nat
  /\ shaped N_POINTS N_POINTS a
  /\ forall i j, (i < N_POINTS)%nat -> (j < N_POINTS)%nat ->
       get2 0 a i j = nth (i * N_POINTS + j) l 0.
Proof.
  unfold reshape_scalar.
  destruct (Nat.eqb_spec (length l) (N_POINTS * N_POINTS)) as [Hl|Hl];
    [|discriminate].
  intros [= <-]. split; [exact Hl|split].
  - apply shaped_tabulate2.
  - intros i j Hi Hj. now rewrite get2_tabulate2.
Qed.

Section DiffusedComponent.
Variables (n m : nat) (effective component : list (list R)).
Hypotheses (He : shaped n m effective) (Hc : shaped n m component).

Lemma shaped_viscous_flux :
  shaped n m (zip2d (fun nu g => escale nu g) effective (gradient component)).
Proof. apply shaped_zip2d; auto. apply (shaped_gradient Hc). Qed.

Lemma get2_viscous_flux (i j : nat) :
  (i < n)%nat -> (j < m)%nat ->
  get2 (0, 0)
    (zip2d (fun nu g => escale nu g) effective (gradient component)) i j
  = (get2 0 effective i j * get2 0 (partial_derivative_x component) i j,
     get2 0 effective i j * get2 0 (partial_derivative_y component) i j).
Proof.
  intros Hi Hj.
  rewrite (get2_zip2d _ 0 (0, 0) (0, 0) He (shaped_gradient Hc) Hi Hj).
  pose proof (get2_gradient Hc Hi Hj) as Hgr. simpl in Hgr.
  now rewrite Hgr.
Qed.

Lemma shaped_diffused_component :
  shaped n m (diffused_component effective component).
Proof.
  unfold diffused_component. apply shaped_zip2d; auto.
  apply shaped_map2d, shaped_divergence, shaped_viscous_flux.
Qed.

Lemma get2_diffused_component (i j : nat) :
  (i < n)%nat -> (j < m)%nat ->
  get2 0 (diffused_component effective component) i j
  = get2 0 component i j
    - TIME_STEP_LENGTH
      * get2 0 (divergence
                  (zip2d (fun nu g => escale nu g) effective
                     (gradient component))) i j.
Proof.
  intros Hi Hj. unfold diffused_component.
  pose proof (shaped_divergence shaped_viscous_flux) as Hd.
  rewrite (get2_zip2d Rminus 0 0 0 Hc (shaped_map2d _ _ _ _ Hd) Hi Hj).
  now rewrite (get2_map2d _ 0 0 Hd Hi Hj).
Qed.
End DiffusedComponent.

Arguments shaped_viscous_flux {n m effective component} He Hc.
Arguments get2_viscous_flux {n m effective component} He Hc {i j} _ _.
Arguments shaped_diffused_component {n m effective component} He Hc.
Arguments get2_diffused_component {n m effective component} He Hc {i j} _ _.

(** The array that [diffusion_operator_turbulent] flattens. *)
Lemma diffusion_operator_turbulent_Some (flat : list R)
  (vector_field : list (list (R * R))) :
  reshape_vector flat = Some vector_field ->
  exists diffused,
    diffusion_operator_turbulent flat = Some (flatten_vector diffused)
    /\ shaped N_POINTS N_POINTS diffused
    /\ forall i j, (i < N_POINTS)%nat -> (j < N_POINTS)%nat ->
         get2 (0, 0) diffused i j
         = (get2 0 (diffused_component (effective_viscosity vector_field)
                      (map2d fst vector_field)) i j,
            get2 0 (diffused_component (effective_viscosity vector_field)
                      (map2d snd vector_field)) i j).
Proof.
  intros Hre. destruct (reshape_vector_Some _ _ Hre) as (_ & Hvf & _).
  unfold diffusion_operator_turbulent. rewrite Hre. simpl bind.
  pose proof (shaped_effective_viscosity Hvf) as He.
  pose proof (shaped_diffused_component He (shaped_map2d fst _ _ _ Hvf)) as H0.
  pose proof (shaped_diffused_component He (shaped_map2d snd _ _ _ Hvf)) as H1.
  pose proof (shaped_zeros_like _ _ _ Hvf) as Hz.
  pose proof (shaped_zip2d (fun (d : R * R) (c : R) => (c, snd d)) _ _ _ _ Hz H0)
    as Hd0.
  eexists. split; [reflexivity|]. split.
  - apply shaped_zip2d; auto.
  - intros i j Hi Hj.
    rewrite (get2_zip2d _ (0, 0) 0 (0, 0) Hd0 H1 Hi Hj).
    rewrite (get2_zip2d _ (0, 0) 0 (0, 0) Hz H0 Hi Hj).
    reflexivity.
Qed.

(** C8.  At every grid point the turbulence model computes
    [S11 = du/dx], [S22 = dv/dy], [S12 = (du/dy + dv/dx) / 2] from the
    central-difference partials, [|S| = sqrt(2 (S11^2 + S22^2 + 2 S12^2))] and
    [nu_t = (C_s h)^2 |S|] with [C_s = 0.1]; the turbulent diffusion operator
    works with [nu_eff = nu + nu_t] entry by entry: it returns, per velocity
    component [c], the flattened field [c - dt * div(nu_eff * grad c)]. *)
Theorem smagorinsky_viscosity_formulas
  (n m : nat) (velocity_field : list (list (R * R))) (i j : nat)
  (flat : list R) (w : list (list (R * R))) :
  shaped n m velocity_field -> (i < n)%nat -> (j < m)%nat ->
  reshape_vector flat = Some w ->
  let u := map2d fst velocity_field in
  let v := map2d snd velocity_field in
  let S11 := get2 0 (partial_derivative_x u) i j in
  let S22 := get2 0 (partial_derivative_y v) i j in
  let S12 := 0.5 * (get2 0 (partial_derivative_y u) i j
                    + get2 0 (partial_derivative_x v) i j) in
  let S := sqrt (2 * (S11 ^ 2 + S22 ^ 2 + 2 * S12 ^ 2)) in
  let nu_t := (0.1 * element_length) ^ 2 * S in
  let flux c := zip2d (fun nu g => escale nu g) (effective_viscosity w)
                  (gradient c) in
  (get2 0 (compute_strain_rate velocity_field) i j = S
   /\ get2 0 (compute_turbulent_viscosity velocity_field) i j = nu_t
   /\ get2 0 (effective_viscosity velocity_field) i j
      = KINEMATIC_VISCOSITY + nu_t)
  /\ exists diffused,
       diffusion_operator_turbulent flat = Some (flatten_vector diffused)
       /\ forall k l, (k < N_POINTS)%nat -> (l < N_POINTS)%nat ->
            get2 (0, 0) diffused k l
            = (get2 0 (map2d fst w) k l
               - TIME_STEP_LENGTH * get2 0 (divergence (flux (map2d fst w))) k l,
               get2 0 (map2d snd w) k l
               - TIME_STEP_LENGTH * get2 0 (divergence (flux (map2d snd w))) k l)
            /\ get2 (0, 0) (flux (map2d fst w)) k l
               = (get2 0 (effective_viscosity w) k l
                  * get2 0 (partial_derivative_x (map2d fst w)) k l,
                  get2 0 (effective_viscosity w) k l
                  * get2 0 (partial_derivative_y (map2d fst w)) k l)
            /\ get2 (0, 0) (flux (map2d snd w)) k l
               = (get2 0 (effective_viscosity w) k l
                  * get2 0 (partial_derivative_x (map2d snd w)) k l,
                  get2 0 (effective_viscosity w) k l
                  * get2 0 (partial_derivative_y (map2d snd w)) k l).
Proof.
  intros Hv Hi Hj Hre u v S11 S22 S12 S nu_t flux.
  split.
  - rewrite (get2_effective_viscosity Hv Hi Hj),
      (get2_compute_turbulent_viscosity Hv Hi Hj),
      (get2_compute_strain_rate Hv Hi Hj).
    repeat split.
  - destruct (reshape_vector_Some _ _ Hre) as (_ & Hw & _).
    destruct (diffusion_operator_turbulent_Some _ _ Hre) as (d & Hd & _ & Hget).
    exists d. split; [exact Hd|].
    intros k l Hk Hl.
    pose proof (shaped_effective_viscosity Hw) as He.
    pose proof (shaped_map2d fst _ _ _ Hw) as H0.
    pose proof (shaped_map2d snd _ _ _ Hw) as H1.
    rewrite (Hget k l Hk Hl).
    rewrite (get2_diffused_component He H0 Hk Hl),
      (get2_diffused_component He H1 Hk Hl).
    repeat split.
    + apply (get2_viscous_flux He H0 Hk Hl).
    + apply (get2_viscous_flux He H1 Hk Hl).
Qed.

(** C10.  The turbulent viscosity is nonnegative at every grid point, so the
    effective viscosity of the turbulent diffusion operator is at least the
    molecular kinematic viscosity there. *)
Theorem turbulent_viscosity_nonnegative
  (n m : nat) (velocity_field : list (list (R * R))) (i j : nat) :
  shaped n m velocity_field -> (i < n)%nat -> (j < m)%nat ->
  0 <= get2 0 (compute_turbulent_viscosity velocity_field) i j
  /\ KINEMATIC_VISCOSITY <= get2 0 (effective_viscosity velocity_field) i j.
Proof.
  intros Hv Hi Hj.
  assert (Hnu : 0 <= get2 0 (compute_turbulent_viscosity velocity_field) i j).
  { rewrite (get2_compute_turbulent_viscosity Hv Hi Hj),
      (get2_compute_strain_rate Hv Hi Hj).
    apply Rmult_le_pos.
    - apply pow2_ge_0.
    - apply sqrt_pos. }
  split; [exact Hnu|].
  rewrite (get2_effective_viscosity Hv Hi Hj). lra.
Qed.

Lemma smagorinsky_viscosity_formulas_witness :
  let velocity_field := [[(1, 2); (3, 4); (5, 6)];
                         [(7, 8); (9, 1); (2, 3)];
                         [(4, 5); (6, 7); (8, 9)]] in
  let flat := repeat 1 (N_POINTS * N_POINTS * 2) in
  let u := map2d fst velocity_field in
  let v := map2d snd velocity_field in
  let S11 := get2 0 (partial_derivative_x u) 1 1 in
  let S22 := get2 0 (partial_derivative_y v) 1 1 in
  let S12 := 0.5 * (get2 0 (partial_derivative_y u) 1 1
                    + get2 0 (partial_derivative_x v) 1 1) in
  let S := sqrt (2 * (S11 ^ 2 + S22 ^ 2 + 2 * S12 ^ 2)) in
  let nu_t := (0.1 * element_length) ^ 2 * S in
  (get2 0 (compute_strain_rate velocity_field) 1 1 = S
   /\ get2 0 (compute_turbulent_viscosity velocity_field) 1 1 = nu_t
   /\ get2 0 (effective_viscosity velocity_field) 1 1
      = KINEMATIC_VISCOSITY + nu_t)
  /\ exists diffused,
       diffusion_operator_turbulent flat = Some (flatten_vector diffused).
Proof.
  intros velocity_field flat.
  destruct (smagorinsky_viscosity_formulas 3 3 velocity_field 1 1 flat
              (tabulate2 N_POINTS N_POINTS
                 (fun i j => (nth ((i * N_POINTS + j) * 2) flat 0,
                              nth ((i * N_POINTS + j) * 2 + 1) flat 0))))
    as [Hformulas (diffused & Hop & _)].
  - reflexivity.
  - lia.
  - lia.
  - unfold reshape_vector, flat.
    now rewrite repeat_length, Nat.eqb_refl.
  - split; [exact Hformulas|].
    exists diffused. exact Hop.
Defined.

Lemma turbulent_viscosity_nonnegative_witness :
  let velocity_field := [[(1, 2); (3, 4); (5, 6)];
                         [(7, 8); (9, 1); (2, 3)];
                         [(4, 5); (6, 7); (8, 9)]] in
  0 <= get2 0 (compute_turbulent_viscosity velocity_field) 1 1
  /\ KINEMATIC_VISCOSITY <= get2 0 (effective_viscosity velocity_field) 1 1.
Proof.
  apply (turbulent_viscosity_nonnegative 3 3
           [[(1, 2); (3, 4); (5, 6)];
            [(7, 8); (9, 1); (2, 3)];
            [(4, 5); (6, 7); (8, 9)]] 1 1).
  - reflexivity.
  - lia.
  - lia.
Defined.

(** ** The grid *)

Lemma length_linspace (start stop : R) (num : nat) :
  length (linspace start stop num) = num.
Proof. unfold linspace. now rewrite length_map, length_seq. Qed.

Lemma nth_linspace (start stop : R) (num i : nat) :
  (i < num)%nat ->
  nth i (linspace start stop num) 0
  = start + INR i * ((stop - start) / (INR num - 1)).
Proof.
  intros Hi. unfold linspace.
  rewrite (nth_map_in _ _ _ 0%nat) by (rewrite length_seq; lia).
  now rewrite seq_nth.
Qed.

Lemma length_x : length x = N_POINTS.
Proof. apply length_linspace. Qed.

Lemma length_y : length y = N_POINTS.
Proof. apply length_linspace. Qed.

Lemma nth_x (i : nat) :
  (i < N_POINTS)%nat -> nth i x 0 = INR i * element_length.
Proof.
  intros Hi. unfold x. rewrite nth_linspace by exact Hi.
  unfold element_length, DOMAIN_SIZE. lra.
Qed.

Lemma nth_y (j : nat) :
  (j < N_POINTS)%nat -> nth j y 0 = INR j * element_length.
Proof. apply nth_x. Qed.

Lemma shaped_X : shaped N_POINTS N_POINTS X.
Proof.
  unfold X. apply shaped_intro.
  - now rewrite length_map, length_x.
  - intros i Hi.
    rewrite (nth_map_in _ _ _ 0) by (rewrite length_x; lia).
    now rewrite length_map, length_y.
Qed.

Lemma shaped_Y : shaped N_POINTS N_POINTS Y.
Proof.
  unfold Y. apply shaped_intro.
  - now rewrite length_map, length_x.
  - intros i Hi.
    rewrite (nth_map_in _ _ _ 0) by (rewrite length_x; lia).
    apply length_y.
Qed.

Lemma get2_X (i j : nat) :
  (i < N_POINTS)%nat -> (j < N_POINTS)%nat -> get2 0 X i j = nth i x 0.
Proof.
  intros Hi Hj. unfold get2, X.
  rewrite (nth_map_in _ _ _ 0) by (rewrite length_x; lia).
  rewrite (nth_map_in _ _ _ 0) by (rewrite length_y; lia).
  reflexivity.
Qed.

Lemma get2_Y (i j : nat) :
  (i < N_POINTS)%nat -> (j < N_POINTS)%nat -> get2 0 Y i j = nth j y 0.
Proof.
  intros Hi Hj. unfold get2, Y.
  now rewrite (nth_map_in _ _ _ 0) by (rewrite length_x; lia).
Qed.

Lemma shaped_coordinates : shaped N_POINTS N_POINTS coordinates.
Proof. apply shaped_zip2d; [apply shaped_X|apply shaped_Y]. Qed.

Lemma get2_coordinates (i j : nat) :
  (i < N_POINTS)%nat -> (j < N_POINTS)%nat ->
  get2 (0, 0) coordinates i j = (nth i x 0, nth j y 0).
Proof.
  intros Hi Hj. unfold coordinates.
  rewrite (get2_zip2d pair 0 0 (0, 0) shaped_X shaped_Y Hi Hj).
  now rewrite get2_X, get2_Y.
Qed.

Lemma shaped_obstacle_mask : shaped N_POINTS N_POINTS obstacle_mask.
Proof. apply shaped_zip2d; [apply shaped_X|apply shaped_Y]. Qed.

(** ** Force injection *)

Lemma time_decay_at_first_step : Rmax (2.0 - 0.5 * 0.1) 0.0 = 1.95.
Proof. unfold Rmax. destruct (Rle_dec _ _); lra. Qed.

Lemma forcing_region_test (point : R * R) :
  (Rgtb (fst point) 0.4 && Rltb (fst point) 0.6
   && Rgtb (snd point) 0.1 && Rltb (snd point) 0.3 = true)
  <-> in_forcing_region point.
Proof.
  unfold in_forcing_region, Rgtb, Rltb.
  repeat destruct (Rgt_dec _ _); repeat destruct (Rlt_dec _ _); simpl;
    split; intros; try discriminate; try reflexivity; lra.
Qed.

Lemma forcing_function_inside (time : R) (point : R * R) :
  in_forcing_region point ->
  forcing_function time point = (0, Rmax (2.0 - 0.5 * time) 0.0).
Proof.
  intros Hin. unfold forcing_function.
  rewrite (proj2 (forcing_region_test point) Hin).
  simpl. f_equal; lra.
Qed.

Lemma forcing_function_outside (time : R) (point : R * R) :
  ~ in_forcing_region point -> forcing_function time point = (0, 0).
Proof.
  intros Hout. unfold forcing_function.
  destruct (Rgtb (fst point) 0.4 && Rltb (fst point) 0.6
            && Rgtb (snd point) 0.1 && Rltb (snd point) 0.3) eqn:Ht.
  - exfalso. now apply Hout, forcing_region_test.
  - simpl. f_equal; lra.
Qed.

Lemma shaped_velocities_forces_applied (n m : nat)
  (velocities forces external_forces : list (list (R * R))) :
  shaped n m velocities -> shaped n m forces -> shaped n m external_forces ->
  shaped n m (velocities_forces_applied velocities forces external_forces).
Proof. intros Hv Hf He. unfold velocities_forces_applied. shape_tac. Qed.

Lemma get2_velocities_forces_applied (n m : nat)
  (velocities forces external_forces : list (list (R * R))) (i j : nat) :
  shaped n m velocities -> shaped n m forces -> shaped n m external_forces ->
  (i < n)%nat -> (j < m)%nat ->
  get2 (0, 0) (velocities_forces_applied velocities forces external_forces) i j
  = eadd (get2 (0, 0) velocities i j)
      (escale TIME_STEP_LENGTH
         (eadd (get2 (0, 0) forces i j) (get2 (0, 0) external_forces i j))).
Proof.
  intros Hv Hf He Hi Hj. unfold velocities_forces_applied.
  rewrite (get2_zip2d _ (0, 0) (0, 0) (0, 0) (n := n) (m := m))
    by (auto; shape_tac).
  rewrite (get2_map2d _ (0, 0) (0, 0) (n := n) (m := m)) by (auto; shape_tac).
  now rewrite (get2_zip2d _ (0, 0) (0, 0) (0, 0) Hf He Hi Hj).
Qed.

(** C9.  At time [t = 0.1], the time of the first step, the decay factor is
    [max(2.0 - 0.5 t, 0) = 1.95]; the forcing function returns [(0, 1.95)]
    at every point strictly inside [x in (0.4, 0.6), y in (0.1, 0.3)] and
    [(0, 0)] at every other point; so after the force application of step 1,
    from zero velocity and with no other force, the y-velocity is nonzero
    only at the grid points inside that region, where it is [0.195] (and the
    x-velocity nowhere). *)
Theorem forcing_at_first_step
  (point : R * R) (external_forces : list (list (R * R))) (i j : nat) :
  external_forces = zeros N_POINTS N_POINTS ->
  (i < N_POINTS)%nat -> (j < N_POINTS)%nat ->
  let t := time_current initial_state + TIME_STEP_LENGTH in
  let forced :=
    velocities_forces_applied (velocities_prev initial_state)
      (forcing_function_vectorized t coordinates) external_forces in
  t = 0.1
  /\ Rmax (2.0 - 0.5 * t) 0.0 = 1.95
  /\ (in_forcing_region point -> forcing_function t point = (0, 1.95))
  /\ (~ in_forcing_region point -> forcing_function t point = (0, 0))
  /\ (snd (get2 (0, 0) forced i j) <> 0
      -> in_forcing_region (get2 (0, 0) coordinates i j))
  /\ (in_forcing_region (get2 (0, 0) coordinates i j)
      -> snd (get2 (0, 0) forced i j) = 0.195)
  /\ fst (get2 (0, 0) forced i j) = 0.
Proof.
  intros -> Hi Hj t forced.
  assert (Ht : t = 0.1) by (unfold t, initial_state, TIME_STEP_LENGTH; simpl; lra).
  assert (Hdecay : Rmax (2.0 - 0.5 * t) 0.0 = 1.95)
    by (rewrite Ht; apply time_decay_at_first_step).
  assert (Hforced : get2 (0, 0) forced i j
                    = escale TIME_STEP_LENGTH
                        (forcing_function t (get2 (0, 0) coordinates i j))).
  { pose proof (shaped_repeat N_POINTS N_POINTS (@ezero (R * R) _)) as Hz.
    pose proof (shaped_map2d (forcing_function t) _ _ _ shaped_coordinates)
      as Hff.
    unfold forced. change (velocities_prev initial_state)
      with (zeros (E := R * R) N_POINTS N_POINTS).
    unfold zeros, forcing_function_vectorized.
    rewrite (get2_velocities_forces_applied N_POINTS N_POINTS _ _ _ i j
               Hz Hff Hz Hi Hj).
    rewrite !get2_repeat by auto.
    rewrite (get2_map2d _ (0, 0) (0, 0) shaped_coordinates Hi Hj).
    destruct (forcing_function t (get2 (0, 0) coordinates i j)) as [fx fy].
    simpl. f_equal; ring. }
  split; [exact Ht|]. split; [exact Hdecay|].
  split; [|split; [|split; [|split]]].
  - intros Hin. rewrite (forcing_function_inside t point Hin). now rewrite Hdecay.
  - apply forcing_function_outside.
  - intros Hne.
    destruct (forcing_region_test (get2 (0, 0) coordinates i j)) as [Hin _].
    destruct (Rgtb (fst (get2 (0, 0) coordinates i j)) 0.4
              && Rltb (fst (get2 (0, 0) coordinates i j)) 0.6
              && Rgtb (snd (get2 (0, 0) coordinates i j)) 0.1
              && Rltb (snd (get2 (0, 0) coordinates i j)) 0.3) eqn:Htest.
    + now apply Hin.
    + exfalso. apply Hne. rewrite Hforced.
      rewrite forcing_function_outside.
      * simpl. ring.
      * intros Hc. apply forcing_region_test in Hc. congruence.
  - intros Hin. rewrite Hforced, (forcing_function_inside t _ Hin), Hdecay.
    cbn [escale Elem_pair Elem_R fst snd]. unfold TIME_STEP_LENGTH. lra.
  - rewrite Hforced.
    destruct (forcing_region_test (get2 (0, 0) coordinates i j)) as [_ Hin].
    unfold forcing_function.
    destruct (Rgtb _ _ && _ && _ && _); simpl;
      replace 0.0 with 0 by lra; ring.
Qed.

Lemma forcing_at_first_step_witness :
  let t := time_current initial_state + TIME_STEP_LENGTH in
  let forced :=
    velocities_forces_applied (velocities_prev initial_state)
      (forcing_function_vectorized t coordinates) (zeros N_POINTS N_POINTS) in
  t = 0.1
  /\ Rmax (2.0 - 0.5 * t) 0.0 = 1.95
  /\ (in_forcing_region (0.5, 0.2) -> forcing_function t (0.5, 0.2) = (0, 1.95))
  /\ (~ in_forcing_region (0.5, 0.2) -> forcing_function t (0.5, 0.2) = (0, 0))
  /\ (snd (get2 (0, 0) forced 20 8) <> 0
      -> in_forcing_region (get2 (0, 0) coordinates 20 8))
  /\ (in_forcing_region (get2 (0, 0) coordinates 20 8)
      -> snd (get2 (0, 0) forced 20 8) = 0.195)
  /\ fst (get2 (0, 0) forced 20 8) = 0.
Proof.
  apply (forcing_at_first_step (0.5, 0.2) (zeros N_POINTS N_POINTS) 20 8).
  - reflexivity.
  - unfold N_POINTS; lia.
  - unfold N_POINTS; lia.
Defined.

(** In [main] itself the external force is never absent: at the first step
    its y-component is the same negative number at every grid point, so the
    scenario of C9 is the force injection taken alone, not the first step of
    the loop as written. *)
Lemma external_force_at_first_step (i j : nat) :
  (i < N_POINTS)%nat -> (j < N_POINTS)%nat ->
  snd (get2 (0, 0) (external_force 0.1 coordinates) i j)
  = -0.1 * sin (2 * PI * 0.1 / 10)
  /\ snd (get2 (0, 0) (external_force 0.1 coordinates) i j) < 0.
Proof.
  intros Hi Hj.
  assert (Hval : snd (get2 (0, 0) (external_force 0.1 coordinates) i j)
                 = -0.1 * sin (2 * PI * 0.1 / 10)).
  { unfold external_force. cbv zeta.
    pose proof (shaped_zeros_like _ _ _ shaped_coordinates) as Hz.
    pose proof (shaped_map2d (fun c : R * R => 0.1 * sin (2 * PI * snd c))
                  _ _ _ shaped_coordinates) as Hx.
    now rewrite (get2_map2d _ (0, 0) (0, 0)
                   (shaped_zip2d (fun (ff : R * R) (fx : R) => (fx, snd ff))
                      _ _ _ _ Hz Hx) Hi Hj). }
  split; [exact Hval|]. rewrite Hval.
  pose proof PI_RGT_0 as Hpi.
  assert (Hsin : 0 < sin (2 * PI * 0.1 / 10)) by (apply sin_gt_0; lra).
  lra.
Qed.

(** ** Advection *)

Lemma N_POINTS_value : N_POINTS = 41%nat.
Proof. reflexivity. Qed.

Lemma INR_N_POINTS : INR N_POINTS = 41.
Proof. unfold N_POINTS. simpl. lra. Qed.

Lemma element_length_pos : 0 < element_length.
Proof. rewrite element_length_value. lra. Qed.

Lemma node_in_domain (i : nat) :
  (i < N_POINTS)%nat -> 0 <= INR i * element_length <= DOMAIN_SIZE.
Proof.
  intros Hi.
  assert (H0 : 0 <= INR i) by apply pos_INR.
  assert (H1 : INR i <= 40).
  { assert (Hle : (i <= 40)%nat) by (rewrite N_POINTS_value in Hi; lia).
    apply le_INR in Hle.
    replace (INR 40) with 40 in Hle by (simpl; lra). exact Hle. }
  rewrite element_length_value. unfold DOMAIN_SIZE. lra.
Qed.

Lemma clip_bounds (lo hi a : R) : lo <= hi -> lo <= clip lo hi a <= hi.
Proof.
  intros H. unfold clip, Rmin, Rmax.
  repeat destruct (Rle_dec _ _); lra.
Qed.

Lemma clip_id (lo hi a : R) : lo <= a <= hi -> clip lo hi a = a.
Proof.
  intros H. unfold clip, Rmin, Rmax.
  repeat destruct (Rle_dec _ _); lra.
Qed.

Lemma shaped_backtraced_positions (vector_field : list (list (R * R))) :
  shaped N_POINTS N_POINTS vector_field ->
  shaped N_POINTS N_POINTS (backtraced_positions vector_field).
Proof.
  intros Hv. unfold backtraced_positions.
  apply shaped_map2d, shaped_zip2d.
  - apply shaped_coordinates.
  - now apply shaped_map2d.
Qed.

Lemma get2_backtraced_positions (vector_field : list (list (R * R)))
  (i j : nat) :
  shaped N_POINTS N_POINTS vector_field ->
  (i < N_POINTS)%nat -> (j < N_POINTS)%nat ->
  get2 (0, 0) (backtraced_positions vector_field) i j
  = (clip 0.0 DOMAIN_SIZE
       (nth i x 0 - TIME_STEP_LENGTH * fst (get2 (0, 0) vector_field i j)),
     clip 0.0 DOMAIN_SIZE
       (nth j y 0 - TIME_STEP_LENGTH * snd (get2 (0, 0) vector_field i j))).
Proof.
  intros Hv Hi Hj. unfold backtraced_positions.
  pose proof (shaped_map2d (escale TIME_STEP_LENGTH) _ _ _ Hv) as Hs.
  rewrite (get2_map2d _ (0, 0) (0, 0)
             (shaped_zip2d esub _ _ _ _ shaped_coordinates Hs) Hi Hj).
  rewrite (get2_zip2d esub (0, 0) (0, 0) (0, 0) shaped_coordinates Hs Hi Hj).
  rewrite (get2_map2d _ (0, 0) (0, 0) Hv Hi Hj).
  rewrite (get2_coordinates i j Hi Hj).
  reflexivity.
Qed.

Lemma last_nth {A : Type} (l : list A) (d : A) :
  last l d = nth (length l - 1) l d.
Proof.
  induction l as [|a [|b t] IH]; auto.
  change (last (a :: b :: t) d) with (last (b :: t) d). rewrite IH.
  simpl. now rewrite Nat.sub_0_r.
Qed.

Lemma in_bounds_x (p : R) : 0 <= p <= DOMAIN_SIZE -> in_bounds x p = true.
Proof.
  intros Hp. unfold in_bounds.
  rewrite last_nth, length_x.
  rewrite !nth_x by (rewrite N_POINTS_value; lia).
  replace (INR 0 * element_length) with 0 by (simpl; lra).
  replace (INR (N_POINTS - 1) * element_length) with DOMAIN_SIZE.
  - unfold Rleb. repeat destruct (Rle_dec _ _); auto; lra.
  - rewrite element_length_value. unfold DOMAIN_SIZE, N_POINTS. simpl. lra.
Qed.

Lemma in_bounds_y (p : R) : 0 <= p <= DOMAIN_SIZE -> in_bounds y p = true.
Proof. apply in_bounds_x. Qed.

Lemma forallb2d_get2 {A : Type} (P : A -> bool) (d : A) {n m : nat}
  {a : list (list A)} :
  shaped n m a ->
  (forall i j, (i < n)%nat -> (j < m)%nat -> P (get2 d a i j) = true) ->
  forallb (forallb P) a = true.
Proof.
  intros Ha HP.
  apply forallb_forall. intros row Hrow.
  destruct (In_nth _ _ [] Hrow) as (i & Hi & <-).
  rewrite (shaped_length Ha) in Hi.
  apply forallb_forall. intros e He.
  destruct (In_nth _ _ d He) as (j & Hj & <-).
  rewrite (shaped_row Ha Hi) in Hj.
  now apply HP.
Qed.

Lemma strictly_ascending_map_seq (h : nat -> R) (s k : nat) :
  (forall a, h a < h (S a)) ->
  strictly_ascending (map h (seq s k)) = true.
Proof.
  intros Hh. revert s. induction k as [|k IH]; intros s; [reflexivity|].
  specialize (IH (S s)). cbn [seq map] in *.
  destruct k as [|k]; [reflexivity|].
  cbn [seq map strictly_ascending] in *. rewrite IH.
  unfold Rltb. destruct (Rlt_dec (h s) (h (S s))) as [|Hn]; [reflexivity|].
  exfalso. apply Hn, Hh.
Qed.

Lemma strictly_ascending_x : strictly_ascending x = true.
Proof.
  unfold x, linspace. apply strictly_ascending_map_seq.
  intros a. rewrite S_INR.
  replace ((DOMAIN_SIZE - 0.0) / (INR N_POINTS - 1)) with element_length
    by (unfold element_length; lra).
  pose proof element_length_pos. lra.
Qed.

Lemma strictly_ascending_y : strictly_ascending y = true.
Proof. apply strictly_ascending_x. Qed.

Lemma interpn_in_bounds {E : Type} `{Elem E} (values : list (list E))
  (xi : list (list (R * R))) :
  shaped N_POINTS N_POINTS values -> shaped N_POINTS N_POINTS xi ->
  (forall i j, (i < N_POINTS)%nat -> (j < N_POINTS)%nat ->
     0 <= fst (get2 (0, 0) xi i j) <= DOMAIN_SIZE
     /\ 0 <= snd (get2 (0, 0) xi i j) <= DOMAIN_SIZE) ->
  interpn (x, y) values xi = Some (map2d (evaluate_linear (x, y) values) xi).
Proof.
  intros Hv Hxi Hb. unfold interpn.
  change (fst (x, y)) with x. change (snd (x, y)) with y.
  rewrite strictly_ascending_x, strictly_ascending_y.
  rewrite length_x, length_y. rewrite Hv.
  rewrite (forallb2d_get2 _ (0, 0) Hxi); auto.
  intros i j Hi Hj. destruct (Hb i j Hi Hj) as [Hx Hy].
  now rewrite (in_bounds_x _ Hx), (in_bounds_y _ Hy).
Qed.

Lemma backtraced_positions_in_domain (vector_field : list (list (R * R)))
  (i j : nat) :
  shaped N_POINTS N_POINTS vector_field ->
  (i < N_POINTS)%nat -> (j < N_POINTS)%nat ->
  0 <= fst (get2 (0, 0) (backtraced_positions vector_field) i j) <= DOMAIN_SIZE
  /\ 0 <= snd (get2 (0, 0) (backtraced_positions vector_field) i j)
     <= DOMAIN_SIZE.
Proof.
  intros Hv Hi Hj. rewrite (get2_backtraced_positions _ i j Hv Hi Hj).
  cbn [fst snd].
  split;
    match goal with
    | |- 0 <= clip ?lo ?hi ?a <= _ => pose proof (clip_bounds lo hi a) as Hc
    end; unfold DOMAIN_SIZE in *; lra.
Qed.

Lemma advect_Some {E : Type} `{Elem E} (field : list (list E))
  (vector_field : list (list (R * R))) :
  shaped N_POINTS N_POINTS field -> shaped N_POINTS N_POINTS vector_field ->
  advect field vector_field
  = Some (map2d (evaluate_linear (x, y) field)
            (backtraced_positions vector_field)).
Proof.
  intros Hf Hv. unfold advect.
  apply interpn_in_bounds; auto.
  - now apply shaped_backtraced_positions.
  - intros i j Hi Hj. now apply backtraced_positions_in_domain.
Qed.

Lemma shaped_advect {E : Type} `{Elem E} (field advected : list (list E))
  (vector_field : list (list (R * R))) :
  shaped N_POINTS N_POINTS field -> shaped N_POINTS N_POINTS vector_field ->
  advect field vector_field = Some advected ->
  shaped N_POINTS N_POINTS advected.
Proof.
  intros Hf Hv. rewrite (advect_Some _ _ Hf Hv). intros [= <-].
  now apply shaped_map2d, shaped_backtraced_positions.
Qed.

(** C7.  Whatever the field and the transport velocity, the backtraced
    departure position of every grid point lies in [[0, DOMAIN_SIZE]] in each
    coordinate: it passes the bounds test of the interpolation, which
    therefore never raises. *)
Theorem departure_points_stay_in_domain
  (E : Type) (EE : Elem E) (field : list (list E))
  (vector_field : list (list (R * R))) (i j : nat) :
  shaped N_POINTS N_POINTS field -> shaped N_POINTS N_POINTS vector_field ->
  (i < N_POINTS)%nat -> (j < N_POINTS)%nat ->
  let p := get2 (0, 0) (backtraced_positions vector_field) i j in
  (0 <= fst p <= DOMAIN_SIZE /\ 0 <= snd p <= DOMAIN_SIZE)
  /\ (in_bounds x (fst p) = true /\ in_bounds y (snd p) = true)
  /\ advect field vector_field
     = Some (map2d (evaluate_linear (x, y) field)
               (backtraced_positions vector_field)).
Proof.
  intros Hf Hv Hi Hj p.
  destruct (backtraced_positions_in_domain _ i j Hv Hi Hj) as [Hx Hy].
  fold p in Hx, Hy.
  split; [now split|]. split.
  - split; [now apply in_bounds_x|now apply in_bounds_y].
  - now apply advect_Some.
Qed.

Lemma departure_points_stay_in_domain_witness :
  let field := constant_field N_POINTS N_POINTS 3 in
  let vector_field := constant_field N_POINTS N_POINTS (100, -100) in
  let p := get2 (0, 0) (backtraced_positions vector_field) 5 7 in
  (0 <= fst p <= DOMAIN_SIZE /\ 0 <= snd p <= DOMAIN_SIZE)
  /\ (in_bounds x (fst p) = true /\ in_bounds y (snd p) = true)
  /\ advect field vector_field
     = Some (map2d (evaluate_linear (x, y) field)
               (backtraced_positions vector_field)).
Proof.
  apply (departure_points_stay_in_domain R Elem_R
           (constant_field N_POINTS N_POINTS 3)
           (constant_field N_POINTS N_POINTS (100, -100)) 5 7).
  - apply shaped_repeat.
  - apply shaped_repeat.
  - unfold N_POINTS; lia.
  - unfold N_POINTS; lia.
Defined.

(** *** Interpolation at the grid nodes *)

Lemma searchsorted_increasing (h : nat -> R) (v : R) (i s k : nat) :
  (forall a, (a < i)%nat -> h a < v) -> ~ h i < v ->
  (s <= i < s + k)%nat ->
  searchsorted (map h (seq s k)) v = (i - s)%nat.
Proof.
  intros Hlow Hi. revert s. induction k as [|k IH]; intros s Hs; [lia|].
  simpl. destruct (Rlt_dec (h s) v) as [Hlt|Hge].
  - assert (s <> i) by (intros ->; contradiction).
    rewrite IH by lia. lia.
  - destruct (Nat.eq_dec s i) as [->|Hne]; [lia|].
    exfalso. apply Hge, Hlow. lia.
Qed.

Lemma searchsorted_node (i : nat) :
  (i < N_POINTS)%nat -> searchsorted x (nth i x 0) = i.
Proof.
  intros Hi. rewrite nth_x by exact Hi.
  unfold x, linspace.
  rewrite (searchsorted_increasing _ _ i 0 N_POINTS); try lia.
  - intros a Ha.
    apply lt_INR in Ha.
    replace ((DOMAIN_SIZE - 0.0) / (INR N_POINTS - 1)) with element_length
      by (unfold element_length; lra).
    pose proof element_length_pos. nra.
  - replace ((DOMAIN_SIZE - 0.0) / (INR N_POINTS - 1)) with element_length
      by (unfold element_length; lra).
    lra.
Qed.

(** At the node [i] the cell found is the one to the left (or cell [0] at
    the first node), and the normalised distance is [1] (or [0]). *)
Lemma cell_of_node (i : nat) :
  (i < N_POINTS)%nat ->
  (find_index x (nth i x 0) = i /\ norm_distance x (nth i x 0) = 0)
  \/ (S (find_index x (nth i x 0)) = i /\ norm_distance x (nth i x 0) = 1).
Proof.
  intros Hi.
  assert (Hfind : find_index x (nth i x 0) = (i - 1)%nat).
  { unfold find_index. rewrite searchsorted_node, length_x by exact Hi.
    rewrite N_POINTS_value in *. lia. }
  unfold norm_distance. rewrite Hfind.
  pose proof element_length_pos as Hpos.
  destruct i as [|i].
  - left. split; [reflexivity|].
    change (0 - 1)%nat with 0%nat.
    rewrite !nth_x by (rewrite N_POINTS_value; lia).
    simpl INR. field. lra.
  - right. split; [lia|].
    replace (S i - 1)%nat with i by lia.
    rewrite !nth_x by lia.
    rewrite S_INR. field. lra.
Qed.

Lemma cell_of_node_y (j : nat) :
  (j < N_POINTS)%nat ->
  (find_index y (nth j y 0) = j /\ norm_distance y (nth j y 0) = 0)
  \/ (S (find_index y (nth j y 0)) = j /\ norm_distance y (nth j y 0) = 1).
Proof. apply cell_of_node. Qed.

Lemma evaluate_linear_at_node {E : Type} `{Elem E} (values : list (list E))
  (i j : nat) :
  (i < N_POINTS)%nat -> (j < N_POINTS)%nat ->
  evaluate_linear (x, y) values (nth i x 0, nth j y 0)
  = get2 ezero values i j.
Proof.
  intros Hi Hj. unfold evaluate_linear. cbn [fst snd].
  destruct (cell_of_node i Hi) as [[Hci Hdi]|[Hci Hdi]];
    destruct (cell_of_node_y j Hj) as [[Hcj Hdj]|[Hcj Hdj]];
    rewrite Hdi, Hdj; rewrite ?Hci, ?Hcj.
  - replace (1 * (1 - 0) * (1 - 0)) with 1 by lra.
    replace (1 * (1 - 0) * 0) with 0 by lra.
    replace (1 * 0 * (1 - 0)) with 0 by lra.
    replace (1 * 0 * 0) with 0 by lra.
    rewrite escale_1_l, !escale_0_l.
    now repeat (rewrite eadd_0_l || rewrite eadd_0_r).
  - replace (1 * (1 - 0) * (1 - 1)) with 0 by lra.
    replace (1 * (1 - 0) * 1) with 1 by lra.
    replace (1 * 0 * (1 - 1)) with 0 by lra.
    replace (1 * 0 * 1) with 0 by lra.
    rewrite escale_1_l, !escale_0_l.
    now repeat (rewrite eadd_0_l || rewrite eadd_0_r).
  - replace (1 * (1 - 1) * (1 - 0)) with 0 by lra.
    replace (1 * (1 - 1) * 0) with 0 by lra.
    replace (1 * 1 * (1 - 0)) with 1 by lra.
    replace (1 * 1 * 0) with 0 by lra.
    rewrite escale_1_l, !escale_0_l.
    now repeat (rewrite eadd_0_l || rewrite eadd_0_r).
  - replace (1 * (1 - 1) * (1 - 1)) with 0 by lra.
    replace (1 * (1 - 1) * 1) with 0 by lra.
    replace (1 * 1 * (1 - 1)) with 0 by lra.
    replace (1 * 1 * 1) with 1 by lra.
    rewrite escale_1_l, !escale_0_l.
    now repeat (rewrite eadd_0_l || rewrite eadd_0_r).
Qed.

Lemma shaped_zeros {E : Type} `{Elem E} (n m : nat) :
  shaped n m (zeros (E := E) n m).
Proof. apply shaped_repeat. Qed.

Lemma get2_zeros {E : Type} `{Elem E} (n m i j : nat) :
  (i < n)%nat -> (j < m)%nat -> get2 ezero (zeros (E := E) n m) i j = ezero.
Proof. apply get2_repeat. Qed.

Lemma backtraced_positions_zero :
  backtraced_positions (zeros N_POINTS N_POINTS) = coordinates.
Proof.
  pose proof (shaped_repeat N_POINTS N_POINTS (@ezero (R * R) _)) as Hz.
  apply (array_ext (0, 0)
           (shaped_backtraced_positions _ Hz) shaped_coordinates).
  intros i j Hi Hj.
  rewrite (get2_backtraced_positions _ i j Hz Hi Hj).
  unfold zeros. rewrite get2_repeat by auto.
  rewrite get2_coordinates by auto. cbn [fst snd ezero Elem_pair Elem_R].
  rewrite !clip_id; [f_equal; lra| |].
  - rewrite nth_y by exact Hj. pose proof (node_in_domain j Hj). lra.
  - rewrite nth_x by exact Hi. pose proof (node_in_domain i Hi). lra.
Qed.

(** C6.  Advecting any field, scalar or vector, with the uniformly zero
    transport velocity returns the field unchanged: the departure positions
    are the grid coordinates themselves, and the interpolation sampled at a
    grid node reproduces the value at the node. *)
Theorem zero_transport_advection_is_identity
  (E : Type) (EE : Elem E) (field : list (list E)) :
  shaped N_POINTS N_POINTS field ->
  backtraced_positions (zeros N_POINTS N_POINTS) = coordinates
  /\ (forall i j, (i < N_POINTS)%nat -> (j < N_POINTS)%nat ->
        evaluate_linear (x, y) field (get2 (0, 0) coordinates i j)
        = get2 ezero field i j)
  /\ advect field (zeros N_POINTS N_POINTS) = Some field.
Proof.
  intros Hf.
  assert (Hnode : forall i j, (i < N_POINTS)%nat -> (j < N_POINTS)%nat ->
            evaluate_linear (x, y) field (get2 (0, 0) coordinates i j)
            = get2 ezero field i j).
  { intros i j Hi Hj. rewrite get2_coordinates by auto.
    now apply evaluate_linear_at_node. }
  split; [exact backtraced_positions_zero|]. split; [exact Hnode|].
  rewrite (advect_Some field _ Hf (shaped_zeros N_POINTS N_POINTS)).
  rewrite backtraced_positions_zero. f_equal.
  apply (array_ext ezero (shaped_map2d _ _ _ _ shaped_coordinates) Hf).
  intros i j Hi Hj.
  rewrite (get2_map2d _ (0, 0) ezero shaped_coordinates Hi Hj).
  now apply Hnode.
Qed.

Lemma zero_transport_advection_is_identity_witness :
  let field := tabulate2 N_POINTS N_POINTS (fun i j => INR i * INR j) in
  backtraced_positions (zeros N_POINTS N_POINTS) = coordinates
  /\ (forall i j, (i < N_POINTS)%nat -> (j < N_POINTS)%nat ->
        evaluate_linear (x, y) field (get2 (0, 0) coordinates i j)
        = get2 0 field i j)
  /\ advect field (zeros N_POINTS N_POINTS) = Some field.
Proof.
  apply (zero_transport_advection_is_identity R Elem_R
           (tabulate2 N_POINTS N_POINTS (fun i j => INR i * INR j))).
  apply shaped_tabulate2.
Defined.

(** ** The time loop *)

Lemma bind_Some {A B : Type} (c : option A) (k : A -> option B) (b : B) :
  bind c k = Some b <-> exists a, c = Some a /\ k a = Some b.
Proof.
  destruct c as [a|]; simpl; split.
  - intros Hk. now exists a.
  - now intros (a' & [= <-] & Hk).
  - discriminate.
  - now intros (a' & [=] & _).
Qed.

Lemma shaped_mask_assign {A : Type} (n m : nat) (mask : list (list bool))
  (a : list (list A)) (v : A) :
  shaped n m mask -> shaped n m a -> shaped n m (mask_assign mask a v).
Proof. intros Hm Ha. now apply shaped_zip2d. Qed.

Lemma get2_mask_assign {A : Type} {n m : nat} {mask : list (list bool)}
  {a : list (list A)} (v d : A) {i j : nat} :
  shaped n m mask -> shaped n m a -> (i < n)%nat -> (j < m)%nat ->
  get2 d (mask_assign mask a v) i j
  = if get2 false mask i j then v else get2 d a i j.
Proof.
  intros Hm Ha Hi Hj. unfold mask_assign.
  now rewrite (get2_zip2d _ false d d Hm Ha Hi Hj).
Qed.

Lemma length_concat_rows {A : Type} (n m : nat) (a : list (list A)) :
  length a = n -> Forall (fun row => length row = m) a ->
  length (concat a) = (n * m)%nat.
Proof.
  revert n. induction a as [|row t IH]; intros n Hn Hrows; simpl in *.
  - now subst.
  - inversion Hrows as [|? ? Hrow Ht]; subst.
    rewrite length_app, (IH (length t) eq_refl Ht). lia.
Qed.

Lemma shaped_Forall {A : Type} (n m : nat) (a : list (list A)) :
  shaped n m a -> Forall (fun row => length row = m) a.
Proof.
  intros Ha. apply Forall_forall. intros row Hin.
  destruct (In_nth _ _ [] Hin) as (i & Hi & <-).
  rewrite (shaped_length Ha) in Hi. apply (shaped_row Ha Hi).
Qed.

Lemma length_flatten_scalar (n m : nat) (a : list (list R)) :
  shaped n m a -> length (flatten_scalar a) = (n * m)%nat.
Proof.
  intros Ha. unfold flatten_scalar.
  apply length_concat_rows;
    [apply (shaped_length Ha)|now apply shaped_Forall with (n := n)].
Qed.

Lemma length_flatten_vector (n m : nat) (a : list (list (R * R))) :
  shaped n m a -> length (flatten_vector a) = (n * (m * 2))%nat.
Proof.
  intros Ha. unfold flatten_vector.
  apply length_concat_rows.
  - now rewrite length_map, (shaped_length Ha).
  - apply Forall_map.
    apply (Forall_impl _ (P := fun row => length row = m));
      [|now apply shaped_Forall with (n := n)].
    intros row Hrow.
    rewrite (length_concat_rows m 2); auto.
    + now rewrite length_map.
    + apply Forall_map, Forall_forall. reflexivity.
Qed.

Lemma reshape_scalar_length (l : list R) :
  length l = (N_POINTS * N_POINTS)%nat ->
  exists a, reshape_scalar l = Some a.
Proof.
  intros Hl. unfold reshape_scalar.
  rewrite (proj2 (Nat.eqb_eq _ _) Hl). eauto.
Qed.

Lemma reshape_vector_length (l : list R) :
  length l = (N_POINTS * (N_POINTS * 2))%nat ->
  exists a, reshape_vector l = Some a.
Proof.
  intros Hl. unfold reshape_vector.
  replace (N_POINTS * N_POINTS * 2)%nat with (N_POINTS * (N_POINTS * 2))%nat
    by lia.
  rewrite (proj2 (Nat.eqb_eq _ _) Hl). eauto.
Qed.

Lemma shaped_external_force (time : R) :
  shaped N_POINTS N_POINTS (external_force time coordinates).
Proof.
  unfold external_force.
  apply shaped_map2d, shaped_zip2d.
  - apply shaped_zeros_like, shaped_coordinates.
  - apply shaped_map2d, shaped_coordinates.
Qed.

Lemma shaped_forcing (time : R) :
  shaped N_POINTS N_POINTS (forcing_function_vectorized time coordinates).
Proof. apply shaped_map2d, shaped_coordinates. Qed.

Lemma shaped_temperature_source :
  shaped N_POINTS N_POINTS temperature_source.
Proof. apply shaped_zip2d; [apply shaped_X|apply shaped_Y]. Qed.

Section StepFacts.
Variable cg : solver.

Lemma temperature_step_shaped (temperature : list (list R))
  (velocity_field : list (list (R * R))) (source next : list (list R)) :
  shaped N_POINTS N_POINTS source ->
  temperature_step cg temperature velocity_field source = Some next ->
  shaped N_POINTS N_POINTS next.
Proof.
  intros Hs. unfold temperature_step.
  intros H. apply bind_Some in H. destruct H as (ta & _ & H).
  apply bind_Some in H. destruct H as (td & Htd & H).
  injection H as <-.
  destruct (reshape_scalar_Some _ _ Htd) as (_ & Hshape & _).
  apply shaped_zip2d; [exact Hshape|now apply shaped_map2d].
Qed.

Lemma temperature_step_total (temperature : list (list R))
  (velocity_field : list (list (R * R))) (source : list (list R)) :
  keeps_length cg ->
  shaped N_POINTS N_POINTS temperature ->
  shaped N_POINTS N_POINTS velocity_field ->
  exists next, temperature_step cg temperature velocity_field source = Some next.
Proof.
  intros Hcg Ht Hv. unfold temperature_step.
  rewrite (advect_Some _ _ Ht Hv). cbn [bind].
  match goal with
  | |- context [reshape_scalar ?l] =>
      destruct (reshape_scalar_length l) as (td & ->)
  end.
  - rewrite Hcg. apply length_flatten_scalar.
    now apply shaped_map2d, shaped_backtraced_positions.
  - cbn [bind]. eauto.
Qed.

(** Whatever the solver returns, a step that completes ends in a state of
    the grid's shape in which the obstacle conditions hold. *)
Lemma step_establishes_invariant (s s' : State) :
  step cg s = Some s' ->
  well_shaped s' /\ obstacle_invariant s'
  /\ time_current s' = time_current s + TIME_STEP_LENGTH.
Proof.
  unfold step. cbv zeta. intros H.
  apply bind_Some in H. destruct H as (va & _ & H).
  apply bind_Some in H. destruct H as (vd & Hvd & H).
  apply bind_Some in H. destruct H as (pressure & Hp & H).
  apply bind_Some in H. destruct H as (temperature & Ht & H).
  injection H as <-.
  destruct (reshape_vector_Some _ _ Hvd) as (_ & Hvd_shape & _).
  destruct (reshape_scalar_Some _ _ Hp) as (_ & Hp_shape & _).
  pose proof (temperature_step_shaped _ _ _ _ shaped_temperature_source Ht)
    as Ht_shape.
  pose proof (shaped_zip2d esub _ _ _ _ Hvd_shape (shaped_gradient Hp_shape))
    as Hproj.
  split; [|split]; [| |reflexivity].
  - split; cbn [velocities_prev temperature_prev];
      apply shaped_mask_assign; auto using shaped_obstacle_mask.
  - intros i j Hi Hj Hmask. cbn [velocities_prev temperature_prev].
    rewrite (get2_mask_assign _ _ shaped_obstacle_mask Hproj Hi Hj).
    rewrite (get2_mask_assign _ _ shaped_obstacle_mask Ht_shape Hi Hj).
    now rewrite Hmask.
Qed.

(** With a solver that returns iterates of the shape of their right-hand
    side, a step from a state of the grid's shape completes: neither a
    reshape nor the interpolation raises. *)
Lemma step_total (s : State) :
  keeps_length cg -> well_shaped s -> exists s', step cg s = Some s'.
Proof.
  intros Hcg [Hv Ht]. unfold step. cbv zeta.
  pose proof (shaped_velocities_forces_applied _ _ _ _ _ Hv
                (shaped_forcing (time_current s + TIME_STEP_LENGTH))
                (shaped_external_force (time_current s + TIME_STEP_LENGTH)))
    as Hforced.
  rewrite (advect_Some _ _ Hforced Hforced). cbn [bind].
  match goal with
  | |- context [reshape_vector ?l] =>
      destruct (reshape_vector_length l) as (vd & Hvd)
  end.
  { rewrite Hcg. apply length_flatten_vector.
    now apply shaped_map2d, shaped_backtraced_positions. }
  rewrite Hvd. cbn [bind].
  destruct (reshape_vector_Some _ _ Hvd) as (_ & Hvd_shape & _).
  match goal with
  | |- context [reshape_scalar ?l] =>
      destruct (reshape_scalar_length l) as (pressure & Hp)
  end.
  { rewrite Hcg. apply length_flatten_scalar.
    now apply shaped_divergence. }
  rewrite Hp. cbn [bind].
  destruct (reshape_scalar_Some _ _ Hp) as (_ & Hp_shape & _).
  pose proof (shaped_zip2d esub _ _ _ _ Hvd_shape (shaped_gradient Hp_shape))
    as Hproj.
  pose proof (shaped_mask_assign _ _ _ _ (0, 0) shaped_obstacle_mask Hproj)
    as Hmasked.
  destruct (temperature_step_total (temperature_prev s) _ temperature_source
              Hcg Ht Hmasked) as (temperature & Htemp).
  rewrite Htemp. cbn [bind]. eauto.
Qed.
End StepFacts.

Lemma initial_state_well_shaped : well_shaped initial_state.
Proof. split; apply shaped_zeros. Qed.

Lemma run_total (cg : solver) (n : nat) :
  keeps_length cg -> exists s, run cg n = Some s /\ well_shaped s.
Proof.
  intros Hcg. induction n as [|n (s & Hrun & Hs)].
  - exists initial_state. split; [reflexivity|apply initial_state_well_shaped].
  - destruct (step_total cg s Hcg Hs) as (s' & Hstep).
    exists s'. split.
    + cbn [run]. rewrite Hrun. exact Hstep.
    + now destruct (step_establishes_invariant cg s s' Hstep).
Qed.

Lemma run_obstacle_invariant (cg : solver) (n : nat) (s : State) :
  (1 <= n)%nat -> run cg n = Some s -> obstacle_invariant s.
Proof.
  intros Hn. destruct n as [|n]; [lia|].
  cbn [run]. intros H. apply bind_Some in H. destruct H as (s0 & _ & Hstep).
  now destruct (step_establishes_invariant cg s0 s Hstep) as (_ & Hinv & _).
Qed.

(** The obstacle is not empty: the centre of the grid lies in the mask. *)
Lemma obstacle_mask_centre : get2 false obstacle_mask 20 20 = true.
Proof.
  assert (H20 : (20 < N_POINTS)%nat) by (rewrite N_POINTS_value; lia).
  unfold obstacle_mask.
  rewrite (get2_zip2d _ 0 0 false shaped_X shaped_Y H20 H20).
  rewrite get2_X, get2_Y by exact H20.
  rewrite nth_x, nth_y by exact H20.
  rewrite element_length_value.
  replace (INR 20) with 20 by (simpl; lra).
  unfold Rltb, obstacle_center, obstacle_radius. cbn [fst snd].
  destruct (Rlt_dec _ _) as [|Hn]; [reflexivity|].
  exfalso. apply Hn. lra.
Qed.

(** C1.  At the end of every time step, the first included, every grid
    point of the obstacle mask has velocity exactly [(0, 0)] and temperature
    exactly the clamp value [0.5]: the obstacle conditions are an invariant
    of the state of the loop, whatever the solver returns; and with a solver
    whose iterates have the shape of their right-hand side every step
    completes, so that the invariant is about a state that exists. *)
Theorem obstacle_conditions_hold_after_every_step (cg : solver) (n : nat) :
  (1 <= n)%nat ->
  (forall s, run cg n = Some s -> obstacle_invariant s)
  /\ (keeps_length cg -> exists s, run cg n = Some s /\ obstacle_invariant s).
Proof.
  intros Hn. split.
  - intros s. now apply run_obstacle_invariant.
  - intros Hcg. destruct (run_total cg n Hcg) as (s & Hrun & _).
    exists s. split; [exact Hrun|].
    now apply (run_obstacle_invariant cg n).
Qed.

Lemma cg_converged_keeps_length : keeps_length cg_converged.
Proof. intros A b maxiter. apply repeat_length. Qed.

Lemma cg_stalled_keeps_length : keeps_length cg_stalled.
Proof. intros A b maxiter. apply repeat_length. Qed.

Lemma obstacle_conditions_hold_after_every_step_witness :
  (forall s, run cg_converged 3 = Some s -> obstacle_invariant s)
  /\ (exists s, run cg_converged 3 = Some s /\ obstacle_invariant s).
Proof.
  destruct (obstacle_conditions_hold_after_every_step cg_converged 3)
    as [Hinv Hrun].
  - lia.
  - split; [exact Hinv|].
    apply Hrun, cg_converged_keeps_length.
Defined.

(** ** The solver status *)

Section IteratesOnly.
Variables cg1 cg2 : solver.
Hypothesis Hagree : agree_on_iterates cg1 cg2.

Lemma temperature_step_iterates_only (temperature : list (list R))
  (velocity_field : list (list (R * R))) (source : list (list R)) :
  temperature_step cg1 temperature velocity_field source
  = temperature_step cg2 temperature velocity_field source.
Proof.
  unfold temperature_step.
  destruct (advect temperature velocity_field) as [ta|]; cbn [bind]; auto.
  now rewrite Hagree.
Qed.

Lemma step_iterates_only (s : State) : step cg1 s = step cg2 s.
Proof.
  unfold step. cbv zeta.
  match goal with
  | |- bind ?c _ = _ => destruct c as [va|]; cbn [bind]; auto
  end.
  rewrite Hagree.
  match goal with
  | |- bind ?c _ = _ => destruct c as [vd|]; cbn [bind]; auto
  end.
  rewrite Hagree.
  match goal with
  | |- bind ?c _ = _ => destruct c as [pressure|]; cbn [bind]; auto
  end.
  now rewrite temperature_step_iterates_only.
Qed.

Lemma run_iterates_only (n : nat) : run cg1 n = run cg2 n.
Proof.
  induction n as [|n IH]; cbn [run]; auto.
  rewrite IH. destruct (run cg2 n) as [s|]; cbn [bind]; auto.
  apply step_iterates_only.
Qed.
End IteratesOnly.

Lemma stalled_agrees_with_converged : agree_on_iterates cg_converged cg_stalled.
Proof. intros A b maxiter. reflexivity. Qed.

(** C2, as amended.  No solve of the pipeline looks at the solver status:
    only the iterate, component [0] of the solver's result, is used, so a
    step and a run are the same for two solvers that return the same
    iterates, whatever their statuses. *)
Theorem solver_status_is_discarded (cg1 cg2 : solver) :
  agree_on_iterates cg1 cg2 ->
  (forall s, step cg1 s = step cg2 s)
  /\ (forall temperature velocity_field source,
        temperature_step cg1 temperature velocity_field source
        = temperature_step cg2 temperature velocity_field source)
  /\ (forall n, run cg1 n = run cg2 n).
Proof.
  intros Hagree. repeat split; intros.
  - now apply step_iterates_only.
  - now apply temperature_step_iterates_only.
  - now apply run_iterates_only.
Qed.

Lemma solver_status_is_discarded_witness :
  (forall s, step cg_converged s = step cg_stalled s)
  /\ (forall temperature velocity_field source,
        temperature_step cg_converged temperature velocity_field source
        = temperature_step cg_stalled temperature velocity_field source)
  /\ (forall n, run cg_converged n = run cg_stalled n).
Proof.
  apply (solver_status_is_discarded cg_converged cg_stalled).
  intros A b maxiter. reflexivity.
Defined.

(** C2, as stated, fails: with a solver all of whose solves report an
    exhausted iteration cap, the first step completes, in the very state it
    reaches with a solver reporting convergence to the same iterates. *)
Lemma nonconvergence_is_silently_accepted :
  (forall A b maxiter, snd (cg_stalled A b maxiter) = 1%Z)
  /\ (exists s, step cg_stalled initial_state = Some s)
  /\ step cg_stalled initial_state = step cg_converged initial_state
  /\ ~ surfaces_nonconvergence.
Proof.
  split; [reflexivity|]. split; [|split].
  - apply step_total;
      [apply cg_stalled_keeps_length|apply initial_state_well_shaped].
  - symmetry. apply step_iterates_only, stalled_agrees_with_converged.
  - intros Hclaim.
    apply (Hclaim cg_converged cg_stalled initial_state).
    + apply stalled_agrees_with_converged.
    + reflexivity.
    + intros A b maxiter. cbn [cg_stalled snd]. lia.
    + symmetry. apply step_iterates_only, stalled_agrees_with_converged.
Qed.

(** * Further properties of the code *)

(** ** Flattening and reshaping *)

Lemma nth_concat_rows {A : Type} (m : nat) (a : list (list A)) (i j : nat)
  (d : A) :
  Forall (fun row => length row = m) a ->
  (i < length a)%nat -> (j < m)%nat ->
  nth (i * m + j) (concat a) d = nth j (nth i a []) d.
Proof.
  intros Hrows. revert i. induction Hrows as [|row t Hrow Ht IH]; intros i Hi Hj.
  - simpl in Hi. lia.
  - destruct i as [|i].
    + cbn [concat nth]. rewrite app_nth1 by lia. reflexivity.
    + cbn [concat nth]. rewrite app_nth2 by (rewrite Hrow; nia).
      rewrite Hrow. replace (S i * m + j - m)%nat with (i * m + j)%nat by nia.
      apply IH; auto. simpl in Hi. lia.
Qed.

Lemma flat_index_split (n m k : nat) :
  (k < n * m)%nat ->
  (k / m < n)%nat /\ (k mod m < m)%nat /\ k = (k / m * m + k mod m)%nat.
Proof.
  intros Hk.
  assert (Hm : m <> 0%nat) by (intros ->; lia).
  split; [|split].
  - apply Nat.Div0.div_lt_upper_bound. lia.
  - now apply Nat.mod_upper_bound.
  - rewrite (Nat.div_mod_eq k m) at 1. lia.
Qed.

Lemma nth_flatten_scalar (n m : nat) (a : list (list R)) (i j : nat) :
  shaped n m a -> (i < n)%nat -> (j < m)%nat ->
  nth (i * m + j) (flatten_scalar a) 0 = get2 0 a i j.
Proof.
  intros Ha Hi Hj. unfold flatten_scalar, get2.
  apply nth_concat_rows; auto.
  - now apply shaped_Forall with (n := n).
  - now rewrite (shaped_length Ha).
Qed.

Lemma nth_flatten_vector (n m : nat) (a : list (list (R * R))) (i j : nat) :
  shaped n m a -> (i < n)%nat -> (j < m)%nat ->
  nth ((i * m + j) * 2) (flatten_vector a) 0 = fst (get2 (0, 0) a i j)
  /\ nth ((i * m + j) * 2 + 1) (flatten_vector a) 0 = snd (get2 (0, 0) a i j).
Proof.
  intros Ha Hi Hj. unfold flatten_vector, get2.
  assert (Hrows : Forall (fun row : list R => length row = (m * 2)%nat)
            (map (fun row : list (R * R) =>
                    concat (map (fun p => [fst p; snd p]) row)) a)).
  { apply Forall_map.
    apply (Forall_impl _ (P := fun row : list (R * R) => length row = m));
      [|now apply shaped_Forall with (n := n)].
    intros row Hrow. rewrite (length_concat_rows m 2); auto.
    - now rewrite length_map.
    - apply Forall_map, Forall_forall. reflexivity. }
  assert (Hlen : length (map (fun row : list (R * R) =>
                    concat (map (fun p => [fst p; snd p]) row)) a) = n)
    by now rewrite length_map, (shaped_length Ha).
  assert (Hpairs : Forall (fun l : list R => length l = 2%nat)
            (map (fun p : R * R => [fst p; snd p]) (nth i a [])))
    by (apply Forall_map, Forall_forall; reflexivity).
  assert (Hrow : length (nth i a []) = m) by apply (shaped_row Ha Hi).
  assert (Hla : length a = n) by apply (shaped_length Ha).
  replace ((i * m + j) * 2)%nat with (i * (m * 2) + (j * 2 + 0))%nat by lia.
  replace (i * (m * 2) + (j * 2 + 0) + 1)%nat
    with (i * (m * 2) + (j * 2 + 1))%nat by lia.
  rewrite !(nth_concat_rows (m * 2)) by (auto; lia).
  rewrite !(nth_map_in _ _ _ []) by lia.
  rewrite !(nth_concat_rows 2) by (auto; rewrite ?length_map; lia).
  rewrite !(nth_map_in _ _ _ (0, 0)) by lia.
  split; reflexivity.
Qed.

(** X1.  Flattening an array of the grid's shape and reshaping the result
    gives the array back, for scalar and for vector fields; and a list that
    reshapes without error is the flattening of its reshaped array. *)
Theorem flatten_reshape_round_trip
  (a : list (list R)) (v : list (list (R * R))) (l lv : list R)
  (b : list (list R)) (w : list (list (R * R))) :
  shaped N_POINTS N_POINTS a -> shaped N_POINTS N_POINTS v ->
  reshape_scalar l = Some b -> reshape_vector lv = Some w ->
  reshape_scalar (flatten_scalar a) = Some a
  /\ reshape_vector (flatten_vector v) = Some v
  /\ flatten_scalar b = l
  /\ flatten_vector w = lv.
Proof.
  intros Ha Hv Hb Hw.
  split; [|split; [|split]].
  - unfold reshape_scalar.
    rewrite (length_flatten_scalar _ _ _ Ha), Nat.eqb_refl. f_equal.
    apply (array_ext 0 (shaped_tabulate2 _ _ _) Ha).
    intros i j Hi Hj. rewrite get2_tabulate2 by auto.
    now apply nth_flatten_scalar with (n := N_POINTS).
  - unfold reshape_vector.
    rewrite (length_flatten_vector _ _ _ Hv).
    replace (N_POINTS * (N_POINTS * 2))%nat
      with (N_POINTS * N_POINTS * 2)%nat by lia.
    rewrite Nat.eqb_refl. f_equal.
    apply (array_ext (0, 0) (shaped_tabulate2 _ _ _) Hv).
    intros i j Hi Hj. rewrite get2_tabulate2 by auto.
    destruct (nth_flatten_vector _ _ _ i j Hv Hi Hj) as [-> ->].
    now destruct (get2 (0, 0) v i j).
  - destruct (reshape_scalar_Some _ _ Hb) as (Hl & Hshape & Hget).
    apply (nth_ext _ _ 0 0).
    + now rewrite (length_flatten_scalar _ _ _ Hshape).
    + intros k Hk. rewrite (length_flatten_scalar _ _ _ Hshape) in Hk.
      destruct (flat_index_split _ _ _ Hk) as (Hi & Hj & Hsplit).
      rewrite Hsplit at 1.
      rewrite (nth_flatten_scalar _ _ _ _ _ Hshape Hi Hj), (Hget _ _ Hi Hj).
      now rewrite <- Hsplit.
  - destruct (reshape_vector_Some _ _ Hw) as (Hl & Hshape & Hget).
    apply (nth_ext _ _ 0 0).
    + rewrite (length_flatten_vector _ _ _ Hshape), Hl. lia.
    + intros k Hk. rewrite (length_flatten_vector _ _ _ Hshape) in Hk.
      assert (Hk2 : (k / 2 < N_POINTS * N_POINTS)%nat)
        by (apply Nat.Div0.div_lt_upper_bound; lia).
      destruct (flat_index_split _ _ _ Hk2) as (Hi & Hj & Hsplit).
      destruct (nth_flatten_vector _ _ _ _ _ Hshape Hi Hj) as [H0 H1].
      rewrite (Hget _ _ Hi Hj) in H0, H1. cbn [fst snd] in H0, H1.
      rewrite <- Hsplit in H0, H1.
      pose proof (Nat.div_mod_eq k 2) as Hdm.
      assert (Hmod : (k mod 2 < 2)%nat) by (apply Nat.mod_upper_bound; lia).
      destruct (Nat.eq_dec (k mod 2) 0) as [Hz|Hnz].
      * rewrite Hdm, Hz.
        replace (2 * (k / 2) + 0)%nat with (k / 2 * 2)%nat by lia. exact H0.
      * rewrite Hdm. replace (k mod 2) with 1%nat by lia.
        replace (2 * (k / 2) + 1)%nat with (k / 2 * 2 + 1)%nat by lia.
        exact H1.
Qed.

Lemma flatten_reshape_round_trip_witness :
  let a := tabulate2 N_POINTS N_POINTS (fun i j => INR i + INR j) in
  let v := constant_field N_POINTS N_POINTS (1, 2) in
  let l := repeat 3 (N_POINTS * N_POINTS) in
  let lv := repeat 4 (N_POINTS * N_POINTS * 2) in
  let b := tabulate2 N_POINTS N_POINTS
             (fun i j => nth (i * N_POINTS + j) l 0) in
  let w := tabulate2 N_POINTS N_POINTS
             (fun i j => (nth ((i * N_POINTS + j) * 2) lv 0,
                          nth ((i * N_POINTS + j) * 2 + 1) lv 0)) in
  reshape_scalar (flatten_scalar a) = Some a
  /\ reshape_vector (flatten_vector v) = Some v
  /\ flatten_scalar b = l
  /\ flatten_vector w = lv.
Proof.
  intros a v l lv b w.
  apply (flatten_reshape_round_trip a v l lv b w).
  - apply shaped_tabulate2.
  - apply shaped_repeat.
  - unfold reshape_scalar, l. now rewrite repeat_length, Nat.eqb_refl.
  - unfold reshape_vector, lv. now rewrite repeat_length, Nat.eqb_refl.
Defined.

(** ** Arrays without an interior *)

Lemma interior_small (n m i j : nat) :
  (n <= 2)%nat \/ (m <= 2)%nat -> interior n m i j = false.
Proof.
  intros Hs. apply not_true_iff_false. rewrite interior_true. lia.
Qed.

(** X2.  On an array with fewer than three rows or fewer than three columns
    the slices [1:-1] are empty and nothing is assigned: every differential
    operator returns the zero array of the input's shape. *)
Theorem operators_on_arrays_without_interior
  (E : Type) (EE : Elem E) (n m : nat)
  (f : list (list E)) (v : list (list (E * E))) :
  shaped n m f -> shaped n m v ->
  (n <= 2)%nat \/ (m <= 2)%nat ->
  partial_derivative_x f = zeros n m
  /\ partial_derivative_y f = zeros n m
  /\ laplace f = zeros n m
  /\ gradient f = zeros n m
  /\ divergence v = zeros n m
  /\ curl_2d v = zeros n m.
Proof.
  intros Hf Hv Hs.
  pose proof (shaped_map2d fst _ _ _ Hv) as Hv0.
  pose proof (shaped_map2d snd _ _ _ Hv) as Hv1.
  assert (Hx : forall (g : list (list E)) i j, shaped n m g ->
            (i < n)%nat -> (j < m)%nat ->
            get2 ezero (partial_derivative_x g) i j = ezero).
  { intros g i j Hg Hi Hj.
    now rewrite (get2_partial_derivative_x Hg Hi Hj), (interior_small _ _ i j Hs). }
  assert (Hy : forall (g : list (list E)) i j, shaped n m g ->
            (i < n)%nat -> (j < m)%nat ->
            get2 ezero (partial_derivative_y g) i j = ezero).
  { intros g i j Hg Hi Hj.
    now rewrite (get2_partial_derivative_y Hg Hi Hj), (interior_small _ _ i j Hs). }
  repeat split; apply zero_field_image.
  - apply (shaped_partial_derivative_x Hf).
  - intros. now apply Hx.
  - apply (shaped_partial_derivative_y Hf).
  - intros. now apply Hy.
  - apply (shaped_laplace Hf).
  - intros i j Hi Hj.
    now rewrite (get2_laplace Hf Hi Hj), (interior_small _ _ i j Hs).
  - apply (shaped_gradient Hf).
  - intros i j Hi Hj. rewrite (get2_gradient Hf Hi Hj).
    now rewrite Hx, Hy.
  - apply (shaped_divergence Hv).
  - intros i j Hi Hj. rewrite (get2_divergence Hv Hi Hj).
    rewrite Hx, Hy by auto. apply eadd_0_l.
  - apply (shaped_curl_2d Hv).
  - intros i j Hi Hj. rewrite (get2_curl_2d Hv Hi Hj).
    rewrite Hx, Hy by auto. apply esub_diag.
Qed.

Lemma operators_on_arrays_without_interior_witness :
  let f := [[1; 2; 3; 4]; [5; 6; 7; 8]] in
  let v := [[(1, 2); (3, 4); (5, 6); (7, 8)];
            [(8, 7); (6, 5); (4, 3); (2, 1)]] in
  partial_derivative_x f = zeros 2 4
  /\ partial_derivative_y f = zeros 2 4
  /\ laplace f = zeros 2 4
  /\ gradient f = zeros 2 4
  /\ divergence v = zeros 2 4
  /\ curl_2d v = zeros 2 4.
Proof.
  apply (operators_on_arrays_without_interior R Elem_R 2 4
           [[1; 2; 3; 4]; [5; 6; 7; 8]]
           [[(1, 2); (3, 4); (5, 6); (7, 8)];
            [(8, 7); (6, 5); (4, 3); (2, 1)]]).
  - reflexivity.
  - reflexivity.
  - left. lia.
Defined.

(** ** Composed operators away from the boundary *)

Lemma map2d_fst_gradient {E : Type} `{Elem E} (n m : nat) (f : list (list E)) :
  shaped n m f -> map2d fst (gradient f) = partial_derivative_x f.
Proof.
  intros Hf.
  apply (array_ext ezero (shaped_map2d fst _ _ _ (shaped_gradient Hf))
           (shaped_partial_derivative_x Hf)).
  intros i j Hi Hj.
  rewrite (get2_map2d fst ezero ezero (shaped_gradient Hf) Hi Hj).
  now rewrite (get2_gradient Hf Hi Hj).
Qed.

Lemma map2d_snd_gradient {E : Type} `{Elem E} (n m : nat) (f : list (list E)) :
  shaped n m f -> map2d snd (gradient f) = partial_derivative_y f.
Proof.
  intros Hf.
  apply (array_ext ezero (shaped_map2d snd _ _ _ (shaped_gradient Hf))
           (shaped_partial_derivative_y Hf)).
  intros i j Hi Hj.
  rewrite (get2_map2d snd ezero ezero (shaped_gradient Hf) Hi Hj).
  now rewrite (get2_gradient Hf Hi Hj).
Qed.

Section DeepInterior.
Variables (n m : nat) (f : list (list R)).
Hypothesis Hf : shaped n m f.

Lemma partial_x_at_interior (i j : nat) :
  (1 <= i)%nat -> (i + 2 <= n)%nat -> (1 <= j)%nat -> (j + 2 <= m)%nat ->
  get2 0 (partial_derivative_x f) i j
  = (get2 0 f (i + 1) j - get2 0 f (i - 1) j) / (2 * element_length).
Proof.
  intros. pose proof (get2_partial_derivative_x Hf (i := i) (j := j)) as Hx.
  rewrite (proj2 (interior_true n m i j)) in Hx by lia. apply Hx; lia.
Qed.

Lemma partial_y_at_interior (i j : nat) :
  (1 <= i)%nat -> (i + 2 <= n)%nat -> (1 <= j)%nat -> (j + 2 <= m)%nat ->
  get2 0 (partial_derivative_y f) i j
  = (get2 0 f i (j + 1) - get2 0 f i (j - 1)) / (2 * element_length).
Proof.
  intros. pose proof (get2_partial_derivative_y Hf (i := i) (j := j)) as Hy.
  rewrite (proj2 (interior_true n m i j)) in Hy by lia. apply Hy; lia.
Qed.
End DeepInterior.

(** X3.  Two points or more away from the boundary the composed operators
    are what the central differences make them: the curl of a gradient is
    exactly zero, and the divergence of a gradient is the five-point stencil
    over the doubled spacing [2h], reaching to [i +- 2] and [j +- 2], not the
    compact stencil of [laplace]. *)
Theorem gradient_composed_away_from_boundary
  (n m : nat) (f : list (list R)) (i j : nat) :
  shaped n m f ->
  (2 <= i <= n - 3)%nat -> (2 <= j <= m - 3)%nat ->
  get2 0 (curl_2d (gradient f)) i j = 0
  /\ get2 0 (divergence (gradient f)) i j
     = (get2 0 f (i + 2) j + get2 0 f (i - 2) j
        + get2 0 f i (j + 2) + get2 0 f i (j - 2)
        - 4 * get2 0 f i j) / (2 * element_length) ^ 2.
Proof.
  intros Hf Hi Hj.
  pose proof (shaped_gradient Hf) as Hg.
  pose proof (shaped_partial_derivative_x Hf) as Hx.
  pose proof (shaped_partial_derivative_y Hf) as Hy.
  pose proof element_length_pos as Hpos.
  assert (Hin : (i < n)%nat) by lia.
  assert (Hjm : (j < m)%nat) by lia.
  pose proof (get2_curl_2d Hg Hin Hjm) as Hcurl.
  pose proof (get2_divergence Hg Hin Hjm) as Hdiv.
  cbn [ezero Elem_R] in Hcurl, Hdiv. rewrite Hcurl, Hdiv.
  rewrite (map2d_fst_gradient n m f Hf), (map2d_snd_gradient n m f Hf).
  rewrite (partial_x_at_interior n m _ Hy), (partial_y_at_interior n m _ Hx),
    (partial_x_at_interior n m _ Hx), (partial_y_at_interior n m _ Hy) by lia.
  rewrite !(partial_x_at_interior n m f Hf), !(partial_y_at_interior n m f Hf)
    by lia.
  replace (i + 1 + 1)%nat with (i + 2)%nat by lia.
  replace (i - 1 - 1)%nat with (i - 2)%nat by lia.
  replace (i + 1 - 1)%nat with i by lia.
  replace (i - 1 + 1)%nat with i by lia.
  replace (j + 1 + 1)%nat with (j + 2)%nat by lia.
  replace (j - 1 - 1)%nat with (j - 2)%nat by lia.
  replace (j + 1 - 1)%nat with j by lia.
  replace (j - 1 + 1)%nat with j by lia.
  cbn [eadd esub Elem_R].
  split; field; lra.
Qed.

Lemma gradient_composed_away_from_boundary_witness :
  let f := tabulate2 5 5 (fun i j => INR i * INR i + INR j) in
  get2 0 (curl_2d (gradient f)) 2 2 = 0
  /\ get2 0 (divergence (gradient f)) 2 2
     = (get2 0 f 4 2 + get2 0 f 0 2 + get2 0 f 2 4 + get2 0 f 2 0
        - 4 * get2 0 f 2 2) / (2 * element_length) ^ 2.
Proof.
  apply (gradient_composed_away_from_boundary 5 5
           (tabulate2 5 5 (fun i j => INR i * INR i + INR j)) 2 2).
  - reflexivity.
  - simpl; lia.
  - simpl; lia.
Defined.

(** ** Exactness on affine fields *)

(** X4.  The stencils are exact on affine functions of the coordinates: at
    every interior point of the samples of [a x + b y + c] the two partials
    are [a] and [b] and the Laplacian is zero. *)
Theorem stencils_exact_on_affine_fields
  (n m : nat) (a b c : R) (i j : nat) :
  (1 <= i <= n - 2)%nat -> (1 <= j <= m - 2)%nat ->
  get2 0 (partial_derivative_x (affine_field n m a b c)) i j = a
  /\ get2 0 (partial_derivative_y (affine_field n m a b c)) i j = b
  /\ get2 0 (laplace (affine_field n m a b c)) i j = 0.
Proof.
  intros Hi Hj.
  pose proof (shaped_tabulate2 n m
    (fun i j => a * (INR i * element_length) + b * (INR j * element_length) + c))
    as Hf.
  fold (affine_field n m a b c) in Hf.
  pose proof element_length_pos as Hpos.
  assert (Hin : (i < n)%nat) by lia.
  assert (Hjm : (j < m)%nat) by lia.
  assert (Hint : interior n m i j = true) by (apply interior_true; lia).
  pose proof (get2_partial_derivative_x Hf Hin Hjm) as Hx.
  pose proof (get2_partial_derivative_y Hf Hin Hjm) as Hy.
  pose proof (get2_laplace Hf Hin Hjm) as Hl.
  rewrite Hint in Hx, Hy, Hl.
  cbn [ezero eadd esub ediv escale Elem_R] in Hx, Hy, Hl.
  rewrite Hx, Hy, Hl. unfold affine_field.
  rewrite !get2_tabulate2 by lia.
  rewrite !plus_INR, !minus_INR by lia. simpl INR.
  repeat split; field; lra.
Qed.

Lemma stencils_exact_on_affine_fields_witness :
  get2 0 (partial_derivative_x (affine_field 4 5 3 (-2) 7)) 2 3 = 3
  /\ get2 0 (partial_derivative_y (affine_field 4 5 3 (-2) 7)) 2 3 = -2
  /\ get2 0 (laplace (affine_field 4 5 3 (-2) 7)) 2 3 = 0.
Proof.
  apply (stencils_exact_on_affine_fields 4 5 3 (-2) 7 2 3).
  - simpl; lia.
  - simpl; lia.
Defined.

(** ** The linear operators of the scalar solves *)

Lemma concat_repeat {A : Type} (c : A) (n m : nat) :
  concat (repeat (repeat c m) n) = repeat c (n * m).
Proof.
  induction n as [|n IH]; [reflexivity|].
  cbn [repeat concat]. rewrite IH, <- repeat_app. f_equal.
Qed.

Lemma flatten_scalar_constant (n m : nat) (c : R) :
  flatten_scalar (constant_field n m c) = repeat c (n * m).
Proof. apply concat_repeat. Qed.

Lemma reshape_scalar_constant (c : R) :
  reshape_scalar (repeat c (N_POINTS * N_POINTS))
  = Some (constant_field N_POINTS N_POINTS c).
Proof.
  rewrite <- flatten_scalar_constant.
  assert (Hround : forall a, shaped N_POINTS N_POINTS a ->
            reshape_scalar (flatten_scalar a) = Some a).
  { intros a Ha. unfold reshape_scalar.
    rewrite (length_flatten_scalar _ _ _ Ha), Nat.eqb_refl. f_equal.
    apply (array_ext 0 (shaped_tabulate2 _ _ _) Ha).
    intros i j Hi Hj. rewrite get2_tabulate2 by auto.
    now apply nth_flatten_scalar with (n := N_POINTS). }
  apply Hround, shaped_repeat.
Qed.

Lemma laplace_constant_field (n m : nat) (c : R) :
  laplace (constant_field n m c) = zeros n m.
Proof.
  apply zero_field_image.
  - apply (shaped_laplace (shaped_repeat n m c)).
  - intros i j Hi Hj. now apply laplace_constant.
Qed.

(** X5.  The Poisson operator handed to the pressure solve is singular and
    blind to the boundary: it sends every constant field to zero, each of
    its images is zero at every boundary entry, it keeps the length of its
    argument, and it raises on an argument of any other size than
    [N_POINTS * N_POINTS]. *)
Theorem poisson_operator_kernel_and_image
  (c : R) (l r l' : list R) (i j : nat) :
  poisson_operator l = Some r ->
  (i < N_POINTS)%nat -> (j < N_POINTS)%nat ->
  on_boundary N_POINTS N_POINTS i j ->
  length l' <> (N_POINTS * N_POINTS)%nat ->
  poisson_operator (repeat c (N_POINTS * N_POINTS))
    = Some (repeat 0 (N_POINTS * N_POINTS))
  /\ length r = length l
  /\ nth (i * N_POINTS + j) r 0 = 0
  /\ poisson_operator l' = None.
Proof.
  intros Hr Hi Hj Hb Hl'.
  split; [|split; [|split]].
  - unfold poisson_operator. rewrite reshape_scalar_constant. cbn [bind].
    now rewrite laplace_constant_field, <- flatten_scalar_constant.
  - unfold poisson_operator in Hr. apply bind_Some in Hr.
    destruct Hr as (a & Ha & [= <-]).
    destruct (reshape_scalar_Some _ _ Ha) as (Hl & Hshape & _).
    now rewrite (length_flatten_scalar _ _ _ (shaped_laplace Hshape)), Hl.
  - unfold poisson_operator in Hr. apply bind_Some in Hr.
    destruct Hr as (a & Ha & [= <-]).
    destruct (reshape_scalar_Some _ _ Ha) as (_ & Hshape & _).
    rewrite (nth_flatten_scalar _ _ _ _ _ (shaped_laplace Hshape) Hi Hj).
    exact (laplace_boundary Hi Hj Hb Hshape).
  - unfold poisson_operator, reshape_scalar.
    now rewrite (proj2 (Nat.eqb_neq _ _) Hl').
Qed.

Lemma poisson_operator_kernel_and_image_witness :
  poisson_operator (repeat 7 (N_POINTS * N_POINTS))
    = Some (repeat 0 (N_POINTS * N_POINTS))
  /\ length (repeat 0 (N_POINTS * N_POINTS))
     = length (repeat 7 (N_POINTS * N_POINTS))
  /\ nth (0 * N_POINTS + 5) (repeat 0 (N_POINTS * N_POINTS)) 0 = 0
  /\ poisson_operator [1; 2; 3] = None.
Proof.
  assert (Hk : poisson_operator (repeat 7 (N_POINTS * N_POINTS))
               = Some (repeat 0 (N_POINTS * N_POINTS))).
  { unfold poisson_operator. rewrite reshape_scalar_constant. cbn [bind].
    now rewrite laplace_constant_field, <- flatten_scalar_constant. }
  apply (poisson_operator_kernel_and_image 7
           (repeat 7 (N_POINTS * N_POINTS)) (repeat 0 (N_POINTS * N_POINTS))
           [1; 2; 3] 0 5).
  - exact Hk.
  - unfold N_POINTS; lia.
  - unfold N_POINTS; lia.
  - left. reflexivity.
  - unfold N_POINTS. simpl. lia.
Defined.

Lemma temperature_diffusion_operator_constant (c : R) :
  temperature_diffusion_operator (repeat c (N_POINTS * N_POINTS))
  = Some (repeat c (N_POINTS * N_POINTS)).
Proof.
  unfold temperature_diffusion_operator.
  rewrite reshape_scalar_constant. cbn [bind].
  rewrite laplace_constant_field, <- flatten_scalar_constant. do 2 f_equal.
  pose proof (shaped_repeat N_POINTS N_POINTS c) as Hc.
  pose proof (shaped_zeros (E := R) N_POINTS N_POINTS) as Hz.
  apply (array_ext 0
           (shaped_zip2d Rminus _ _ _ _ Hc (shaped_map2d _ _ _ _ Hz)) Hc).
  intros k l0 Hk Hl0. unfold constant_field.
  rewrite (get2_zip2d Rminus 0 0 0 Hc (shaped_map2d _ _ _ _ Hz) Hk Hl0).
  rewrite (get2_map2d _ 0 0 Hz Hk Hl0).
  pose proof (get2_zeros (E := R) N_POINTS N_POINTS k l0 Hk Hl0) as H0.
  cbn [ezero Elem_R] in H0. rewrite H0. ring.
Qed.

(** X6.  The operator of the temperature solve, [T - kappa dt laplace(T)],
    leaves constant fields unchanged and copies every boundary entry of its
    argument: an exact solve returns the right-hand side on the boundary. *)
Theorem temperature_diffusion_operator_fixes_boundary
  (c : R) (l r : list R) (i j : nat) :
  temperature_diffusion_operator l = Some r ->
  (i < N_POINTS)%nat -> (j < N_POINTS)%nat ->
  on_boundary N_POINTS N_POINTS i j ->
  temperature_diffusion_operator (repeat c (N_POINTS * N_POINTS))
    = Some (repeat c (N_POINTS * N_POINTS))
  /\ length r = length l
  /\ nth (i * N_POINTS + j) r 0 = nth (i * N_POINTS + j) l 0.
Proof.
  intros Hr Hi Hj Hb.
  assert (Hshape_op : forall a, shaped N_POINTS N_POINTS a ->
            shaped N_POINTS N_POINTS
              (zip2d Rminus a
                 (map2d (Rmult (TEMPERATURE_DIFFUSIVITY * TIME_STEP_LENGTH))
                    (laplace a)))).
  { intros a Ha. apply shaped_zip2d; auto.
    apply shaped_map2d, (shaped_laplace Ha). }
  split; [|split].
  - apply temperature_diffusion_operator_constant.
  - unfold temperature_diffusion_operator in Hr. apply bind_Some in Hr.
    destruct Hr as (a & Ha & [= <-]).
    destruct (reshape_scalar_Some _ _ Ha) as (Hl & Hshape & _).
    now rewrite (length_flatten_scalar _ _ _ (Hshape_op a Hshape)), Hl.
  - unfold temperature_diffusion_operator in Hr. apply bind_Some in Hr.
    destruct Hr as (a & Ha & [= <-]).
    destruct (reshape_scalar_Some _ _ Ha) as (_ & Hshape & Hget).
    rewrite (nth_flatten_scalar _ _ _ _ _ (Hshape_op a Hshape) Hi Hj).
    rewrite (get2_zip2d Rminus 0 0 0 Hshape
               (shaped_map2d _ _ _ _ (shaped_laplace Hshape)) Hi Hj).
    rewrite (get2_map2d _ 0 0 (shaped_laplace Hshape) Hi Hj).
    pose proof (laplace_boundary Hi Hj Hb Hshape) as H0.
    cbn [ezero Elem_R] in H0. rewrite H0, (Hget i j Hi Hj). ring.
Qed.

Lemma temperature_diffusion_operator_fixes_boundary_witness :
  let l := repeat 2 (N_POINTS * N_POINTS) in
  temperature_diffusion_operator (repeat 3 (N_POINTS * N_POINTS))
    = Some (repeat 3 (N_POINTS * N_POINTS))
  /\ length l = length l
  /\ nth (40 * N_POINTS + 5) l 0 = nth (40 * N_POINTS + 5) l 0.
Proof.
  apply (temperature_diffusion_operator_fixes_boundary 3
           (repeat 2 (N_POINTS * N_POINTS)) (repeat 2 (N_POINTS * N_POINTS))
           40 5).
  - apply temperature_diffusion_operator_constant.
  - unfold N_POINTS; lia.
  - unfold N_POINTS; lia.
  - right. left. reflexivity.
Defined.

(** ** The eddy viscosity follows the velocity *)

Lemma map2d_map2d {A B C : Type} (g : B -> C) (h : A -> B) (a : list (list A)) :
  map2d g (map2d h a) = map2d (fun e => g (h e)) a.
Proof.
  unfold map2d. rewrite map_map. apply map_ext. intros row. apply map_map.
Qed.

Lemma map2d_ext {A B : Type} (g h : A -> B) (a : list (list A)) :
  (forall e, g e = h e) -> map2d g a = map2d h a.
Proof.
  intros Hgh. unfold map2d. apply map_ext. intros row. now apply map_ext.
Qed.

Section ScaledField.
Variables (n m : nat) (k : R) (f : list (list R)).
Hypothesis Hf : shaped n m f.

Let Hkf : shaped n m (map2d (Rmult k) f) := shaped_map2d (Rmult k) n m f Hf.

Lemma partial_derivative_x_scaled (i j : nat) :
  (i < n)%nat -> (j < m)%nat ->
  get2 0 (partial_derivative_x (map2d (Rmult k) f)) i j
  = k * get2 0 (partial_derivative_x f) i j.
Proof.
  intros Hi Hj.
  pose proof (get2_partial_derivative_x Hkf Hi Hj) as Hs.
  pose proof (get2_partial_derivative_x Hf Hi Hj) as Hx.
  cbn [ezero eadd esub ediv escale Elem_R] in Hs, Hx. rewrite Hs, Hx.
  destruct (interior n m i j) eqn:Hint; [|ring].
  apply interior_true in Hint.
  rewrite !(get2_map2d (Rmult k) 0 0 Hf) by lia.
  unfold Rdiv. ring.
Qed.

Lemma partial_derivative_y_scaled (i j : nat) :
  (i < n)%nat -> (j < m)%nat ->
  get2 0 (partial_derivative_y (map2d (Rmult k) f)) i j
  = k * get2 0 (partial_derivative_y f) i j.
Proof.
  intros Hi Hj.
  pose proof (get2_partial_derivative_y Hkf Hi Hj) as Hs.
  pose proof (get2_partial_derivative_y Hf Hi Hj) as Hy.
  cbn [ezero eadd esub ediv escale Elem_R] in Hs, Hy. rewrite Hs, Hy.
  destruct (interior n m i j) eqn:Hint; [|ring].
  apply interior_true in Hint.
  rewrite !(get2_map2d (Rmult k) 0 0 Hf) by lia.
  unfold Rdiv. ring.
Qed.
End ScaledField.

Lemma strain_rate_scaled (n m : nat) (k : R) (v : list (list (R * R)))
  (i j : nat) :
  shaped n m v -> (i < n)%nat -> (j < m)%nat ->
  get2 0 (compute_strain_rate (map2d (escale k) v)) i j
  = Rabs k * get2 0 (compute_strain_rate v) i j.
Proof.
  intros Hv Hi Hj.
  pose proof (shaped_map2d (escale k) _ _ _ Hv) as Hkv.
  pose proof (shaped_map2d fst _ _ _ Hv) as Hu.
  pose proof (shaped_map2d snd _ _ _ Hv) as Hw.
  rewrite (get2_compute_strain_rate Hkv Hi Hj),
    (get2_compute_strain_rate Hv Hi Hj).
  cbv zeta.
  rewrite !map2d_map2d.
  rewrite (map2d_ext (fun e : R * R => fst (escale k e))
             (fun e => k * fst e)) by (now intros [a b]).
  rewrite (map2d_ext (fun e : R * R => snd (escale k e))
             (fun e => k * snd e)) by (now intros [a b]).
  rewrite <- (map2d_map2d (Rmult k) fst v), <- (map2d_map2d (Rmult k) snd v).
  rewrite !(partial_derivative_x_scaled n m k _ Hu), 
    !(partial_derivative_x_scaled n m k _ Hw),
    !(partial_derivative_y_scaled n m k _ Hu),
    !(partial_derivative_y_scaled n m k _ Hw) by auto.
  set (a := get2 0 (partial_derivative_x (map2d fst v)) i j).
  set (b := get2 0 (partial_derivative_y (map2d snd v)) i j).
  set (c := get2 0 (partial_derivative_y (map2d fst v)) i j).
  set (d := get2 0 (partial_derivative_x (map2d snd v)) i j).
  replace (2 * ((k * a) ^ 2 + (k * b) ^ 2 + 2 * (0.5 * (k * c + k * d)) ^ 2))
    with (Rsqr k * (2 * (a ^ 2 + b ^ 2 + 2 * (0.5 * (c + d)) ^ 2)))
    by (unfold Rsqr; ring).
  rewrite sqrt_mult.
  - now rewrite sqrt_Rsqr_abs.
  - apply Rle_0_sqr.
  - assert (0 <= (0.5 * (c + d)) ^ 2) by apply pow2_ge_0.
    pose proof (pow2_ge_0 a). pose proof (pow2_ge_0 b). lra.
Qed.

(** X7.  The eddy viscosity is computed from the field the operator is
    applied to, and scales with it: multiplying a velocity field by [k]
    multiplies the strain-rate magnitude and the turbulent viscosity by
    [|k|] at every grid point, so the effective viscosity of [k v] is
    [nu + |k| nu_t(v)]; the turbulent diffusion operator is therefore not
    one fixed linear operator. *)
Theorem eddy_viscosity_scales_with_velocity
  (n m : nat) (k : R) (v : list (list (R * R))) (i j : nat) :
  shaped n m v -> (i < n)%nat -> (j < m)%nat ->
  get2 0 (compute_strain_rate (map2d (escale k) v)) i j
    = Rabs k * get2 0 (compute_strain_rate v) i j
  /\ get2 0 (compute_turbulent_viscosity (map2d (escale k) v)) i j
    = Rabs k * get2 0 (compute_turbulent_viscosity v) i j
  /\ get2 0 (effective_viscosity (map2d (escale k) v)) i j
    = KINEMATIC_VISCOSITY
      + Rabs k * get2 0 (compute_turbulent_viscosity v) i j.
Proof.
  intros Hv Hi Hj.
  pose proof (shaped_map2d (escale k) _ _ _ Hv) as Hkv.
  pose proof (strain_rate_scaled n m k v i j Hv Hi Hj) as Hs.
  assert (Hnu : get2 0 (compute_turbulent_viscosity (map2d (escale k) v)) i j
                = Rabs k * get2 0 (compute_turbulent_viscosity v) i j).
  { rewrite (get2_compute_turbulent_viscosity Hkv Hi Hj),
      (get2_compute_turbulent_viscosity Hv Hi Hj), Hs. ring. }
  split; [exact Hs|]. split; [exact Hnu|].
  now rewrite (get2_effective_viscosity Hkv Hi Hj), Hnu.
Qed.

Lemma eddy_viscosity_scales_with_velocity_witness :
  let v := [[(1, 2); (3, 4); (5, 6)];
            [(7, 8); (9, 1); (2, 3)];
            [(4, 5); (6, 7); (8, 9)]] in
  get2 0 (compute_strain_rate (map2d (escale (-2)) v)) 1 1
    = Rabs (-2) * get2 0 (compute_strain_rate v) 1 1
  /\ get2 0 (compute_turbulent_viscosity (map2d (escale (-2)) v)) 1 1
    = Rabs (-2) * get2 0 (compute_turbulent_viscosity v) 1 1
  /\ get2 0 (effective_viscosity (map2d (escale (-2)) v)) 1 1
    = KINEMATIC_VISCOSITY
      + Rabs (-2) * get2 0 (compute_turbulent_viscosity v) 1 1.
Proof.
  apply (eddy_viscosity_scales_with_velocity 3 3 (-2)
           [[(1, 2); (3, 4); (5, 6)];
            [(7, 8); (9, 1); (2, 3)];
            [(4, 5); (6, 7); (8, 9)]] 1 1).
  - reflexivity.
  - lia.
  - lia.
Defined.

(** ** Uniform flows *)

Lemma reshape_vector_flatten (v : list (list (R * R))) :
  shaped N_POINTS N_POINTS v -> reshape_vector (flatten_vector v) = Some v.
Proof.
  intros Hv. unfold reshape_vector.
  rewrite (length_flatten_vector _ _ _ Hv).
  replace (N_POINTS * (N_POINTS * 2))%nat
    with (N_POINTS * N_POINTS * 2)%nat by lia.
  rewrite Nat.eqb_refl. f_equal.
  apply (array_ext (0, 0) (shaped_tabulate2 _ _ _) Hv).
  intros i j Hi Hj. rewrite get2_tabulate2 by auto.
  destruct (nth_flatten_vector _ _ _ i j Hv Hi Hj) as [-> ->].
  now destruct (get2 (0, 0) v i j).
Qed.

Lemma diffused_component_constant (n m : nat) (effective : list (list R))
  (c : R) (i j : nat) :
  shaped n m effective -> (i < n)%nat -> (j < m)%nat ->
  get2 0 (diffused_component effective (constant_field n m c)) i j = c.
Proof.
  intros He Hi Hj.
  pose proof (shaped_repeat n m c) as Hc. fold (constant_field n m c) in Hc.
  rewrite (get2_diffused_component He Hc Hi Hj).
  assert (Hflux : zip2d (fun nu g => escale nu g) effective
                    (gradient (constant_field n m c))
                  = constant_field n m (0, 0)).
  { apply (array_ext (0, 0) (shaped_viscous_flux He Hc) (shaped_repeat n m _)).
    intros k l Hk Hl. rewrite (get2_viscous_flux He Hc Hk Hl).
    rewrite partial_derivative_x_constant, partial_derivative_y_constant by auto.
    unfold constant_field. rewrite get2_repeat by auto. f_equal; ring. }
  rewrite Hflux, divergence_constant by auto.
  unfold constant_field. rewrite get2_repeat by auto. ring.
Qed.

(** X8.  A uniform flow has no strain, and the turbulent diffusion operator
    returns it unchanged: every flattened constant velocity field, the zero
    field included, is a fixed point of [diffusion_operator_turbulent], and
    its effective viscosity is the molecular one at every grid point. *)
Theorem uniform_flow_is_fixed_by_turbulent_diffusion (c : R * R) (i j : nat) :
  (i < N_POINTS)%nat -> (j < N_POINTS)%nat ->
  diffusion_operator_turbulent
    (flatten_vector (constant_field N_POINTS N_POINTS c))
  = Some (flatten_vector (constant_field N_POINTS N_POINTS c))
  /\ get2 0 (effective_viscosity (constant_field N_POINTS N_POINTS c)) i j
     = KINEMATIC_VISCOSITY.
Proof.
  intros Hi Hj.
  pose proof (shaped_repeat N_POINTS N_POINTS c) as Hc.
  fold (constant_field N_POINTS N_POINTS c) in Hc.
  split.
  - destruct (diffusion_operator_turbulent_Some _ _ (reshape_vector_flatten _ Hc))
      as (d & Hd & Hshape & Hget).
    rewrite Hd. do 2 f_equal.
    apply (array_ext (0, 0) Hshape Hc).
    intros k l Hk Hl. rewrite (Hget k l Hk Hl).
    rewrite !map2d_constant_field.
    rewrite !diffused_component_constant
      by (auto; apply (shaped_effective_viscosity Hc)).
    unfold constant_field. rewrite get2_repeat by auto.
    now destruct c.
  - rewrite (get2_effective_viscosity Hc Hi Hj),
      (get2_compute_turbulent_viscosity Hc Hi Hj),
      (get2_compute_strain_rate Hc Hi Hj).
    cbv zeta. rewrite !map2d_constant_field.
    rewrite !partial_derivative_x_constant, !partial_derivative_y_constant
      by auto.
    replace (2 * (0 ^ 2 + 0 ^ 2 + 2 * (0.5 * (0 + 0)) ^ 2)) with 0 by lra.
    rewrite sqrt_0. ring.
Qed.

Lemma uniform_flow_is_fixed_by_turbulent_diffusion_witness :
  diffusion_operator_turbulent
    (flatten_vector (constant_field N_POINTS N_POINTS (3, -1)))
  = Some (flatten_vector (constant_field N_POINTS N_POINTS (3, -1)))
  /\ get2 0 (effective_viscosity (constant_field N_POINTS N_POINTS (3, -1)))
       20 20
     = KINEMATIC_VISCOSITY.
Proof.
  apply (uniform_flow_is_fixed_by_turbulent_diffusion (3, -1) 20 20).
  - unfold N_POINTS; lia.
  - unfold N_POINTS; lia.
Defined.

(** ** Advection where nothing moves, and the range of advected values *)

Lemma get2_advect {E : Type} `{Elem E} (field : list (list E))
  (vector_field : list (list (R * R))) (i j : nat) :
  shaped N_POINTS N_POINTS field -> shaped N_POINTS N_POINTS vector_field ->
  (i < N_POINTS)%nat -> (j < N_POINTS)%nat ->
  exists advected,
    advect field vector_field = Some advected
    /\ shaped N_POINTS N_POINTS advected
    /\ get2 ezero advected i j
       = evaluate_linear (x, y) field
           (get2 (0, 0) (backtraced_positions vector_field) i j).
Proof.
  intros Hf Hv Hi Hj.
  pose proof (shaped_backtraced_positions _ Hv) as Hb.
  eexists. split; [apply (advect_Some _ _ Hf Hv)|]. split.
  - now apply shaped_map2d.
  - apply (get2_map2d _ (0, 0) ezero Hb Hi Hj).
Qed.

(** X9.  A grid point where the transport velocity is [(0, 0)] keeps its
    value through the advection, whatever the velocity elsewhere; such are
    the obstacle points when the temperature is advected, their velocity
    having been zeroed just before. *)
Theorem advection_keeps_values_where_velocity_vanishes
  (E : Type) (EE : Elem E) (field : list (list E))
  (vector_field : list (list (R * R))) (i j : nat) :
  shaped N_POINTS N_POINTS field -> shaped N_POINTS N_POINTS vector_field ->
  (i < N_POINTS)%nat -> (j < N_POINTS)%nat ->
  get2 (0, 0) vector_field i j = (0, 0) ->
  exists advected,
    advect field vector_field = Some advected
    /\ get2 ezero advected i j = get2 ezero field i j.
Proof.
  intros Hf Hv Hi Hj Hzero.
  destruct (get2_advect field vector_field i j Hf Hv Hi Hj)
    as (advected & Hadv & _ & Hget).
  exists advected. split; [exact Hadv|].
  rewrite Hget, (get2_backtraced_positions _ i j Hv Hi Hj), Hzero.
  cbn [fst snd].
  rewrite !clip_id.
  - replace (nth i x 0 - TIME_STEP_LENGTH * 0) with (nth i x 0) by ring.
    replace (nth j y 0 - TIME_STEP_LENGTH * 0) with (nth j y 0) by ring.
    now apply evaluate_linear_at_node.
  - rewrite nth_y by exact Hj. pose proof (node_in_domain j Hj). lra.
  - rewrite nth_x by exact Hi. pose proof (node_in_domain i Hi). lra.
Qed.

Lemma advection_keeps_values_where_velocity_vanishes_witness :
  let field := tabulate2 N_POINTS N_POINTS (fun i j => INR i * INR j) in
  let vector_field :=
    tabulate2 N_POINTS N_POINTS
      (fun i j => (INR i - 20, INR j - 20)) in
  exists advected,
    advect field vector_field = Some advected
    /\ get2 0 advected 20 20 = get2 0 field 20 20.
Proof.
  apply (advection_keeps_values_where_velocity_vanishes R Elem_R
           (tabulate2 N_POINTS N_POINTS (fun i j => INR i * INR j))
           (tabulate2 N_POINTS N_POINTS (fun i j => (INR i - 20, INR j - 20)))
           20 20).
  - apply shaped_tabulate2.
  - apply shaped_tabulate2.
  - unfold N_POINTS; lia.
  - unfold N_POINTS; lia.
  - rewrite get2_tabulate2 by (unfold N_POINTS; lia).
    f_equal; simpl; lra.
Defined.

Lemma searchsorted_spec (grid : list R) (p : R) :
  (searchsorted grid p <= length grid)%nat
  /\ (forall a, (a < searchsorted grid p)%nat -> nth a grid 0 < p)
  /\ ((searchsorted grid p < length grid)%nat ->
      ~ nth (searchsorted grid p) grid 0 < p).
Proof.
  induction grid as [|g rest (IHlen & IHlow & IHup)]; cbn [searchsorted].
  - split; [|split]; simpl; intros; lia.
  - destruct (Rlt_dec g p) as [Hlt|Hge].
    + split; [|split].
      * simpl. lia.
      * intros [|a] Ha; [exact Hlt|]. cbn [nth]. apply IHlow. lia.
      * intros Hs. cbn [nth]. apply IHup. simpl in Hs. lia.
    + split; [|split].
      * simpl. lia.
      * intros a Ha. lia.
      * intros _. exact Hge.
Qed.

(** A point of the domain lies in the cell found for it: the cell index is
    at most [N_POINTS - 2] and the normalised distance is in [[0, 1]]. *)
Lemma cell_of_point (p : R) :
  0 <= p <= DOMAIN_SIZE ->
  (S (find_index x p) < N_POINTS)%nat /\ 0 <= norm_distance x p <= 1.
Proof.
  intros Hp.
  destruct (searchsorted_spec x p) as (Hlen & Hlow & Hup).
  rewrite length_x in Hlen, Hup.
  pose proof element_length_pos as Hpos.
  pose proof N_POINTS_value as HN.
  unfold norm_distance, find_index. rewrite length_x.
  set (s := searchsorted x p) in *.
  destruct (Nat.eq_dec s 0) as [Hs0|Hs0].
  - rewrite Hs0. replace (Nat.min (0 - 1) (N_POINTS - 2)) with 0%nat by lia.
    split; [lia|].
    assert (Hnot : ~ nth 0 x 0 < p) by (rewrite <- Hs0; apply Hup; lia).
    rewrite !nth_x in * by lia. simpl INR in *.
    assert (Hp0 : p = 0) by lra. rewrite Hp0.
    replace ((0 - 0 * element_length) / (1 * element_length - 0 * element_length))
      with 0 by (field; lra).
    lra.
  - assert (Hbelow : nth (s - 1) x 0 < p) by (apply Hlow; lia).
    assert (HsN : (s < N_POINTS)%nat).
    { destruct (Nat.eq_dec s N_POINTS) as [HeqN|]; [|lia].
      exfalso. rewrite HeqN, nth_x in Hbelow by lia.
      replace (INR (N_POINTS - 1)) with 40 in Hbelow
        by (rewrite HN; simpl; lra).
      rewrite element_length_value in Hbelow. unfold DOMAIN_SIZE in Hp. lra. }
    specialize (Hup HsN).
    replace (Nat.min (s - 1) (N_POINTS - 2)) with (s - 1)%nat by lia.
    split; [lia|].
    replace (S (s - 1)) with s by lia.
    rewrite !nth_x in * by lia.
    replace (INR s) with (INR (s - 1) + 1) in *
      by (rewrite minus_INR by lia; simpl; ring).
    set (a := INR (s - 1)) in *.
    assert (Hden : (a + 1) * element_length - a * element_length
                   = element_length) by ring.
    rewrite Hden. split.
    + apply Rmult_le_pos; [lra|]. apply Rlt_le, Rinv_0_lt_compat, Hpos.
    + apply (Rmult_le_reg_r element_length); [exact Hpos|].
      unfold Rdiv. rewrite Rmult_assoc, Rinv_l by lra. lra.
Qed.

Lemma convex_combination_bounds (t u a b c d lo hi : R) :
  0 <= t <= 1 -> 0 <= u <= 1 ->
  lo <= a <= hi -> lo <= b <= hi -> lo <= c <= hi -> lo <= d <= hi ->
  lo <= 0 + 1 * (1 - t) * (1 - u) * a + 1 * (1 - t) * u * b
          + 1 * t * (1 - u) * c + 1 * t * u * d <= hi.
Proof.
  intros Ht Hu Ha Hb Hc Hd.
  set (w1 := (1 - t) * (1 - u)). set (w2 := (1 - t) * u).
  set (w3 := t * (1 - u)). set (w4 := t * u).
  assert (H1 : 0 <= w1) by (apply Rmult_le_pos; lra).
  assert (H2 : 0 <= w2) by (apply Rmult_le_pos; lra).
  assert (H3 : 0 <= w3) by (apply Rmult_le_pos; lra).
  assert (H4 : 0 <= w4) by (apply Rmult_le_pos; lra).
  assert (Hsum : w1 + w2 + w3 + w4 = 1) by (unfold w1, w2, w3, w4; ring).
  replace (0 + 1 * (1 - t) * (1 - u) * a + 1 * (1 - t) * u * b
           + 1 * t * (1 - u) * c + 1 * t * u * d)
    with (w1 * a + w2 * b + w3 * c + w4 * d)
    by (unfold w1, w2, w3, w4; ring).
  assert (0 <= w1 * (a - lo)) by (apply Rmult_le_pos; lra).
  assert (0 <= w1 * (hi - a)) by (apply Rmult_le_pos; lra).
  assert (0 <= w2 * (b - lo)) by (apply Rmult_le_pos; lra).
  assert (0 <= w2 * (hi - b)) by (apply Rmult_le_pos; lra).
  assert (0 <= w3 * (c - lo)) by (apply Rmult_le_pos; lra).
  assert (0 <= w3 * (hi - c)) by (apply Rmult_le_pos; lra).
  assert (0 <= w4 * (d - lo)) by (apply Rmult_le_pos; lra).
  assert (0 <= w4 * (hi - d)) by (apply Rmult_le_pos; lra).
  split; nra.
Qed.

Lemma evaluate_linear_bounds (field : list (list R)) (lo hi : R) (p : R * R) :
  (forall k l, (k < N_POINTS)%nat -> (l < N_POINTS)%nat ->
     lo <= get2 0 field k l <= hi) ->
  0 <= fst p <= DOMAIN_SIZE -> 0 <= snd p <= DOMAIN_SIZE ->
  lo <= evaluate_linear (x, y) field p <= hi.
Proof.
  intros Hrange Hx Hy. unfold evaluate_linear.
  cbn [fst snd eadd escale ezero Elem_R].
  destruct (cell_of_point _ Hx) as (Hi & Ht).
  destruct (cell_of_point _ Hy) as (Hj & Hu).
  change y with x.
  apply convex_combination_bounds; auto; apply Hrange; lia.
Qed.

(** X10.  Advection creates no new extreme value: if every entry of a
    scalar field lies between [lo] and [hi], so does every entry of the
    advected field, for every transport velocity; in particular a uniformly
    constant field is advected to itself. *)
Theorem advection_stays_within_the_range_of_the_field
  (field : list (list R)) (vector_field : list (list (R * R)))
  (lo hi : R) (i j : nat) :
  shaped N_POINTS N_POINTS field -> shaped N_POINTS N_POINTS vector_field ->
  (forall k l, (k < N_POINTS)%nat -> (l < N_POINTS)%nat ->
     lo <= get2 0 field k l <= hi) ->
  (i < N_POINTS)%nat -> (j < N_POINTS)%nat ->
  exists advected,
    advect field vector_field = Some advected
    /\ lo <= get2 0 advected i j <= hi.
Proof.
  intros Hf Hv Hrange Hi Hj.
  destruct (get2_advect field vector_field i j Hf Hv Hi Hj)
    as (advected & Hadv & _ & Hget).
  exists advected. split; [exact Hadv|].
  cbn [ezero Elem_R] in Hget. rewrite Hget.
  destruct (backtraced_positions_in_domain _ i j Hv Hi Hj) as [Hx Hy].
  now apply evaluate_linear_bounds.
Qed.

Lemma advection_stays_within_the_range_of_the_field_witness :
  let field := constant_field N_POINTS N_POINTS 3 in
  let vector_field :=
    tabulate2 N_POINTS N_POINTS (fun i j => (INR j, - INR i)) in
  exists advected,
    advect field vector_field = Some advected
    /\ 3 <= get2 0 advected 7 9 <= 3.
Proof.
  apply (advection_stays_within_the_range_of_the_field
           (constant_field N_POINTS N_POINTS 3)
           (tabulate2 N_POINTS N_POINTS (fun i j => (INR j, - INR i)))
           3 3 7 9).
  - apply shaped_repeat.
  - apply shaped_tabulate2.
  - intros k l Hk Hl. unfold constant_field. rewrite get2_repeat by auto. lra.
  - unfold N_POINTS; lia.
  - unfold N_POINTS; lia.
Defined.

(** ** The force generators in time *)

Lemma shaped_external_force_any (n m : nat) (time : R)
  (coords : list (list (R * R))) :
  shaped n m coords -> shaped n m (external_force time coords).
Proof.
  intros Hc. unfold external_force.
  apply shaped_map2d, shaped_zip2d.
  - now apply shaped_zeros_like.
  - now apply shaped_map2d.
Qed.

Lemma get2_external_force (n m : nat) (time : R)
  (coords : list (list (R * R))) (i j : nat) :
  shaped n m coords -> (i < n)%nat -> (j < m)%nat ->
  get2 (0, 0) (external_force time coords) i j
  = (0.1 * sin (2 * PI * snd (get2 (0, 0) coords i j)),
     -0.1 * sin (2 * PI * time / 10)).
Proof.
  intros Hc Hi Hj. unfold external_force. cbv zeta.
  pose proof (shaped_zeros_like _ _ _ Hc) as Hz.
  pose proof (shaped_map2d (fun c : R * R => 0.1 * sin (2 * PI * snd c))
                _ _ _ Hc) as Hx.
  rewrite (get2_map2d _ (0, 0) (0, 0)
             (shaped_zip2d (fun (ff : R * R) (fx : R) => (fx, snd ff))
                _ _ _ _ Hz Hx) Hi Hj).
  rewrite (get2_zip2d _ (0, 0) 0 (0, 0) Hz Hx Hi Hj).
  rewrite (get2_map2d _ (0, 0) 0 Hc Hi Hj).
  reflexivity.
Qed.

(** X11.  The external force has period [10] in time, each of its
    components stays within [-0.1, 0.1], its x-component does not depend on
    the time and its y-component does not depend on the grid point. *)
Theorem external_force_periodic_and_bounded
  (n m : nat) (time time' : R) (coords : list (list (R * R)))
  (i j i' j' : nat) :
  shaped n m coords ->
  (i < n)%nat -> (j < m)%nat -> (i' < n)%nat -> (j' < m)%nat ->
  external_force (time + 10) coords = external_force time coords
  /\ -0.1 <= fst (get2 (0, 0) (external_force time coords) i j) <= 0.1
  /\ -0.1 <= snd (get2 (0, 0) (external_force time coords) i j) <= 0.1
  /\ fst (get2 (0, 0) (external_force time coords) i j)
     = fst (get2 (0, 0) (external_force time' coords) i j)
  /\ snd (get2 (0, 0) (external_force time coords) i j)
     = snd (get2 (0, 0) (external_force time coords) i' j').
Proof.
  intros Hc Hi Hj Hi' Hj'.
  split; [|split; [|split; [|split]]].
  - unfold external_force. cbv zeta.
    replace (2 * PI * (time + 10) / 10) with (2 * PI * time / 10 + 2 * PI)
      by field.
    now rewrite sin_plus, sin_2PI, cos_2PI, Rmult_0_r, Rmult_1_r, Rplus_0_r.
  - rewrite (get2_external_force n m time coords i j Hc Hi Hj). cbn [fst].
    pose proof (SIN_bound (2 * PI * snd (get2 (0, 0) coords i j))). lra.
  - rewrite (get2_external_force n m time coords i j Hc Hi Hj). cbn [snd].
    pose proof (SIN_bound (2 * PI * time / 10)). lra.
  - now rewrite !(get2_external_force n m _ coords i j Hc Hi Hj).
  - now rewrite (get2_external_force n m time coords i j Hc Hi Hj),
      (get2_external_force n m time coords i' j' Hc Hi' Hj').
Qed.

Lemma external_force_periodic_and_bounded_witness :
  let coords := [[(0, 0); (0, 0.5)]; [(1, 0); (1, 0.5)]] in
  external_force (0.3 + 10) coords = external_force 0.3 coords
  /\ -0.1 <= fst (get2 (0, 0) (external_force 0.3 coords) 1 1) <= 0.1
  /\ -0.1 <= snd (get2 (0, 0) (external_force 0.3 coords) 1 1) <= 0.1
  /\ fst (get2 (0, 0) (external_force 0.3 coords) 1 1)
     = fst (get2 (0, 0) (external_force 7 coords) 1 1)
  /\ snd (get2 (0, 0) (external_force 0.3 coords) 1 1)
     = snd (get2 (0, 0) (external_force 0.3 coords) 0 0).
Proof.
  apply (external_force_periodic_and_bounded 2 2 0.3 7
           [[(0, 0); (0, 0.5)]; [(1, 0); (1, 0.5)]] 1 1 0 0).
  - reflexivity.
  - lia.
  - lia.
  - lia.
  - lia.
Defined.

(** X12.  The forcing never pushes along x and dies out: its x-component is
    zero at every time and point, its y-component is [2 - 0.5 t] inside the
    region until [t = 4] and lies in [[0, 2]] for [t >= 0], it does not
    increase with time, and from [t = 4] on the forcing is [(0, 0)]
    everywhere. *)
Theorem forcing_decays_to_zero (time time' : R) (point : R * R) :
  0 <= time -> time <= time' ->
  fst (forcing_function time point) = 0
  /\ 0 <= snd (forcing_function time point) <= 2
  /\ snd (forcing_function time' point) <= snd (forcing_function time point)
  /\ (in_forcing_region point -> time <= 4 ->
      snd (forcing_function time point) = 2 - 0.5 * time)
  /\ (4 <= time -> forcing_function time point = (0, 0)).
Proof.
  intros Ht Htt'.
  assert (Hform : forall t,
            (~ in_forcing_region point /\ forcing_function t point = (0, 0))
            \/ (in_forcing_region point
                /\ forcing_function t point = (0, Rmax (2.0 - 0.5 * t) 0.0))).
  { intros t.
    destruct (Rgtb (fst point) 0.4 && Rltb (fst point) 0.6
              && Rgtb (snd point) 0.1 && Rltb (snd point) 0.3) eqn:Htest.
    - right. apply forcing_region_test in Htest.
      split; [exact Htest|now apply forcing_function_inside].
    - left.
      assert (Hout : ~ in_forcing_region point)
        by (intros Hin; apply forcing_region_test in Hin; congruence).
      split; [exact Hout|now apply forcing_function_outside]. }
  assert (Hmax : forall t, Rmax (2.0 - 0.5 * t) 0.0
                           = if Rle_dec (2.0 - 0.5 * t) 0.0 then 0.0
                             else 2.0 - 0.5 * t)
    by (intros t; unfold Rmax; now destruct (Rle_dec _ _)).
  split; [|split; [|split; [|split]]].
  - destruct (Hform time) as [[_ ->]|[_ ->]]; reflexivity.
  - destruct (Hform time) as [[_ ->]|[_ ->]]; cbn [snd]; [lra|].
    rewrite Hmax. destruct (Rle_dec _ _); lra.
  - destruct (Hform time) as [[Hout H0]|[Hin H1]];
      destruct (Hform time') as [[Hout' H0']|[Hin' H1']];
      try contradiction.
    + rewrite H0, H0'. cbn [snd]. lra.
    + rewrite H1, H1'. cbn [snd]. rewrite !Hmax.
      repeat destruct (Rle_dec _ _); lra.
  - intros Hin H4. rewrite (forcing_function_inside time point Hin). cbn [snd].
    rewrite Hmax. destruct (Rle_dec _ _); lra.
  - intros H4. destruct (Hform time) as [[_ ->]|[_ ->]]; [reflexivity|].
    rewrite Hmax. destruct (Rle_dec _ _); f_equal; lra.
Qed.

Lemma forcing_decays_to_zero_witness :
  fst (forcing_function 1 (0.5, 0.2)) = 0
  /\ 0 <= snd (forcing_function 1 (0.5, 0.2)) <= 2
  /\ snd (forcing_function 5 (0.5, 0.2)) <= snd (forcing_function 1 (0.5, 0.2))
  /\ (in_forcing_region (0.5, 0.2) -> 1 <= 4 ->
      snd (forcing_function 1 (0.5, 0.2)) = 2 - 0.5 * 1)
  /\ (4 <= 1 -> forcing_function 1 (0.5, 0.2) = (0, 0)).
Proof.
  apply (forcing_decays_to_zero 1 5 (0.5, 0.2)); lra.
Defined.

(** ** The obstacle on the grid *)

Lemma Rltb_true (a b : R) : Rltb a b = true <-> a < b.
Proof.
  unfold Rltb. destruct (Rlt_dec a b); split; auto; discriminate.
Qed.

Lemma obstacle_mask_test (i j : nat) :
  (i < N_POINTS)%nat -> (j < N_POINTS)%nat ->
  get2 false obstacle_mask i j = true
  <-> ((Z.of_nat i - 20) * (Z.of_nat i - 20)
       + (Z.of_nat j - 20) * (Z.of_nat j - 20) < 16)%Z.
Proof.
  intros Hi Hj. unfold obstacle_mask.
  rewrite (get2_zip2d _ 0 0 false shaped_X shaped_Y Hi Hj).
  rewrite get2_X, get2_Y, nth_x, nth_y by auto.
  rewrite Rltb_true, element_length_value, !INR_IZR_INZ.
  unfold obstacle_center, obstacle_radius. cbn [fst snd].
  set (a := Z.of_nat i). set (b := Z.of_nat j).
  assert (Hreal : (IZR a * 0.025 - 0.5) ^ 2 + (IZR b * 0.025 - 0.5) ^ 2 < 0.1 ^ 2
                  <-> IZR ((a - 20) * (a - 20) + (b - 20) * (b - 20)) < IZR 16).
  { rewrite plus_IZR, !mult_IZR, !minus_IZR. split; intros H; nra. }
  rewrite Hreal. split; [apply lt_IZR|apply IZR_lt].
Qed.

(** X13.  In grid units the obstacle is the disc of radius 4 about the
    node (20, 20): a grid point with [(i - 20)^2 + (j - 20)^2 < 16] is in
    the mask and one with [(i - 20)^2 + (j - 20)^2 > 16] is not; so the
    obstacle stays clear of the boundary of the grid. *)
Theorem obstacle_mask_is_a_disc (i j : nat) :
  (i < N_POINTS)%nat -> (j < N_POINTS)%nat ->
  (((Z.of_nat i - 20) ^ 2 + (Z.of_nat j - 20) ^ 2 < 16)%Z ->
   get2 false obstacle_mask i j = true)
  /\ ((16 < (Z.of_nat i - 20) ^ 2 + (Z.of_nat j - 20) ^ 2)%Z ->
      get2 false obstacle_mask i j = false)
  /\ (on_boundary N_POINTS N_POINTS i j ->
      get2 false obstacle_mask i j = false).
Proof.
  intros Hi Hj.
  pose proof (obstacle_mask_test i j Hi Hj) as Htest.
  rewrite !Z.pow_2_r.
  split; [|split].
  - apply Htest.
  - intros Hout. apply not_true_iff_false. rewrite Htest. lia.
  - intros Hb. apply not_true_iff_false. rewrite Htest.
    unfold on_boundary in Hb. rewrite N_POINTS_value in *. nia.
Qed.

Lemma obstacle_mask_is_a_disc_witness :
  (((Z.of_nat 18 - 20) ^ 2 + (Z.of_nat 23 - 20) ^ 2 < 16)%Z ->
   get2 false obstacle_mask 18 23 = true)
  /\ ((16 < (Z.of_nat 18 - 20) ^ 2 + (Z.of_nat 23 - 20) ^ 2)%Z ->
      get2 false obstacle_mask 18 23 = false)
  /\ (on_boundary N_POINTS N_POINTS 18 23 ->
      get2 false obstacle_mask 18 23 = false).
Proof.
  apply (obstacle_mask_is_a_disc 18 23).
  - unfold N_POINTS; lia.
  - unfold N_POINTS; lia.
Defined.

(** ** The projection at the boundary *)




(** ** Vector fields, component by component *)

Section Componentwise.
Context {E : Type} `{Elem E}.
Variables (n m : nat) (v : list (list (E * E))).
Hypothesis Hv : shaped n m v.

Let Hv0 : shaped n m (map2d fst v) := shaped_map2d fst n m v Hv.
Let Hv1 : shaped n m (map2d snd v) := shaped_map2d snd n m v Hv.

Ltac componentwise op_shape op_get proj :=
  apply (array_ext ezero (shaped_map2d proj _ _ _ (op_shape _ _ _ _ _ Hv))
           (op_shape _ _ _ _ _ (shaped_map2d proj n m v Hv)));
  intros i j Hi Hj;
  rewrite (get2_map2d proj ezero ezero (op_shape _ _ _ _ _ Hv) Hi Hj);
  rewrite (op_get _ _ _ _ _ Hv _ _ Hi Hj);
  rewrite (op_get _ _ _ _ _ (shaped_map2d proj n m v Hv) _ _ Hi Hj);
  destruct (interior n m i j) eqn:Hint; [|reflexivity];
  apply interior_true in Hint;
  rewrite !(get2_map2d proj ezero ezero Hv) by lia;
  reflexivity.

Lemma partial_derivative_x_fst :
  map2d fst (partial_derivative_x v) = partial_derivative_x (map2d fst v).
Proof.
  componentwise (@shaped_partial_derivative_x) (@get2_partial_derivative_x)
    (@fst E E).
Qed.

Lemma partial_derivative_x_snd :
  map2d snd (partial_derivative_x v) = partial_derivative_x (map2d snd v).
Proof.
  componentwise (@shaped_partial_derivative_x) (@get2_partial_derivative_x)
    (@snd E E).
Qed.

Lemma partial_derivative_y_fst :
  map2d fst (partial_derivative_y v) = partial_derivative_y (map2d fst v).
Proof.
  componentwise (@shaped_partial_derivative_y) (@get2_partial_derivative_y)
    (@fst E E).
Qed.

Lemma partial_derivative_y_snd :
  map2d snd (partial_derivative_y v) = partial_derivative_y (map2d snd v).
Proof.
  componentwise (@shaped_partial_derivative_y) (@get2_partial_derivative_y)
    (@snd E E).
Qed.

Lemma laplace_fst : map2d fst (laplace v) = laplace (map2d fst v).
Proof.
  componentwise (@shaped_laplace) (@get2_laplace) (@fst E E).
Qed.

Lemma laplace_snd : map2d snd (laplace v) = laplace (map2d snd v).
Proof.
  componentwise (@shaped_laplace) (@get2_laplace) (@snd E E).
Qed.
End Componentwise.

Lemma diffusion_operator_component (n m : nat) (k : R)
  (v : list (list (R * R))) (proj : R * R -> R) :
  shaped n m v ->
  (forall a b : R * R, proj (esub a b) = proj a - proj b) ->
  (forall (c : R) (a : R * R), proj (escale c a) = c * proj a) ->
  map2d proj (laplace v) = laplace (map2d proj v) ->
  map2d proj (zip2d esub v (map2d (escale k) (laplace v)))
  = zip2d Rminus (map2d proj v) (map2d (Rmult k) (laplace (map2d proj v))).
Proof.
  intros Hv Hsub Hscale Hlap.
  pose proof (shaped_laplace Hv) as Hl.
  pose proof (shaped_map2d (escale k) _ _ _ Hl) as Hkl.
  pose proof (shaped_map2d proj _ _ _ Hv) as Hp.
  pose proof (shaped_laplace Hp) as Hlp.
  apply (array_ext 0
           (shaped_map2d proj _ _ _ (shaped_zip2d esub _ _ _ _ Hv Hkl))
           (shaped_zip2d Rminus _ _ _ _ Hp (shaped_map2d (Rmult k) _ _ _ Hlp))).
  intros i j Hi Hj.
  rewrite (get2_map2d proj (0, 0) 0 (shaped_zip2d esub _ _ _ _ Hv Hkl) Hi Hj).
  rewrite (get2_zip2d esub (0, 0) (0, 0) (0, 0) Hv Hkl Hi Hj).
  rewrite (get2_map2d (escale k) (0, 0) (0, 0) Hl Hi Hj).
  rewrite (get2_zip2d Rminus 0 0 0 Hp (shaped_map2d (Rmult k) _ _ _ Hlp) Hi Hj).
  rewrite (get2_map2d (Rmult k) 0 0 Hlp Hi Hj).
  rewrite <- Hlap.
  rewrite (get2_map2d proj (0, 0) 0 Hl Hi Hj), (get2_map2d proj (0, 0) 0 Hv Hi Hj).
  now rewrite Hsub, Hscale.
Qed.

(** X15.  On a field with a trailing component axis the stencil operators
    work component by component: a component of the result is the operator
    applied to that component.  So the molecular diffusion operator
    [diffusion_operator] is, on each velocity component [c], the scalar map
    [c - nu dt laplace(c)]. *)
Theorem operators_act_component_by_component
  (n m : nat) (v : list (list (R * R))) (flat : list R)
  (w : list (list (R * R))) :
  shaped n m v -> reshape_vector flat = Some w ->
  (map2d fst (partial_derivative_x v) = partial_derivative_x (map2d fst v)
   /\ map2d snd (partial_derivative_x v) = partial_derivative_x (map2d snd v)
   /\ map2d fst (partial_derivative_y v) = partial_derivative_y (map2d fst v)
   /\ map2d snd (partial_derivative_y v) = partial_derivative_y (map2d snd v)
   /\ map2d fst (laplace v) = laplace (map2d fst v)
   /\ map2d snd (laplace v) = laplace (map2d snd v))
  /\ exists diffusion_applied,
       diffusion_operator flat = Some (flatten_vector diffusion_applied)
       /\ map2d fst diffusion_applied
          = zip2d Rminus (map2d fst w)
              (map2d (Rmult (KINEMATIC_VISCOSITY * TIME_STEP_LENGTH))
                 (laplace (map2d fst w)))
       /\ map2d snd diffusion_applied
          = zip2d Rminus (map2d snd w)
              (map2d (Rmult (KINEMATIC_VISCOSITY * TIME_STEP_LENGTH))
                 (laplace (map2d snd w))).
Proof.
  intros Hv Hre. split.
  - repeat split.
    + apply (partial_derivative_x_fst n m v Hv).
    + apply (partial_derivative_x_snd n m v Hv).
    + apply (partial_derivative_y_fst n m v Hv).
    + apply (partial_derivative_y_snd n m v Hv).
    + apply (laplace_fst n m v Hv).
    + apply (laplace_snd n m v Hv).
  - destruct (reshape_vector_Some _ _ Hre) as (_ & Hw & _).
    unfold diffusion_operator. rewrite Hre. cbn [bind].
    eexists. split; [reflexivity|]. split.
    + apply (diffusion_operator_component N_POINTS N_POINTS _ w fst Hw);
        [reflexivity|reflexivity|apply (laplace_fst _ _ w Hw)].
    + apply (diffusion_operator_component N_POINTS N_POINTS _ w snd Hw);
        [reflexivity|reflexivity|apply (laplace_snd _ _ w Hw)].
Qed.

Lemma operators_act_component_by_component_witness :
  let v := [[(1, 2); (3, 4); (5, 6)];
            [(7, 8); (9, 1); (2, 3)];
            [(4, 5); (6, 7); (8, 9)]] in
  let flat := flatten_vector (constant_field N_POINTS N_POINTS (1, 2)) in
  (map2d fst (partial_derivative_x v) = partial_derivative_x (map2d fst v)
   /\ map2d snd (partial_derivative_x v) = partial_derivative_x (map2d snd v)
   /\ map2d fst (partial_derivative_y v) = partial_derivative_y (map2d fst v)
   /\ map2d snd (partial_derivative_y v) = partial_derivative_y (map2d snd v)
   /\ map2d fst (laplace v) = laplace (map2d fst v)
   /\ map2d snd (laplace v) = laplace (map2d snd v))
  /\ exists diffusion_applied,
       diffusion_operator flat = Some (flatten_vector diffusion_applied).
Proof.
  intros v flat.
  destruct (operators_act_component_by_component 3 3 v flat
              (constant_field N_POINTS N_POINTS (1, 2)))
    as [Hcomp (d & Hd & _)].
  - reflexivity.
  - apply reshape_vector_flatten, shaped_repeat.
  - split; [exact Hcomp|]. exists d. exact Hd.
Defined.

(** ** Linearity of the operators of the scalar solves *)

Section FlatLinearity.
Variables (a b : R) (l1 l2 : list R) (A1 A2 : list (list R)).
Hypotheses (H1 : reshape_scalar l1 = Some A1) (H2 : reshape_scalar l2 = Some A2).

Let S1 : shaped N_POINTS N_POINTS A1 :=
  proj1 (proj2 (reshape_scalar_Some l1 A1 H1)).
Let S2 : shaped N_POINTS N_POINTS A2 :=
  proj1 (proj2 (reshape_scalar_Some l2 A2 H2)).

Lemma reshape_scalar_lincomb :
  reshape_scalar (lincomb_flat a l1 b l2) = Some (lincomb a A1 b A2).
Proof.
  pose proof (reshape_scalar_Some _ _ H1) as (Hl1 & _ & Hg1).
  pose proof (reshape_scalar_Some _ _ H2) as (Hl2 & _ & Hg2).
  unfold reshape_scalar, lincomb_flat.
  rewrite length_map2, Hl1, Hl2, Nat.min_id, Nat.eqb_refl. f_equal.
  apply (array_ext 0 (shaped_tabulate2 _ _ _)
           (shaped_lincomb _ _ a b _ _ S1 S2)).
  intros i j Hi Hj. rewrite get2_tabulate2 by auto.
  assert (Hk : (i * N_POINTS + j < N_POINTS * N_POINTS)%nat) by nia.
  rewrite (nth_map2 _ _ _ _ 0 0 0) by lia.
  pose proof (get2_lincomb a b S1 S2 Hi Hj) as Hlc.
  cbn [ezero eadd escale Elem_R] in Hlc.
  now rewrite Hlc, (Hg1 i j Hi Hj), (Hg2 i j Hi Hj).
Qed.
End FlatLinearity.

Lemma flatten_scalar_lincomb (n m : nat) (a b : R) (A1 A2 : list (list R)) :
  shaped n m A1 -> shaped n m A2 ->
  flatten_scalar (lincomb a A1 b A2)
  = lincomb_flat a (flatten_scalar A1) b (flatten_scalar A2).
Proof.
  intros S1 S2.
  pose proof (shaped_lincomb _ _ a b _ _ S1 S2) as S12.
  apply (nth_ext _ _ 0 0).
  - unfold lincomb_flat.
    rewrite length_map2, !(length_flatten_scalar n m) by auto. lia.
  - intros k Hk. rewrite (length_flatten_scalar _ _ _ S12) in Hk.
    destruct (flat_index_split _ _ _ Hk) as (Hi & Hj & Hsplit).
    unfold lincomb_flat.
    rewrite (nth_map2 _ _ _ _ 0 0 0)
      by (rewrite (length_flatten_scalar n m) by auto; lia).
    rewrite Hsplit.
    rewrite !(nth_flatten_scalar n m) by auto.
    pose proof (get2_lincomb a b S1 S2 Hi Hj) as Hlc.
    cbn [ezero eadd escale Elem_R] in Hlc. exact Hlc.
Qed.

(** X16.  The two operators of the scalar solves are linear maps of the
    flattened field, as the conjugate-gradient method assumes: the Poisson
    operator and the temperature diffusion operator send [a l1 + b l2] to
    [a] times the image of [l1] plus [b] times the image of [l2]. *)
Theorem scalar_solve_operators_are_linear
  (a b : R) (l1 l2 p1 p2 t1 t2 : list R) :
  poisson_operator l1 = Some p1 -> poisson_operator l2 = Some p2 ->
  temperature_diffusion_operator l1 = Some t1 ->
  temperature_diffusion_operator l2 = Some t2 ->
  poisson_operator (lincomb_flat a l1 b l2) = Some (lincomb_flat a p1 b p2)
  /\ temperature_diffusion_operator (lincomb_flat a l1 b l2)
     = Some (lincomb_flat a t1 b t2).
Proof.
  intros Hp1 Hp2 Ht1 Ht2.
  unfold poisson_operator in Hp1, Hp2.
  apply bind_Some in Hp1. destruct Hp1 as (A1 & H1 & [= <-]).
  apply bind_Some in Hp2. destruct Hp2 as (A2 & H2 & [= <-]).
  unfold temperature_diffusion_operator in Ht1, Ht2.
  rewrite H1 in Ht1. rewrite H2 in Ht2. cbn [bind] in Ht1, Ht2.
  injection Ht1 as <-. injection Ht2 as <-.
  destruct (reshape_scalar_Some _ _ H1) as (_ & S1 & _).
  destruct (reshape_scalar_Some _ _ H2) as (_ & S2 & _).
  pose proof (shaped_laplace S1) as L1. pose proof (shaped_laplace S2) as L2.
  pose proof (shaped_lincomb _ _ a b _ _ S1 S2) as S12.
  split.
  - unfold poisson_operator.
    rewrite (reshape_scalar_lincomb a b l1 l2 A1 A2 H1 H2). cbn [bind].
    rewrite (laplace_linear N_POINTS N_POINTS a b A1 A2 S1 S2).
    now rewrite (flatten_scalar_lincomb N_POINTS N_POINTS a b _ _ L1 L2).
  - unfold temperature_diffusion_operator.
    rewrite (reshape_scalar_lincomb a b l1 l2 A1 A2 H1 H2). cbn [bind].
    rewrite (laplace_linear N_POINTS N_POINTS a b A1 A2 S1 S2).
    set (k := TEMPERATURE_DIFFUSIVITY * TIME_STEP_LENGTH).
    pose proof (shaped_zip2d Rminus _ _ _ _ S1
                  (shaped_map2d (Rmult k) _ _ _ L1)) as T1.
    pose proof (shaped_zip2d Rminus _ _ _ _ S2
                  (shaped_map2d (Rmult k) _ _ _ L2)) as T2.
    rewrite <- (flatten_scalar_lincomb N_POINTS N_POINTS a b _ _ T1 T2).
    do 2 f_equal.
    pose proof (shaped_lincomb _ _ a b _ _ L1 L2) as L12.
    apply (array_ext 0
             (shaped_zip2d Rminus _ _ _ _ S12 (shaped_map2d (Rmult k) _ _ _ L12))
             (shaped_lincomb _ _ a b _ _ T1 T2)).
    intros i j Hi Hj.
    rewrite (get2_zip2d Rminus 0 0 0 S12 (shaped_map2d (Rmult k) _ _ _ L12)
               Hi Hj).
    rewrite (get2_map2d (Rmult k) 0 0 L12 Hi Hj).
    pose proof (get2_lincomb a b S1 S2 Hi Hj) as E1.
    pose proof (get2_lincomb a b L1 L2 Hi Hj) as E2.
    pose proof (get2_lincomb a b T1 T2 Hi Hj) as E3.
    cbn [ezero eadd escale Elem_R] in E1, E2, E3.
    rewrite E1, E2, E3.
    rewrite (get2_zip2d Rminus 0 0 0 S1 (shaped_map2d (Rmult k) _ _ _ L1) Hi Hj).
    rewrite (get2_zip2d Rminus 0 0 0 S2 (shaped_map2d (Rmult k) _ _ _ L2) Hi Hj).
    rewrite (get2_map2d (Rmult k) 0 0 L1 Hi Hj),
      (get2_map2d (Rmult k) 0 0 L2 Hi Hj).
    ring.
Qed.

Lemma poisson_operator_constant (c : R) :
  poisson_operator (repeat c (N_POINTS * N_POINTS))
  = Some (repeat 0 (N_POINTS * N_POINTS)).
Proof.
  unfold poisson_operator. rewrite reshape_scalar_constant. cbn [bind].
  now rewrite laplace_constant_field, <- flatten_scalar_constant.
Qed.

Lemma scalar_solve_operators_are_linear_witness :
  let l1 := repeat 1 (N_POINTS * N_POINTS) in
  let l2 := repeat 2 (N_POINTS * N_POINTS) in
  let z := repeat 0 (N_POINTS * N_POINTS) in
  poisson_operator (lincomb_flat 3 l1 4 l2) = Some (lincomb_flat 3 z 4 z)
  /\ temperature_diffusion_operator (lincomb_flat 3 l1 4 l2)
     = Some (lincomb_flat 3 l1 4 l2).
Proof.
  apply (scalar_solve_operators_are_linear 3 4
           (repeat 1 (N_POINTS * N_POINTS)) (repeat 2 (N_POINTS * N_POINTS))
           (repeat 0 (N_POINTS * N_POINTS)) (repeat 0 (N_POINTS * N_POINTS))
           (repeat 1 (N_POINTS * N_POINTS)) (repeat 2 (N_POINTS * N_POINTS))).
  - apply poisson_operator_constant.
  - apply poisson_operator_constant.
  - apply temperature_diffusion_operator_constant.
  - apply temperature_diffusion_operator_constant.
Defined.

(** ** The heat source *)






(** ** Advection is linear in the transported field *)

Lemma evaluate_linear_lincomb (a b : R) (f g : list (list R)) (p : R * R) :
  shaped N_POINTS N_POINTS f -> shaped N_POINTS N_POINTS g ->
  0 <= fst p <= DOMAIN_SIZE -> 0 <= snd p <= DOMAIN_SIZE ->
  evaluate_linear (x, y) (lincomb a f b g) p
  = a * evaluate_linear (x, y) f p + b * evaluate_linear (x, y) g p.
Proof.
  intros Hf Hg Hx Hy. unfold evaluate_linear.
  cbn [fst snd].
  destruct (cell_of_point _ Hx) as (Hi & _).
  destruct (cell_of_point _ Hy) as (Hj & _).
  change y with x in *.
  set (i := find_index x (fst p)) in *.
  set (j := find_index x (snd p)) in *.
  rewrite !(get2_lincomb a b Hf Hg) by lia.
  cbn [ezero eadd escale Elem_R]. ring.
Qed.

(** X18.  For a fixed transport velocity the advection is a linear map of
    the advected field: the advection of [a f + b g] is [a] times the
    advection of [f] plus [b] times the advection of [g]. *)
Theorem advection_is_linear_in_the_field
  (a b : R) (f g : list (list R)) (vector_field : list (list (R * R))) :
  shaped N_POINTS N_POINTS f -> shaped N_POINTS N_POINTS g ->
  shaped N_POINTS N_POINTS vector_field ->
  exists advected_f advected_g,
    advect f vector_field = Some advected_f
    /\ advect g vector_field = Some advected_g
    /\ advect (lincomb a f b g) vector_field
       = Some (lincomb a advected_f b advected_g).
Proof.
  intros Hf Hg Hv.
  pose proof (shaped_lincomb _ _ a b _ _ Hf Hg) as Hfg.
  pose proof (shaped_backtraced_positions _ Hv) as Hb.
  rewrite (advect_Some f _ Hf Hv), (advect_Some g _ Hg Hv),
    (advect_Some _ _ Hfg Hv).
  do 2 eexists. split; [reflexivity|]. split; [reflexivity|]. f_equal.
  pose proof (shaped_map2d (evaluate_linear (x, y) f) _ _ _ Hb) as Haf.
  pose proof (shaped_map2d (evaluate_linear (x, y) g) _ _ _ Hb) as Hag.
  apply (array_ext 0
           (shaped_map2d (evaluate_linear (x, y) (lincomb a f b g)) _ _ _ Hb)
           (shaped_lincomb _ _ a b _ _ Haf Hag)).
  intros i j Hi Hj.
  pose proof (get2_lincomb a b Haf Hag Hi Hj) as Hlc.
  cbn [ezero eadd escale Elem_R] in Hlc. rewrite Hlc.
  rewrite !(get2_map2d _ (0, 0) 0 Hb Hi Hj).
  destruct (backtraced_positions_in_domain _ i j Hv Hi Hj) as [Hx Hy].
  now apply evaluate_linear_lincomb.
Qed.

Lemma advection_is_linear_in_the_field_witness :
  let f := tabulate2 N_POINTS N_POINTS (fun i j => INR i + INR j) in
  let g := constant_field N_POINTS N_POINTS 5 in
  let vector_field := constant_field N_POINTS N_POINTS (1, -2) in
  exists advected_f advected_g,
    advect f vector_field = Some advected_f
    /\ advect g vector_field = Some advected_g
    /\ advect (lincomb 2 f 3 g) vector_field
       = Some (lincomb 2 advected_f 3 advected_g).
Proof.
  apply (advection_is_linear_in_the_field 2 3
           (tabulate2 N_POINTS N_POINTS (fun i j => INR i + INR j))
           (constant_field N_POINTS N_POINTS 5)
           (constant_field N_POINTS N_POINTS (1, -2))).
  - apply shaped_tabulate2.
  - apply shaped_repeat.
  - apply shaped_repeat.
Defined.
